(** * kutbi2: the Gemini service layer (services/geminiService.ts)

    A shallow embedding of the two copies of the service module that the
    repository carries,

      - [src/services/geminiService.ts]  (called [GeminiService] below), and
      - [src/unnamed/part_000]           (called [Part000] below),

    and the properties of its reliability layer: lazy client creation,
    the bounded retry wrapper, response decoding, and the domain
    operations built on top of them.

    JavaScript strings are sequences of UTF-16 code units, numbers are
    IEEE-754 binary64 values, and the effects of the module (the cached
    client, credential lookups, requests, delays, console output) are
    threaded through an explicit world with an event trace. *)

From Stdlib Require Import ZArith NArith List Ascii String Bool Lia.
From Stdlib Require DecimalString.
From stdpp Require Import base option list gmap.

Set Warnings "-register-all".

Local Open Scope N_scope.

(* ===================================================================== *)
(** ** JavaScript strings *)
(* ===================================================================== *)

(** A string is the list of its UTF-16 code units. *)
Abbreviation jsstring := (list N).

Fixpoint utf8_bytes (s : string) : list N :=
  match s with
  | EmptyString => []
  | String c r => N_of_ascii c :: utf8_bytes r
  end.

(** Code units of one Unicode code point. *)
Definition utf16_units (cp : N) : list N :=
  if cp <? 65536 then [cp]
  else let v := cp - 65536 in
       [55296 + N.shiftr v 10; 56320 + N.land v 1023].

(** Literals are written as UTF-8 text and decoded into code units. *)
Fixpoint utf16_decode (bs : list N) : jsstring :=
  match bs with
  | [] => []
  | b0 :: r0 =>
      if b0 <? 128 then b0 :: utf16_decode r0
      else if b0 <? 224 then
        match r0 with
        | b1 :: r1 =>
            (N.lor (N.shiftl (N.land b0 31) 6) (N.land b1 63)) :: utf16_decode r1
        | [] => [65533]
        end
      else if b0 <? 240 then
        match r0 with
        | b1 :: b2 :: r2 =>
            (N.lor (N.shiftl (N.land b0 15) 12)
               (N.lor (N.shiftl (N.land b1 63) 6) (N.land b2 63))) :: utf16_decode r2
        | _ => [65533]
        end
      else
        match r0 with
        | b1 :: b2 :: b3 :: r3 =>
            utf16_units
              (N.lor (N.shiftl (N.land b0 7) 18)
                 (N.lor (N.shiftl (N.land b1 63) 12)
                    (N.lor (N.shiftl (N.land b2 63) 6) (N.land b3 63))))
              ++ utf16_decode r3
        | _ => [65533]
        end
  end.

Definition utf16 (s : string) : jsstring := utf16_decode (utf8_bytes s).

(** The double quote, which a literal cannot hold. *)
Definition dq : jsstring := [34].

(** [s.startsWith(p)], returning the rest of [s] after [p]. *)
Fixpoint strip_prefix (p s : jsstring) : option jsstring :=
  match p, s with
  | [], _ => Some s
  | _ :: _, [] => None
  | a :: p', b :: s' => if a =? b then strip_prefix p' s' else None
  end.

Definition startsWith (s p : jsstring) : bool :=
  match strip_prefix p s with Some _ => true | None => false end.

(** [s.includes(needle)]. *)
Fixpoint includes (s needle : jsstring) : bool :=
  startsWith s needle ||
  match s with
  | [] => false
  | _ :: r => includes r needle
  end.

Fixpoint jsstring_eqb (a b : jsstring) : bool :=
  match a, b with
  | [], [] => true
  | x :: a', y :: b' => (x =? y) && jsstring_eqb a' b'
  | _, _ => false
  end.

(** [s.substring(start, end)]: both indices are clamped to the length and
    swapped when out of order. *)
Definition substring (s : jsstring) (start end_ : N) : jsstring :=
  let len := N.of_nat (length s) in
  let a := N.min start len in
  let b := N.min end_ len in
  let lo := N.min a b in
  let hi := N.max a b in
  firstn (N.to_nat (hi - lo)) (skipn (N.to_nat lo) s).

(** WhiteSpace and LineTerminator code points: what [trim] removes and what
    [\s] matches. *)
Definition is_space (c : N) : bool :=
  ((9 <=? c) && (c <=? 13)) || (c =? 32) || (c =? 160) || (c =? 5760)
  || ((8192 <=? c) && (c <=? 8202)) || (c =? 8232) || (c =? 8233)
  || (c =? 8239) || (c =? 8287) || (c =? 12288) || (c =? 65279).

Fixpoint trimStart (s : jsstring) : jsstring :=
  match s with
  | c :: r => if is_space c then trimStart r else s
  | [] => []
  end.

Definition all_space (s : jsstring) : bool := forallb is_space s.

Fixpoint trimEnd (s : jsstring) : jsstring :=
  match s with
  | [] => []
  | c :: r => if all_space s then [] else c :: trimEnd r
  end.

Definition trim (s : jsstring) : jsstring := trimEnd (trimStart s).

(** The empty string is the only falsy string. *)
Definition is_empty (s : jsstring) : bool :=
  match s with [] => true | _ => false end.

Fixpoint repeat_string (s : jsstring) (n : nat) : jsstring :=
  match n with
  | O => []
  | S k => s ++ repeat_string s k
  end.


(* ===================================================================== *)
(** ** JavaScript numbers *)
(* ===================================================================== *)

(** A number is a binary64 value.  A finite non-zero value is kept as
    [m * 2^e] with [m] odd, so that equal values are equal terms. *)
Inductive number : Type :=
  | JNaN
  | JInf (negative : bool)
  | JZero (negative : bool)
  | JDyadic (negative : bool) (m : positive) (e : Z).

Local Open Scope Z_scope.

(** Odd part of a positive and the number of factors two removed. *)
Fixpoint odd_part (p : positive) : positive * Z :=
  match p with
  | xO p' => let '(o, k) := odd_part p' in (o, k + 1)
  | _ => (p, 0)
  end.

Definition dyadic (negative : bool) (m : positive) (e : Z) : number :=
  let '(o, k) := odd_part m in JDyadic negative o (e + k).

(** [floor (log2 (n / d))]. *)
Definition floor_log2_ratio (n d : positive) : Z :=
  let l := Z.log2 (Zpos n) - Z.log2 (Zpos d) in
  let below :=
    if 0 <=? l then Zpos n <? Zpos d * 2 ^ l
    else Zpos n * 2 ^ (- l) <? Zpos d in
  if below then l - 1 else l.

(** Nearest integer to [n / d], ties to even. *)
Definition round_half_even (n d : Z) : Z :=
  let q := n / d in
  let r := n mod d in
  match 2 * r ?= d with
  | Lt => q
  | Gt => q + 1
  | Eq => if Z.even q then q else q + 1
  end.

(** The binary64 value nearest to the rational [n / d] (round to nearest,
    ties to even; 53 significant bits, least exponent -1074, overflow to
    infinity). *)
Definition round_ratio (negative : bool) (n d : positive) : number :=
  let p := Z.max (floor_log2_ratio n d - 52) (-1074) in
  let m :=
    if 0 <=? p then round_half_even (Zpos n) (Zpos d * 2 ^ p)
    else round_half_even (Zpos n * 2 ^ (- p)) (Zpos d) in
  match m with
  | Zpos mp => if 1024 <=? Z.log2 m + p then JInf negative
               else dyadic negative mp p
  | _ => JZero negative
  end.

Definition number_of_Z (z : Z) : number :=
  match z with
  | Z0 => JZero false
  | Zpos p => round_ratio false p 1
  | Zneg p => round_ratio true p 1
  end.

(** A finite value as a fraction [(numerator, denominator)]. *)
Definition fraction_of (negative : bool) (m : positive) (e : Z) : Z * positive :=
  let sm := if negative then Zneg m else Zpos m in
  if 0 <=? e then (sm * 2 ^ e, 1%positive)
  else (sm, Z.to_pos (2 ^ (- e))).

(** A finite number as a fraction; zero for the others. *)
Definition fraction (x : number) : Z * positive :=
  match x with
  | JDyadic s m e => fraction_of s m e
  | _ => (0, 1%positive)
  end.

(** Order on numbers that are not NaN, as [<] compares them (both zeros
    are equal). *)
Definition number_compare (a b : number) : comparison :=
  match a, b with
  | JInf sa, JInf sb => if sa then (if sb then Eq else Lt) else (if sb then Gt else Eq)
  | JInf sa, _ => if sa then Lt else Gt
  | _, JInf sb => if sb then Gt else Lt
  | _, _ =>
      let '(na, da) := fraction a in
      let '(nb, db) := fraction b in
      (na * Zpos db ?= nb * Zpos da)
  end.

(** [Math.min(a, b)] and [Math.max(a, b)]: NaN is contagious and -0 is
    below +0. *)
Definition Math_min (a b : number) : number :=
  match a, b with
  | JNaN, _ | _, JNaN => JNaN
  | JZero sa, JZero sb => JZero (sa || sb)
  | _, _ => match number_compare a b with Gt => b | _ => a end
  end.

Definition Math_max (a b : number) : number :=
  match a, b with
  | JNaN, _ | _, JNaN => JNaN
  | JZero sa, JZero sb => JZero (sa && sb)
  | _, _ => match number_compare a b with Lt => b | _ => a end
  end.

Definition number_neg (a : number) : number :=
  match a with
  | JNaN => JNaN
  | JInf s => JInf (negb s)
  | JZero s => JZero (negb s)
  | JDyadic s m e => JDyadic (negb s) m e
  end.

(** [a - b], rounded to the nearest binary64 value. *)
Definition number_sub (a b : number) : number :=
  match a, b with
  | JNaN, _ | _, JNaN => JNaN
  | JInf sa, JInf sb => if Bool.eqb sa sb then JNaN else JInf sa
  | JInf sa, _ => JInf sa
  | _, JInf sb => JInf (negb sb)
  | JZero sa, JZero sb => JZero (sa && negb sb)
  | _, JZero _ => a
  | JZero _, _ => number_neg b
  | JDyadic sa ma ea, JDyadic sb mb eb =>
      let e := Z.min ea eb in
      let va := (if sa then Zneg ma else Zpos ma) * 2 ^ (ea - e) in
      let vb := (if sb then Zneg mb else Zpos mb) * 2 ^ (eb - e) in
      let v := va - vb in
      let mk negative (p : positive) :=
        if 0 <=? e then round_ratio negative (p * Z.to_pos (2 ^ e)) 1
        else round_ratio negative p (Z.to_pos (2 ^ (- e))) in
      match v with
      | Z0 => JZero false
      | Zpos p => mk false p
      | Zneg p => mk true p
      end
  end.

(** ToIntegerOrInfinity: truncation towards zero; [None] stands for an
    infinity. *)
Definition ToIntegerOrInfinity (a : number) : option Z :=
  match a with
  | JNaN | JZero _ => Some 0
  | JInf _ => None
  | JDyadic s m e =>
      let '(n, d) := fraction_of s m e in Some (Z.quot n (Zpos d))
  end.

Definition is_integer (a : number) : bool :=
  match a with
  | JZero _ => true
  | JDyadic _ _ e => 0 <=? e
  | _ => false
  end.


(** *** Number::toString *)

(** [10^t <= n / d]. *)
Definition pow10_le (t n d : Z) : bool :=
  if 0 <=? t then 10 ^ t * d <=? n else d <=? n * 10 ^ (- t).

(** [floor (log10 (n / d))], from the binary logarithm and a correction. *)
Definition floor_log10_ratio (n d : positive) : Z :=
  let est := (floor_log2_ratio n d * 1233) / 4096 in
  if pow10_le (est + 1) (Zpos n) (Zpos d) then est + 1
  else if pow10_le est (Zpos n) (Zpos d) then est
  else est - 1.

(** The binary64 value of the decimal [s * 10^t], [s > 0]. *)
Definition decimal_value (negative : bool) (s : positive) (t : Z) : number :=
  if 0 <=? t then round_ratio negative (s * Z.to_pos (10 ^ t)) 1
  else round_ratio negative s (Z.to_pos (10 ^ (- t))).

Definition decimal_digits (s : Z) : jsstring :=
  utf8_bytes (DecimalString.NilZero.string_of_uint (N.to_uint (Z.to_N s))).

(** The [k]-digit decimal [(s, n)] (value [s * 10^(n-k)]) that reads back
    as [x = num / den], if there is one; the closest to [x], the even one
    on a tie. *)
Definition digits_at (x : number) (num den : positive) (n k : Z)
  : option (Z * Z) :=
  let '(sn, sd) :=
    if n <=? k then (Zpos num * 10 ^ (k - n), Zpos den)
    else (Zpos num, Zpos den * 10 ^ (n - k)) in
  let lo := sn / sd in
  let r := sn mod sd in
  let hi := if lo + 1 =? 10 ^ k then (10 ^ (k - 1), n + 1) else (lo + 1, n) in
  let reads '(s, n') :=
    match s with
    | Zpos sp => match decimal_value false sp (n' - k), x with
                 | JDyadic _ m e, JDyadic _ m' e' => Pos.eqb m m' && (e =? e')
                 | _, _ => false
                 end
    | _ => false
    end in
  let lo_ok := reads (lo, n) in
  let hi_ok := reads hi in
  if (r =? 0) && lo_ok then Some (lo, n)
  else if lo_ok && hi_ok then
    match 2 * r ?= sd with
    | Lt => Some (lo, n)
    | Gt => Some hi
    | Eq => if Z.even lo then Some (lo, n) else Some hi
    end
  else if lo_ok then Some (lo, n)
  else if hi_ok then Some hi
  else None.

Fixpoint shortest_digits (fuel : nat) (x : number) (num den : positive)
  (n k : Z) : Z * Z * Z :=
  match digits_at x num den n k with
  | Some (s, n') => (s, n', k)
  | None =>
      match fuel with
      | O => (Zpos num * 10 ^ (k - n) / Zpos den, n, k)
      | S fuel' => shortest_digits fuel' x num den n (k + 1)
      end
  end.

Definition zeros (n : Z) : jsstring := repeat_string [48%N] (Z.to_nat n).

(** The decimal text of the digits [s] (there are [k] of them) scaled so
    that [n] digits stand before the point. *)
Definition format_digits (s n k : Z) : jsstring :=
  let ds := decimal_digits s in
  if (k <=? n) && (n <=? 21) then ds ++ zeros (n - k)
  else if (0 <? n) && (n <=? 21) then
    firstn (Z.to_nat n) ds ++ [46%N] ++ skipn (Z.to_nat n) ds
  else if (-6 <? n) && (n <=? 0) then
    [48%N; 46%N] ++ zeros (- n) ++ ds
  else
    let ex := n - 1 in
    let sign := if ex <? 0 then [45%N] else [43%N] in
    let mant := match ds with
                | d :: ((_ :: _) as rest) => d :: 46%N :: rest
                | _ => ds
                end in
    mant ++ [101%N] ++ sign ++ decimal_digits (Z.abs ex).

Definition Number_toString (a : number) : jsstring :=
  match a with
  | JNaN => utf16 "NaN"
  | JInf s => (if s then [45%N] else []) ++ utf16 "Infinity"
  | JZero _ => [48%N]
  | JDyadic s m e =>
      let '(zn, den) := fraction_of false m e in
      let num := Z.to_pos zn in
      let n := floor_log10_ratio num den + 1 in
      let '(sd, n', k) := shortest_digits 17 (JDyadic false m e) num den n 1 in
      (if s then [45%N] else []) ++ format_digits sd n' k
  end.


(* ===================================================================== *)
(** ** JavaScript values and [JSON.parse] *)
(* ===================================================================== *)

(** The values the module handles: what [JSON.parse] builds, and
    [undefined] for a property that is not there. *)
Inductive JSValue : Type :=
  | JUndefined
  | JNull
  | JBool (b : bool)
  | JNumber (n : number)
  | JString (s : jsstring)
  | JArray (items : list JSValue)
  | JObject (props : list (jsstring * JSValue)).

Inductive parse_result (A : Type) : Type :=
  | Parsed (a : A) (rest : jsstring)
  | SyntaxError
  | OutOfFuel.
Arguments Parsed {A} a rest.
Arguments SyntaxError {A}.
Arguments OutOfFuel {A}.

Local Open Scope N_scope.

Definition is_json_ws (c : N) : bool :=
  (c =? 9) || (c =? 10) || (c =? 13) || (c =? 32).

Fixpoint skip_ws (s : jsstring) : jsstring :=
  match s with
  | c :: r => if is_json_ws c then skip_ws r else s
  | [] => []
  end.

Definition is_digit (c : N) : bool := (48 <=? c) && (c <=? 57).

Fixpoint take_digits (s : jsstring) : list N * jsstring :=
  match s with
  | c :: r => if is_digit c
              then let '(ds, rest) := take_digits r in (c :: ds, rest)
              else ([], s)
  | [] => ([], [])
  end.

Definition digits_value (ds : list N) : Z :=
  fold_left (fun acc c => (acc * 10 + Z.of_N (c - 48))%Z) ds 0%Z.

Definition hex_value (c : N) : option N :=
  if is_digit c then Some (c - 48)
  else if (97 <=? c) && (c <=? 102) then Some (c - 87)
  else if (65 <=? c) && (c <=? 70) then Some (c - 55)
  else None.

(** The code unit a simple escape stands for. *)
Definition unescape (e : N) : option N :=
  if e =? 34 then Some 34 else if e =? 92 then Some 92
  else if e =? 47 then Some 47 else if e =? 98 then Some 8
  else if e =? 102 then Some 12 else if e =? 110 then Some 10
  else if e =? 114 then Some 13 else if e =? 116 then Some 9
  else None.

(** The characters of a string literal after its opening quote. *)
Fixpoint parse_string_body (s acc : jsstring) : parse_result jsstring :=
  match s with
  | [] => SyntaxError
  | c :: r =>
      if c =? 34 then Parsed (rev acc) r
      else if c =? 92 then
        match r with
        | [] => SyntaxError
        | e :: r' =>
            if e =? 117 then
              match r' with
              | h1 :: h2 :: h3 :: h4 :: r'' =>
                  match hex_value h1, hex_value h2, hex_value h3, hex_value h4 with
                  | Some a, Some b, Some c, Some d =>
                      parse_string_body r''
                        (((a * 16 + b) * 16 + c) * 16 + d :: acc)
                  | _, _, _, _ => SyntaxError
                  end
              | _ => SyntaxError
              end
            else
              match unescape e with
              | Some u => parse_string_body r' (u :: acc)
              | None => SyntaxError
              end
        end
      else if c <? 32 then SyntaxError
      else parse_string_body r (c :: acc)
  end.

(** The parts of a number literal, [-? int frac? exp?]. *)
Definition parse_sign (s : jsstring) : bool * jsstring :=
  match s with
  | c :: r => if c =? 45 then (true, r) else (false, s)
  | [] => (false, s)
  end.

Definition parse_int (s : jsstring) : option (list N * jsstring) :=
  match s with
  | c :: r => if c =? 48 then Some ([48], r)
              else if is_digit c then Some (take_digits s)
              else None
  | [] => None
  end.

Definition parse_frac (s : jsstring) : option (list N * jsstring) :=
  match s with
  | c :: r =>
      if c =? 46 then
        match take_digits r with
        | ([], _) => None
        | (fds, r') => Some (fds, r')
        end
      else Some ([], s)
  | [] => Some ([], s)
  end.

Definition parse_exp (s : jsstring) : option (Z * jsstring) :=
  match s with
  | c :: r =>
      if (c =? 101) || (c =? 69) then
        let '(negative, r1) :=
          match r with
          | d :: r' => if d =? 45 then (true, r')
                       else if d =? 43 then (false, r')
                       else (false, r)
          | [] => (false, r)
          end in
        match take_digits r1 with
        | ([], _) => None
        | (eds, r2) =>
            Some ((if negative then - digits_value eds else digits_value eds)%Z, r2)
        end
      else Some (0%Z, s)
  | [] => Some (0%Z, s)
  end.

(** A number literal, read as the nearest binary64 value. *)
Definition parse_number (s : jsstring) : parse_result number :=
  let '(negative, s1) := parse_sign s in
  match parse_int s1 with
  | None => SyntaxError
  | Some (ids, s2) =>
      match parse_frac s2 with
      | None => SyntaxError
      | Some (fds, s3) =>
          match parse_exp s3 with
          | None => SyntaxError
          | Some (ex, s4) =>
              match digits_value (ids ++ fds) with
              | Zpos mant =>
                  Parsed (decimal_value negative mant
                            (ex - Z.of_nat (length fds))%Z) s4
              | _ => Parsed (JZero negative) s4
              end
          end
      end
  end.

(** [true], [false], [null] or a number. *)
Definition parse_literal (s : jsstring) : parse_result JSValue :=
  match strip_prefix (utf16 "true") s,
        strip_prefix (utf16 "false") s,
        strip_prefix (utf16 "null") s with
  | Some r, _, _ => Parsed (JBool true) r
  | _, Some r, _ => Parsed (JBool false) r
  | _, _, Some r => Parsed JNull r
  | None, None, None =>
      match parse_number s with
      | Parsed n r => Parsed (JNumber n) r
      | SyntaxError => SyntaxError
      | OutOfFuel => OutOfFuel
      end
  end.

(** Does [s], after white space, start with the code unit [c]?  If so,
    what follows it. *)
Definition after_token (c : N) (s : jsstring) : option jsstring :=
  match skip_ws s with
  | d :: r => if d =? c then Some r else None
  | [] => None
  end.

Fixpoint parse_value (fuel : nat) (s : jsstring) : parse_result JSValue :=
  match fuel with
  | O => OutOfFuel
  | S f =>
      match skip_ws s with
      | [] => SyntaxError
      | c :: r =>
          if c =? 123 then
            match after_token 125 r with
            | Some r' => Parsed (JObject []) r'
            | None => parse_members f r []
            end
          else if c =? 91 then
            match after_token 93 r with
            | Some r' => Parsed (JArray []) r'
            | None => parse_elements f r []
            end
          else if c =? 34 then
            match parse_string_body r [] with
            | Parsed str r' => Parsed (JString str) r'
            | SyntaxError => SyntaxError
            | OutOfFuel => OutOfFuel
            end
          else parse_literal (c :: r)
      end
  end
with parse_elements (fuel : nat) (s : jsstring) (acc : list JSValue)
  : parse_result JSValue :=
  match fuel with
  | O => OutOfFuel
  | S f =>
      match parse_value f s with
      | Parsed v r =>
          match after_token 44 r, after_token 93 r with
          | Some r', _ => parse_elements f r' (v :: acc)
          | None, Some r' => Parsed (JArray (rev (v :: acc))) r'
          | None, None => SyntaxError
          end
      | SyntaxError => SyntaxError
      | OutOfFuel => OutOfFuel
      end
  end
with parse_members (fuel : nat) (s : jsstring)
  (acc : list (jsstring * JSValue)) : parse_result JSValue :=
  match fuel with
  | O => OutOfFuel
  | S f =>
      match after_token 34 s with
      | None => SyntaxError
      | Some r =>
          match parse_string_body r [] with
          | Parsed key r1 =>
              match after_token 58 r1 with
              | None => SyntaxError
              | Some r2 =>
                  match parse_value f r2 with
                  | Parsed v r3 =>
                      match after_token 44 r3, after_token 125 r3 with
                      | Some r4, _ => parse_members f r4 ((key, v) :: acc)
                      | None, Some r4 =>
                          Parsed (JObject (rev ((key, v) :: acc))) r4
                      | None, None => SyntaxError
                      end
                  | SyntaxError => SyntaxError
                  | OutOfFuel => OutOfFuel
                  end
              end
          | SyntaxError => SyntaxError
          | OutOfFuel => OutOfFuel
          end
      end
  end.

(** [JSON.parse(text)]: [None] when it throws a SyntaxError.  The fuel is
    never used up ([parse_value_fuel] below). *)
Definition JSON_parse (text : jsstring) : option JSValue :=
  match parse_value (S (2 * length text)) text with
  | Parsed v rest => match skip_ws rest with [] => Some v | _ => None end
  | _ => None
  end.

(** *** Reading values *)

(** An own property of an object; a later duplicate key wins. *)
Fixpoint lookup_prop (key : jsstring) (props : list (jsstring * JSValue))
  : JSValue :=
  match props with
  | [] => JUndefined
  | (k, v) :: rest =>
      match lookup_prop key rest with
      | JUndefined => if jsstring_eqb k key then v else JUndefined
      | later => later
      end
  end.

(** [typeof v === 'string'], [typeof v === 'number'], [Array.isArray(v)]. *)
Definition is_string (v : JSValue) : bool :=
  match v with JString _ => true | _ => false end.
Definition is_number (v : JSValue) : bool :=
  match v with JNumber _ => true | _ => false end.
Definition Array_isArray (v : JSValue) : bool :=
  match v with JArray _ => true | _ => false end.

(** Truthiness. *)
Definition truthy (v : JSValue) : bool :=
  match v with
  | JUndefined | JNull => false
  | JBool b => b
  | JNumber JNaN | JNumber (JZero _) => false
  | JNumber _ => true
  | JString s => negb (is_empty s)
  | JArray _ | JObject _ => true
  end.


(* ===================================================================== *)
(** ** Stripping code fences and decoding a structured response *)
(* ===================================================================== *)

Definition fence_open : jsstring := utf16 "```json".
Definition fence_close : jsstring := utf16 "```".

(** The second alternative of the pattern, [```\s*$], at the head of [s]. *)
Definition closing_fence_here (s : jsstring) : bool :=
  match strip_prefix fence_close s with
  | Some r => all_space r
  | None => false
  end.

(** Copy [s] up to the first place where the closing alternative matches;
    that match runs to the end of the text. *)
Fixpoint strip_closing_fence (s : jsstring) : jsstring :=
  if closing_fence_here s then []
  else match s with
       | [] => []
       | c :: r => c :: strip_closing_fence r
       end.

(** [text.replace(/^```json\s*|```\s*$/g, '')]: the first alternative can
    only match at the start, where it is tried first and takes the marker
    with all white space after it; from there on only the closing
    alternative can match. *)
Definition strip_code_fences (text : jsstring) : jsstring :=
  match strip_prefix fence_open text with
  | Some r => strip_closing_fence (trimStart r)
  | None => strip_closing_fence text
  end.

(* ===================================================================== *)
(** ** Errors, the world, and the effect monad *)
(* ===================================================================== *)

(** What a [throw] carries: an [Error] object (of any subclass, told apart
    by its name) or some other value. *)
Inductive Thrown : Type :=
  | ErrorObject (name message : jsstring)
  | OtherThrown (v : JSValue).

(** [new Error(message)]. *)
Definition new_Error (message : jsstring) : Thrown :=
  ErrorObject (utf16 "Error") message.

Inductive result (A : Type) : Type :=
  | Ok (a : A)
  | Throw (e : Thrown).
Arguments Ok {A} a.
Arguments Throw {A} e.

(** The client handle: which construction made it, and with which key. *)
Record Handle : Type := mkHandle {
  handle_id : nat;
  handle_apiKey : jsstring
}.

(** The schema descriptors sent with a structured request. *)
Inductive Schema : Type :=
  | SchemaString (description : option jsstring)
  | SchemaInteger (description : option jsstring)
  | SchemaArray (items : Schema) (description : option jsstring)
  | SchemaObject (properties : list (jsstring * Schema)) (required : list jsstring).

Record Config : Type := mkConfig {
  responseMimeType : option jsstring;
  responseSchema : option Schema
}.

(** The default [config = {}]. *)
Definition no_config : Config :=
  {| responseMimeType := None; responseSchema := None |}.

Record Request : Type := mkRequest {
  model : jsstring;
  contents : jsstring;
  config : option Config
}.

Inductive Level : Type := warn | error.

Inductive Event : Type :=
  | EvReadEnv
  | EvGetItem (key : jsstring)
  | EvRemoveItem (key : jsstring)
  | EvConstruct (apiKey : jsstring) (accepted : bool)
  | EvGenerateContent (h : Handle) (req : Request)
  | EvGenerateContentStream (h : Handle) (req : Request)
  | EvSleep (ms : N)
  | EvConsole (lvl : Level) (label : jsstring).

(** [process.env.API_KEY] as the guarded test of the source sees it. *)
Inductive ProcessEnv : Type :=
  | EnvAbsent
  | EnvThrows (e : Thrown)
  | EnvValue (v : jsstring).

(** [localStorage]: a key-value store, or one whose every access throws. *)
Inductive LocalStorage : Type :=
  | StorageUnavailable (e : Thrown)
  | Storage (entries : gmap jsstring jsstring).

(** The state of the process: the module-level [ai], the credential
    sources, and everything done so far, oldest first. *)
Record World : Type := mkWorld {
  ai : option Handle;
  process_env : ProcessEnv;
  localStorage : LocalStorage;
  trace : list Event
}.

(** What the remote capability answers to [generateContent]. *)
Inductive Outcome : Type :=
  | Rejects (e : Thrown)
  | Responds (text : option jsstring).

(** What it answers to [generateContentStream]: a rejection, or chunks that
    may end in a failure. *)
Inductive StreamOutcome : Type :=
  | StreamRejects (e : Thrown)
  | Streams (chunks : list (option jsstring)) (failure : option Thrown).

(** The collaborators outside the module.  Each may answer differently
    depending on everything that happened before. *)
Record Platform : Type := mkPlatform {
  GoogleGenAI_accepts : list Event -> jsstring -> bool;
  generateContent : list Event -> Handle -> Request -> Outcome;
  generateContentStream : list Event -> Handle -> Request -> StreamOutcome
}.

Definition M (A : Type) : Type := World -> result A * World.

Definition ret {A} (a : A) : M A := fun w => (Ok a, w).
Definition throw {A} (e : Thrown) : M A := fun w => (Throw e, w).
Definition bind {A B} (m : M A) (k : A -> M B) : M B :=
  fun w => match m w with
           | (Ok a, w') => k a w'
           | (Throw e, w') => (Throw e, w')
           end.
Definition try_catch {A} (m : M A) (handler : Thrown -> M A) : M A :=
  fun w => match m w with
           | (Ok a, w') => (Ok a, w')
           | (Throw e, w') => handler e w'
           end.

Notation "x <- m ;; k" := (bind m (fun x => k))
  (at level 62, m at next level, right associativity).
Notation "m ;;; k" := (bind m (fun _ => k))
  (at level 62, right associativity).

Definition emit (ev : Event) : M unit :=
  fun w => (Ok tt, {| ai := ai w; process_env := process_env w;
                      localStorage := localStorage w;
                      trace := trace w ++ [ev] |}).

Definition console (lvl : Level) (label : string) : M unit :=
  emit (EvConsole lvl (utf16 label)).

Definition get_ai : M (option Handle) := fun w => (Ok (ai w), w).

Definition set_ai (h : Handle) : M unit :=
  fun w => (Ok tt, {| ai := Some h; process_env := process_env w;
                      localStorage := localStorage w; trace := trace w |}).

Definition get_process_env : M ProcessEnv := fun w => (Ok (process_env w), w).

Definition history : M (list Event) := fun w => (Ok (trace w), w).

Definition gemini_api_key : jsstring := utf16 "gemini_api_key".

(** [localStorage.getItem(key)]: [None] is [null]. *)
Definition localStorage_getItem (key : jsstring) : M (option jsstring) :=
  emit (EvGetItem key) ;;;
  fun w => match localStorage w with
           | StorageUnavailable e => (Throw e, w)
           | Storage entries => (Ok (entries !! key), w)
           end.

(** [localStorage.removeItem(key)]. *)
Definition localStorage_removeItem (key : jsstring) : M unit :=
  emit (EvRemoveItem key) ;;;
  fun w => match localStorage w with
           | StorageUnavailable e => (Throw e, w)
           | Storage entries =>
               (Ok tt, {| ai := ai w; process_env := process_env w;
                          localStorage := Storage (delete key entries);
                          trace := trace w |})
           end.

(** ** Error values of the module *)

Definition CredentialMissing : Thrown := new_Error (utf16 "API_KEY_MISSING").
Definition InitializationFailed : Thrown :=
  new_Error (utf16 "فشل في تهيئة Gemini API. يرجى التحقق من صحة مفتاح API الخاص بك.").
Definition EmptyResponse : Thrown :=
  new_Error (utf16 "أرجع النموذج استجابة فارغة. قد يكون المحتوى غير واضح أو قصير جدًا للتحليل.").
Definition EmptyStructuredResponse : Thrown :=
  new_Error (utf16 "أرجع النموذج استجابة JSON فارغة.").
Definition MalformedStructuredResponse : Thrown :=
  new_Error (utf16 "فشل النموذج في إنشاء استجابة بتنسيق JSON صحيح.").
Definition ConnectionExhausted : Thrown :=
  new_Error (utf16 "فشل الاتصال بـ Gemini API بعد عدة محاولات.").

Definition application_json : jsstring := utf16 "application/json".

(** The two copies of the module. *)
Inductive SourceFile : Type := GeminiService | Part000.

Section Service.

Variable P : Platform.

(* ===================================================================== *)
(** ** [getAiInstance] *)
(* ===================================================================== *)

(** [new GoogleGenAI({ apiKey })] inside its [try]: the handler receives
    whatever the constructor threw. *)
Definition construct_client (apiKey : jsstring) (on_failure : M Handle)
  : M Handle :=
  past <- history ;;
  let accepted := GoogleGenAI_accepts P past apiKey in
  emit (EvConstruct apiKey accepted) ;;;
  if accepted then
    let h := {| handle_id := length past; handle_apiKey := apiKey |} in
    set_ai h ;;; ret h
  else on_failure.

(** The guarded read of [process.env.API_KEY] (step 1 of
    [geminiService.ts]): a non-empty string, or nothing. *)
Definition read_process_env : M (option jsstring) :=
  emit EvReadEnv ;;;
  env <- get_process_env ;;
  match env with
  | EnvAbsent => ret None
  | EnvThrows _ => console warn "Could not access process.env.API_KEY" ;;; ret None
  | EnvValue v => ret (if is_empty v then None else Some v)
  end.

Definition falsy_key (k : option jsstring) : bool :=
  match k with
  | None => true
  | Some v => is_empty v
  end.

(** [src/services/geminiService.ts], lines 15-55. *)
Definition getAiInstance_GeminiService : M Handle :=
  cached <- get_ai ;;
  match cached with
  | Some h => ret h
  | None =>
      apiKey <- read_process_env ;;
      apiKey <- (if falsy_key apiKey
                 then try_catch (localStorage_getItem gemini_api_key)
                        (fun _ => console warn "Could not access localStorage" ;;;
                                  ret apiKey)
                 else ret apiKey) ;;
      match apiKey with
      | Some k =>
          if is_empty k then
            console warn "API key not found in process.env or localStorage." ;;;
            throw CredentialMissing
          else
            construct_client k
              (console error "Could not initialize GoogleGenAI. AI features will be disabled." ;;;
               throw InitializationFailed)
      | None =>
          console warn "API key not found in process.env or localStorage." ;;;
          throw CredentialMissing
      end
  end.

(** [src/unnamed/part_000], lines 15-47. *)
Definition getAiInstance_Part000 : M Handle :=
  cached <- get_ai ;;
  match cached with
  | Some h => ret h
  | None =>
      apiKey <- try_catch (localStorage_getItem gemini_api_key)
                  (fun _ =>
                     console warn "Could not access localStorage. API features will be disabled." ;;;
                     throw CredentialMissing) ;;
      match apiKey with
      | Some k =>
          if is_empty k then throw CredentialMissing
          else
            construct_client k
              (console error "Could not initialize GoogleGenAI. This might be due to an invalid API key." ;;;
               localStorage_removeItem gemini_api_key ;;;
               throw InitializationFailed)
      | None => throw CredentialMissing
      end
  end.

Definition getAiInstance (f : SourceFile) : M Handle :=
  match f with
  | GeminiService => getAiInstance_GeminiService
  | Part000 => getAiInstance_Part000
  end.

(* ===================================================================== *)
(** ** [callGeminiWithRetry] *)
(* ===================================================================== *)

Definition gemini_model : jsstring := utf16 "gemini-2.5-flash".

(** [config.responseMimeType === "application/json"]. *)
Definition wants_json (cfg : Config) : bool :=
  match responseMimeType cfg with
  | Some mime => jsstring_eqb mime application_json
  | None => false
  end.

Definition cleanedJsonString (textResponse : jsstring) : jsstring :=
  trim (strip_code_fences textResponse).

(** Lines 76-87: strip the fences, trim, and parse. *)
Definition decode_structured (textResponse : jsstring) : M JSValue :=
  let cleaned := cleanedJsonString textResponse in
  if is_empty cleaned then throw EmptyStructuredResponse
  else match JSON_parse cleaned with
       | Some v => ret v
       | None =>
           console error "Failed to parse JSON response:" ;;;
           throw MalformedStructuredResponse
       end.

(** The body of the [try] in the loop: one request and the validation of
    its answer. *)
Definition attempt (h : Handle) (prompt : jsstring) (cfg : Config) : M JSValue :=
  past <- history ;;
  let req := {| model := gemini_model; contents := prompt; config := Some cfg |} in
  emit (EvGenerateContent h req) ;;;
  match generateContent P past h req with
  | Rejects e => throw e
  | Responds None => throw EmptyResponse
  | Responds (Some textResponse) =>
      if is_empty textResponse || is_empty (trim textResponse)
      then throw EmptyResponse
      else if wants_json cfg then decode_structured textResponse
      else ret (JString textResponse)
  end.

(** What is thrown once no attempt is left (the [attempts === 0] branch). *)
Definition on_exhaustion (f : SourceFile) (err : Thrown) : Thrown :=
  match err with
  | ErrorObject _ message =>
      match f with
      | GeminiService =>
          if includes message (utf16 "Gemini API")
             || includes message (utf16 "استجابة فارغة")
             || includes message (utf16 "JSON")
             || jsstring_eqb message (utf16 "API_KEY_MISSING")
          then err else ConnectionExhausted
      | Part000 =>
          if includes message (utf16 "API key not valid")
             || includes message (utf16 "API_KEY_MISSING")
          then new_Error (utf16 "API_KEY_MISSING")
          else if includes message (utf16 "Gemini API")
                  || includes message (utf16 "استجابة فارغة")
                  || includes message (utf16 "JSON")
          then err else ConnectionExhausted
      end
  | OtherThrown _ => ConnectionExhausted
  end.

Definition attempt_label (remaining : nat) : jsstring :=
  utf16 "Gemini API error (attempt "
  ++ Number_toString (number_of_Z (3 - Z.of_nat remaining))
  ++ utf16 "):".

(** The [while (attempts > 0)] loop; [attempts] is the counter on entry. *)
Fixpoint retry_loop (f : SourceFile) (attempts : nat) (h : Handle)
  (prompt : jsstring) (cfg : Config) : M JSValue :=
  match attempts with
  | O => throw ConnectionExhausted
  | S remaining =>
      try_catch (attempt h prompt cfg)
        (fun err =>
           emit (EvConsole error (attempt_label remaining)) ;;;
           if Nat.eqb remaining 0 then throw (on_exhaustion f err)
           else emit (EvSleep 1000) ;;; retry_loop f remaining h prompt cfg)
  end.

Definition callGeminiWithRetry (f : SourceFile) (prompt : jsstring)
  (cfg : Config) : M JSValue :=
  aiInstance <- getAiInstance f ;;
  retry_loop f 3 aiInstance prompt cfg.

End Service.

(* ===================================================================== *)
(** ** Prompts and schemas of the domain operations *)
(* ===================================================================== *)

Definition analysisPrompt (content : jsstring) : jsstring :=
  utf16 "
        قم بتحليل النص التالي بعناية وقدم ملخصًا شاملاً. يجب أن يحدد الملخص النقاط الرئيسية والحجج والأفكار الأساسية المقدمة في المستند.
        
        يرجى تنظيم إجابتك على النحو التالي:
        1.  **ملخص موجز:** فقرة قصيرة تلخص الغرض العام والمحتوى للمستند.
        2.  **النقاط الرئيسية:** قائمة نقطية (bullet points) لأهم 3-5 نقاط أو نتائج من النص.
        3.  **الاستنتاج:** استنتاج نهائي أو الفكرة الرئيسية التي يمكن استخلاصها من المستند.
        
        تأكد من أن التحليل واضح وموجز وسهل الفهم.
        ---
        محتوى المستند:
        "
  ++ substring content 0 100000
  ++ utf16 "
        ---
    ".

Definition categoriesPrompt (content : jsstring) : jsstring :=
  utf16 "
        بناءً على النص التالي، اقترح من 2 إلى 4 تصنيفات ذات صلة. يجب أن يكون كل تصنيف كلمة أو كلمتين فقط.
        مثال على التصنيفات: "
  ++ dq
  ++ utf16 "فقه"
  ++ dq
  ++ utf16 ", "
  ++ dq
  ++ utf16 "عقيدة"
  ++ dq
  ++ utf16 ", "
  ++ dq
  ++ utf16 "تاريخ إسلامي"
  ++ dq
  ++ utf16 ", "
  ++ dq
  ++ utf16 "سيرة نبوية"
  ++ dq
  ++ utf16 ", "
  ++ dq
  ++ utf16 "تطوير ذات"
  ++ dq
  ++ utf16 ".
        ---
        محتوى المستند:
        "
  ++ substring content 0 8000
  ++ utf16 "
        ---
    ".

Definition summaryPrompt (content : jsstring) : jsstring :=
  utf16 "
        مهمتك هي إنشاء ملخص مفصل للنص التالي. اتبع التعليمات بدقة:
        1.  اقرأ النص بالكامل.
        2.  قم بالمرور على كل فقرة من فقرات النص بشكل منفصل.
        3.  لكل فقرة، اكتب ملخصًا مفصلاً يشرح فكرتها الرئيسية والتفاصيل الهامة.
        4.  يجب أن يكون الناتج النهائي عبارة عن مجموعة من هذه الملخصات المفصلة، واحدة لكل فقرة.
        5.  الهدف هو أن يكون الطول الإجمالي للملخص الناتج كبيرًا، أي ما يقارب نصف طول النص الأصلي. حافظ على وضوح اللغة وسهولة القراءة.
        
        ---
        محتوى المستند:
        "
  ++ substring content 0 100000
  ++ utf16 "
        ---
    ".

Definition quizPrompt (content : jsstring) (questionCount : number) : jsstring :=
  utf16 "
        بناءً على النص التالي، قم بإنشاء اختبار من "
  ++ Number_toString questionCount
  ++ utf16 " أسئلة من نوع الاختيار من متعدد. يجب أن يحتوي كل سؤال على 4 خيارات.
        ---
        محتوى المستند:
        "
  ++ substring content 0 100000
  ++ utf16 "
        ---
    ".

Definition sentimentPrompt (content : jsstring) : jsstring :=
  utf16 "
        حلل المشاعر في النص التالي. حدد ما إذا كانت المشاعر العامة "
  ++ dq
  ++ utf16 "إيجابية"
  ++ dq
  ++ utf16 " أو "
  ++ dq
  ++ utf16 "سلبية"
  ++ dq
  ++ utf16 " أو "
  ++ dq
  ++ utf16 "محايدة"
  ++ dq
  ++ utf16 ". قدم شرحًا موجزًا لتقييمك.
        ---
        محتوى المستند:
        "
  ++ substring content 0 100000
  ++ utf16 "
        ---
    ".

Definition keywordsPrompt (content : jsstring) : jsstring :=
  utf16 "
        استنادًا إلى النص التالي، قم باستخراج أهم 5 إلى 10 كلمات رئيسية أو عبارات أساسية تمثل الموضوعات الرئيسية.
        ---
        محتوى المستند:
        "
  ++ substring content 0 100000
  ++ utf16 "
        ---
    ".

Definition translateToEnglishPrompt (content : jsstring) : jsstring :=
  utf16 "Translate the following Arabic text to English. Maintain the original formatting (markdown headers, lists, bold text, etc.).

---

"
  ++ content.

Definition translateToArabicPrompt (content : jsstring) : jsstring :=
  utf16 "Translate the following English text to Arabic. Maintain the original formatting (markdown headers, lists, bold text, etc.).

---

"
  ++ content.

Definition bookDescriptionPrompt (content : jsstring) : jsstring :=
  utf16 "
        بناءً على مقتطف النص التالي من كتاب، قم بإنشاء وصف جذاب وموجز للكتاب يتكون من حوالي 40 كلمة.
        يجب أن يكون الوصف مناسبًا للعرض في قائمة مكتبة لجذب القارئ.
        ---
        محتوى المستند:
        "
  ++ substring content 0 4000
  ++ utf16 " 
        ---
    ".

Definition videoDescriptionPrompt (title : jsstring) : jsstring :=
  utf16 "
        بناءً على عنوان الفيديو التالي، قم بإنشاء وصف جذاب وموجز للفيديو يتكون من حوالي 30-40 كلمة.
        يجب أن يكون الوصف مناسبًا للعرض في مكتبة وسائط لجذب المشاهد.
        ---
        عنوان الفيديو:
        "
  ++ dq
  ++ title
  ++ dq
  ++ utf16 "
        ---
    ".

Definition bookTitlePrompt (content : jsstring) : jsstring :=
  utf16 "
        مهمتك هي التصرف كقارئ ذكي يحلل الصفحة الأولى من كتاب. النص التالي هو بداية مستند تم رفعه. ابحث عن العنوان الرئيسي والبارز في هذا النص، كما لو كان مطبوعًا على غلاف الكتاب.
        
        أريد العنوان فقط، بدون أي كلمات إضافية مثل "
  ++ dq
  ++ utf16 "العنوان هو:"
  ++ dq
  ++ utf16 ". يجب أن يكون الجواب هو العنوان الصريح.
        
        إذا لم تتمكن من تحديد عنوان واضح، أجب بـ "
  ++ dq
  ++ utf16 "عنوان غير معروف"
  ++ dq
  ++ utf16 ".
        ---
        مقتطف من الصفحة الأولى:
        "
  ++ substring content 0 4000
  ++ utf16 "
        ---
    ".

Definition scriptPrompt (title description : jsstring) : jsstring :=
  utf16 "
        مهمتك هي العمل ككاتب سيناريو خبير. بناءً على عنوان الفيديو ووصفه، قم بإنشاء نص تفصيلي (script) للفيديو. 
        يجب أن يكون النص منسقًا بشكل جيد، ويتضمن حوارًا أو حديثًا واضحًا، ويمكن أن يتضمن إشارات للمشاهد المرئية إن أمكن. 
        اجعل النص يبدو طبيعيًا كما لو كان تفريغًا صوتيًا حقيقيًا للفيديو.

        عنوان الفيديو: "
  ++ dq
  ++ title
  ++ dq
  ++ utf16 "

        وصف الفيديو: "
  ++ dq
  ++ description
  ++ dq
  ++ utf16 "

        ---
        النص المقترح:
    ".

Definition suggestionsPrompt (content : jsstring) : jsstring :=
  utf16 "
        Based on the following Arabic text, provide 5 general, single-word search keywords in Arabic that represent the main themes.
        These keywords should be broad enough to find matches in a library of books and videos.
        Avoid very specific phrases or sentences. Return only a JSON array of single-word strings.
        Example: ["
  ++ dq
  ++ utf16 "الفقه"
  ++ dq
  ++ utf16 ", "
  ++ dq
  ++ utf16 "العقيدة"
  ++ dq
  ++ utf16 ", "
  ++ dq
  ++ utf16 "السنة"
  ++ dq
  ++ utf16 ", "
  ++ dq
  ++ utf16 "العبادات"
  ++ dq
  ++ utf16 "]
        ---
        النص:
        "
  ++ substring content 0 8000
  ++ utf16 "
        ---
    ".

Definition articlePrompt (content : jsstring) : jsstring :=
  utf16 "
        مهمتك هي العمل ككاتب محتوى محترف. قم بتحويل النص التالي إلى مقال جذاب ومناسب للنشر في مدونة شخصية.
        
        التعليمات:
        1.  ابدأ بعنوان جذاب يلخص الفكرة الرئيسية. استخدم تنسيق Markdown للعنوان (مثال: # عنوان المقال).
        2.  قسم المحتوى إلى فقرات قصيرة وسهلة القراءة.
        3.  استخدم عناوين فرعية (مثال: ## عنوان فرعي) لتنظيم المقال إذا كان المحتوى طويلاً.
        4.  حافظ على جوهر وأفكار النص الأصلي، لكن أعد صياغته بأسلوب شيق ومناسب لجمهور عام.
        5.  في نهاية المقال **بالضبط**، وبدون أي نص إضافي بعدها، أضف السطر التالي: "
  ++ dq
  ++ utf16 "صمم بواسطة الكُتُبي الذكي لأكاديمية درسني"
  ++ dq
  ++ utf16 ".

        ---
        محتوى المستند الأصلي:
        "
  ++ substring content 0 100000
  ++ utf16 "
        ---
    ".

Definition ratingPrompt (content : jsstring) : jsstring :=
  utf16 "
        مهمتك هي العمل كناقد أدبي خبير. قم بتقييم النص العربي التالي.
        قدم تقييمًا من 1 إلى 5 نجوم ومراجعة موجزة ومنطقية باللغة العربية تبرر تقييمك.
        خذ في الاعتبار جوانب مثل الوضوح، والبنية، والعمق، والجودة الشاملة.

        ---
        النص للتقييم:
        "
  ++ substring content 0 100000
  ++ utf16 "
        ---
    ".

Definition ratingReport (stars : jsstring) (rating : number) (review : jsstring) : jsstring :=
  utf16 "### تقييم المحتوى

**التقييم:** "
  ++ stars
  ++ utf16 " ("
  ++ Number_toString rating
  ++ utf16 "/5)

**المراجعة:**
"
  ++ review.

Definition json_config (schema : Schema) : Config :=
  {| responseMimeType := Some application_json; responseSchema := Some schema |}.

Definition categoriesSchema : Schema :=
  SchemaArray
    (SchemaString (Some (utf16 "A single category, one or two words max.")))
    None.

Definition quizSchema : Schema :=
  SchemaArray
    (SchemaObject
       [ (utf16 "question", SchemaString (Some (utf16 "The quiz question.")));
         (utf16 "options",
          SchemaArray (SchemaString None)
            (Some (utf16 "An array of 4 possible answers.")));
         (utf16 "correctAnswerIndex",
          SchemaInteger
            (Some (utf16 "The 0-based index of the correct answer in the options array."))) ]
       [utf16 "question"; utf16 "options"; utf16 "correctAnswerIndex"])
    None.

Definition sentimentSchema : Schema :=
  SchemaObject
    [ (utf16 "sentiment",
       SchemaString
         (Some (utf16 "The overall sentiment, must be one of: "
                ++ dq ++ utf16 "إيجابي" ++ dq ++ utf16 ", "
                ++ dq ++ utf16 "سلبي" ++ dq ++ utf16 ", "
                ++ dq ++ utf16 "محايد" ++ dq ++ utf16 ".")));
      (utf16 "explanation",
       SchemaString (Some (utf16 "A brief explanation for the sentiment analysis."))) ]
    [utf16 "sentiment"; utf16 "explanation"].

Definition keywordsSchema : Schema :=
  SchemaArray (SchemaString (Some (utf16 "A single keyword or key phrase."))) None.

Definition suggestionsSchema : Schema :=
  SchemaArray
    (SchemaString (Some (utf16 "A single suggested topic or title in Arabic.")))
    None.

Definition ratingSchema : Schema :=
  SchemaObject
    [ (utf16 "rating", SchemaInteger (Some (utf16 "A numerical rating from 1 to 5.")));
      (utf16 "review",
       SchemaString (Some (utf16 "A concise review in Arabic explaining the rating."))) ]
    [utf16 "rating"; utf16 "review"].

(** ** Defaults and errors of the domain operations *)

Definition analysis_default : JSValue :=
  JObject [ (utf16 "analysis", JString (utf16 "الملف فارغ أو لا يمكن قراءة المحتوى."));
            (utf16 "categories", JArray []) ].
Definition summary_placeholder : jsstring := utf16 "لا يوجد محتوى لتلخيصه.".
Definition translation_placeholder : jsstring := utf16 "لا يوجد محتوى لترجمته.".
Definition bookDescription_placeholder : jsstring := utf16 "لا يمكن إنشاء وصف لمحتوى فارغ.".
Definition videoDescription_placeholder : jsstring := utf16 "وصف غير متوفر.".
Definition bookTitle_placeholder : jsstring := utf16 "عنوان غير معروف".
Definition article_placeholder : jsstring := utf16 "لا يمكن تصميم مقال من محتوى فارغ.".
Definition rating_placeholder : jsstring := utf16 "لا يوجد محتوى لتقييمه.".

Definition StreamingFailed : Thrown :=
  new_Error (utf16 "فشل الاتصال بـ Gemini API أثناء التلخيص.").
Definition StreamingFailedWith (message : jsstring) : Thrown :=
  new_Error (utf16 "فشل الاتصال بـ Gemini API أثناء التلخيص: " ++ message).
Definition MalformedQuiz : Thrown :=
  new_Error (utf16 "فشل النموذج في إنشاء اختبار بالتنسيق الصحيح.").
Definition NoSentimentContent : Thrown :=
  new_Error (utf16 "لا يوجد محتوى لتحليل المشاعر.").
Definition MalformedSentiment : Thrown :=
  new_Error (utf16 "فشل النموذج في تحليل المشاعر بالتنسيق الصحيح.").
Definition MalformedKeywords : Thrown :=
  new_Error (utf16 "فشل النموذج في استخراج الكلمات الرئيسية بالتنسيق الصحيح.").
Definition MalformedSuggestions : Thrown :=
  new_Error (utf16 "فشل النموذج في إنشاء اقتراحات بالتنسيق الصحيح.").
Definition MalformedRating : Thrown :=
  new_Error (utf16 "فشل النموذج في تقييم المحتوى بالتنسيق الصحيح.").
Definition RatingFailed : Thrown :=
  new_Error (utf16 "حدث خطأ أثناء إنشاء تقييم المحتوى.").

(** ** Reading decoded values *)

(** [v.key] for the keys the module reads, none of which is an index,
    [length] or a name found on a prototype: reading a property of [null]
    or [undefined] throws a TypeError (the message is the engine's); only
    objects carry such a property. *)
Definition get_property (v : JSValue) (key : string) : result JSValue :=
  match v with
  | JUndefined =>
      Throw (ErrorObject (utf16 "TypeError")
               (utf16 "Cannot read properties of undefined (reading '"
                ++ utf16 key ++ utf16 "')"))
  | JNull =>
      Throw (ErrorObject (utf16 "TypeError")
               (utf16 "Cannot read properties of null (reading '"
                ++ utf16 key ++ utf16 "')"))
  | JObject props => Ok (lookup_prop (utf16 key) props)
  | _ => Ok JUndefined
  end.

(** [Array.isArray(v) && v.every(item => typeof item === 'string')]. *)
Definition is_string_array (v : JSValue) : bool :=
  match v with
  | JArray items => forallb is_string items
  | _ => false
  end.

(** [Array.isArray(v) && v.length === 4]. *)
Definition is_array_of_4 (v : JSValue) : bool :=
  match v with
  | JArray items => Nat.eqb (length items) 4
  | _ => false
  end.

(** The callback of [result.every] in [createQuiz]. *)
Definition quiz_item_ok (q : JSValue) : result bool :=
  match get_property q "question" with
  | Throw e => Throw e
  | Ok question =>
      if is_string question then
        match get_property q "options" with
        | Throw e => Throw e
        | Ok options =>
            if is_array_of_4 options then
              match get_property q "correctAnswerIndex" with
              | Throw e => Throw e
              | Ok idx => Ok (is_number idx)
              end
            else Ok false
        end
      else Ok false
  end.

(** [items.every(callback)]: stops at the first [false], and at a throw. *)
Fixpoint every (callback : JSValue -> result bool) (items : list JSValue)
  : result bool :=
  match items with
  | [] => Ok true
  | item :: rest =>
      match callback item with
      | Throw e => Throw e
      | Ok false => Ok false
      | Ok true => every callback rest
      end
  end.

(** The test of [createQuiz], lines 264-269. *)
Definition is_quiz (v : JSValue) : result bool :=
  match v with
  | JArray items => every quiz_item_ok items
  | _ => Ok false
  end.

(** [v && typeof v.a === 'string' && typeof v.b === 'string']. *)
Definition has_strings (v : JSValue) (a b : string) : result bool :=
  if truthy v then
    match get_property v a with
    | Throw e => Throw e
    | Ok x =>
        if is_string x then
          match get_property v b with
          | Throw e => Throw e
          | Ok y => Ok (is_string y)
          end
        else Ok false
    end
  else Ok false.

(** [s.repeat(count)]: a negative or infinite count is a RangeError, a
    fractional one is truncated. *)
Definition String_repeat (s : jsstring) (count : number) : result jsstring :=
  let range_error :=
    ErrorObject (utf16 "RangeError")
      (utf16 "Invalid count value: " ++ Number_toString count) in
  match ToIntegerOrInfinity count with
  | None => Throw range_error
  | Some n => if (n <? 0)%Z then Throw range_error
              else Ok (repeat_string s (Z.to_nat n))
  end.

Definition filled_mark : jsstring := utf16 "★".
Definition empty_mark : jsstring := utf16 "☆".

(** [Math.max(1, Math.min(5, r))]. *)
Definition clamp_rating (r : number) : number :=
  Math_max (number_of_Z 1) (Math_min (number_of_Z 5) r).

(** Lines 524-531 of [rateContent]: the report for a decoded [result]. *)
Definition rating_report (v : JSValue) : result (option jsstring) :=
  if truthy v then
    match get_property v "rating" with
    | Throw e => Throw e
    | Ok (JNumber r) =>
        match get_property v "review" with
        | Throw e => Throw e
        | Ok (JString review) =>
            let rating := clamp_rating r in
            match String_repeat filled_mark rating with
            | Throw e => Throw e
            | Ok filled =>
                match String_repeat empty_mark
                        (number_sub (number_of_Z 5) rating) with
                | Throw e => Throw e
                | Ok empty =>
                    Ok (Some (ratingReport (filled ++ empty) rating review))
                end
            end
        | Ok _ => Ok None
        end
    | Ok _ => Ok None
    end
  else Ok None.

Definition lift {A} (r : result A) : M A := fun w => (r, w).

(** What an asynchronous generator gives its consumer: the fragments it
    yielded and, if it ended by throwing, the error. *)
Record StreamResult : Type := mkStream {
  fragments : list jsstring;
  ending : option Thrown
}.

Section Operations.

Variable P : Platform.
Variable f : SourceFile.

Definition categorizeContent (content : jsstring) : M JSValue :=
  if is_empty content then ret (JArray [])
  else
    try_catch
      (result <- callGeminiWithRetry P f (categoriesPrompt content)
                   (json_config categoriesSchema) ;;
       if is_string_array result then ret result
       else
         emit (EvConsole (match f with GeminiService => error | Part000 => warn end)
                 (utf16 "Invalid categories format received from API:")) ;;;
         ret (JArray []))
      (fun _ => console error "Failed to generate categories:" ;;; ret (JArray [])).

(** The two calls are started one after the other and awaited together.
    The model runs the first to its end and then the second: it does not
    follow the order in which, in the program, the requests of the two
    calls interleave. *)
Definition analyzeTextContent (content : jsstring) : M JSValue :=
  if is_empty content then ret analysis_default
  else fun w =>
    let '(analysis, w1) :=
      callGeminiWithRetry P f (analysisPrompt content) no_config w in
    let '(categories, w2) := categorizeContent content w1 in
    match analysis, categories with
    | Ok a, Ok c =>
        (Ok (JObject [(utf16 "analysis", a); (utf16 "categories", c)]), w2)
    | Throw e, _ => (Throw e, w2)
    | Ok _, Throw e => (Throw e, w2)
    end.

(** The [catch] of [summarizeContent]. *)
Definition on_stream_failure (err : Thrown) : Thrown :=
  match f, err with
  | GeminiService, ErrorObject _ message =>
      if includes message (utf16 "Gemini API")
         || jsstring_eqb message (utf16 "API_KEY_MISSING")
      then err else StreamingFailedWith message
  | GeminiService, OtherThrown _ => StreamingFailed
  | Part000, ErrorObject _ message =>
      if includes message (utf16 "API key not valid")
      then new_Error (utf16 "API_KEY_MISSING") else StreamingFailed
  | Part000, OtherThrown _ => StreamingFailed
  end.

(** The non-empty texts of the chunks, in order. *)
Definition chunk_texts (chunks : list (option jsstring)) : list jsstring :=
  omap (fun c => match c with
                 | Some t => if is_empty t then None else Some t
                 | None => None
                 end) chunks.

Definition summarizeContent (content : jsstring) : World -> StreamResult * World :=
  fun w =>
    match getAiInstance P f w with
    | (Throw e, w1) => ({| fragments := []; ending := Some e |}, w1)
    | (Ok aiInstance, w1) =>
        if is_empty content
        then ({| fragments := [summary_placeholder]; ending := None |}, w1)
        else
          let req := {| model := gemini_model; contents := summaryPrompt content;
                        config := None |} in
          let '(_, w2) := emit (EvGenerateContentStream aiInstance req) w1 in
          let failed e yielded :=
            let '(_, w3) := console error "Gemini API streaming error:" w2 in
            ({| fragments := yielded; ending := Some (on_stream_failure e) |}, w3) in
          match generateContentStream P (trace w1) aiInstance req with
          | StreamRejects e => failed e []
          | Streams chunks (Some e) => failed e (chunk_texts chunks)
          | Streams chunks None =>
              ({| fragments := chunk_texts chunks; ending := None |}, w2)
          end
    end.

Definition createQuiz (content : jsstring) (questionCount : number) : M JSValue :=
  if is_empty content then ret (JArray [])
  else
    result <- callGeminiWithRetry P f (quizPrompt content questionCount)
                (json_config quizSchema) ;;
    ok <- lift (is_quiz result) ;;
    if ok then ret result
    else console error "Invalid quiz format received from API:" ;;;
         throw MalformedQuiz.

Definition analyzeSentiment (content : jsstring) : M JSValue :=
  if is_empty content then throw NoSentimentContent
  else
    result <- callGeminiWithRetry P f (sentimentPrompt content)
                (json_config sentimentSchema) ;;
    ok <- lift (has_strings result "sentiment" "explanation") ;;
    if ok then ret result
    else console error "Invalid sentiment format received from API:" ;;;
         throw MalformedSentiment.

Definition extractKeywords (content : jsstring) : M JSValue :=
  if is_empty content then ret (JArray [])
  else
    result <- callGeminiWithRetry P f (keywordsPrompt content)
                (json_config keywordsSchema) ;;
    if is_string_array result then ret result
    else console error "Invalid keywords format received from API:" ;;;
         throw MalformedKeywords.

Definition translateToEnglish (content : jsstring) : M JSValue :=
  if is_empty content then ret (JString translation_placeholder)
  else callGeminiWithRetry P f (translateToEnglishPrompt content) no_config.

Definition translateToArabic (content : jsstring) : M JSValue :=
  if is_empty content then ret (JString translation_placeholder)
  else callGeminiWithRetry P f (translateToArabicPrompt content) no_config.

Definition generateBookDescription (content : jsstring) : M JSValue :=
  if is_empty content then ret (JString bookDescription_placeholder)
  else callGeminiWithRetry P f (bookDescriptionPrompt content) no_config.

Definition generateVideoDescription (title : jsstring) : M JSValue :=
  if is_empty title then ret (JString videoDescription_placeholder)
  else callGeminiWithRetry P f (videoDescriptionPrompt title) no_config.

Definition extractBookTitle (content : jsstring) : M JSValue :=
  if is_empty content then ret (JString bookTitle_placeholder)
  else callGeminiWithRetry P f (bookTitlePrompt content) no_config.

Definition generateScriptFromInfo (title description : jsstring) : M JSValue :=
  callGeminiWithRetry P f (scriptPrompt title description) no_config.

Definition generateContentSuggestions (content : jsstring) : M JSValue :=
  if is_empty content then ret (JArray [])
  else
    result <- callGeminiWithRetry P f (suggestionsPrompt content)
                (json_config suggestionsSchema) ;;
    if is_string_array result then ret result
    else console error "Invalid suggestions format received from API:" ;;;
         throw MalformedSuggestions.

Definition designArticleFromContent (content : jsstring) : M JSValue :=
  if is_empty content then ret (JString article_placeholder)
  else callGeminiWithRetry P f (articlePrompt content) no_config.

Definition rateContent (content : jsstring) : M JSValue :=
  if is_empty content then ret (JString rating_placeholder)
  else
    try_catch
      (result <- callGeminiWithRetry P f (ratingPrompt content)
                   (json_config ratingSchema) ;;
       report <- lift (rating_report result) ;;
       match report with
       | Some text => ret (JString text)
       | None =>
           console error "Invalid rating format received from API:" ;;;
           throw MalformedRating
       end)
      (fun _ => console error "Failed to generate rating:" ;;; throw RatingFailed).

End Operations.

(** ** The exported operations as one interface *)

(** The exported functions; each takes one text ([content] or [title]), and
    two of them a second argument. *)
Inductive Operation : Type :=
  | AnalyzeTextContent
  | CategorizeContent
  | SummarizeContent
  | CreateQuiz (questionCount : number)
  | AnalyzeSentiment
  | ExtractKeywords
  | TranslateToEnglish
  | TranslateToArabic
  | GenerateBookDescription
  | GenerateVideoDescription
  | ExtractBookTitle
  | GenerateScriptFromInfo (description : jsstring)
  | GenerateContentSuggestions
  | DesignArticleFromContent
  | RateContent.

(** What the caller of an operation observes: the value a promise resolves
    to, the error it rejects with, or what a generator yields and how it
    ends. *)
Inductive Observed : Type :=
  | Resolved (v : JSValue)
  | Rejected (e : Thrown)
  | Yielded (fragments : list jsstring) (ending : option Thrown).

Definition settle (r : result JSValue * World) : Observed * World :=
  match r with
  | (Ok v, w) => (Resolved v, w)
  | (Throw e, w) => (Rejected e, w)
  end.

Definition invoke (P : Platform) (f : SourceFile) (op : Operation)
  (input : jsstring) (w : World) : Observed * World :=
  match op with
  | AnalyzeTextContent => settle (analyzeTextContent P f input w)
  | CategorizeContent => settle (categorizeContent P f input w)
  | SummarizeContent =>
      let '(s, w') := summarizeContent P f input w in
      (Yielded (fragments s) (ending s), w')
  | CreateQuiz questionCount => settle (createQuiz P f input questionCount w)
  | AnalyzeSentiment => settle (analyzeSentiment P f input w)
  | ExtractKeywords => settle (extractKeywords P f input w)
  | TranslateToEnglish => settle (translateToEnglish P f input w)
  | TranslateToArabic => settle (translateToArabic P f input w)
  | GenerateBookDescription => settle (generateBookDescription P f input w)
  | GenerateVideoDescription => settle (generateVideoDescription P f input w)
  | ExtractBookTitle => settle (extractBookTitle P f input w)
  | GenerateScriptFromInfo description =>
      settle (generateScriptFromInfo P f input description w)
  | GenerateContentSuggestions => settle (generateContentSuggestions P f input w)
  | DesignArticleFromContent => settle (designArticleFromContent P f input w)
  | RateContent => settle (rateContent P f input w)
  end.

(** What happens in a process: calls into the module, and whatever the rest
    of the application does to the credential sources in between. *)
Inductive Call : Type :=
  | Invoke (op : Operation) (input : jsstring)
  | Outside (env : ProcessEnv) (store : LocalStorage).

Definition exec (P : Platform) (f : SourceFile) (c : Call) (w : World) : World :=
  match c with
  | Invoke op input => snd (invoke P f op input w)
  | Outside env store =>
      {| ai := ai w; process_env := env; localStorage := store; trace := trace w |}
  end.

Definition run (P : Platform) (f : SourceFile) (calls : list Call) (w : World)
  : World :=
  fold_left (fun w c => exec P f c w) calls w.

(** A process starts with no client and nothing done. *)
Definition initial_world (env : ProcessEnv) (store : LocalStorage) : World :=
  {| ai := None; process_env := env; localStorage := store; trace := [] |}.

(* ===================================================================== *)
(** * Vocabulary of the properties *)
(* ===================================================================== *)

(** ** Traces and worlds *)

(** Requests and delays: what the remote capability and the clock see. *)
Definition wire (ev : Event) : bool :=
  match ev with
  | EvGenerateContent _ _ | EvGenerateContentStream _ _ | EvSleep _ => true
  | _ => false
  end.

(** Events among which there is no request and no delay. *)
Definition quiet (evs : list Event) : Prop := List.filter wire evs = [].

(** How many clients were constructed. *)
Definition handles_made (tr : list Event) : nat :=
  length (List.filter
            (fun ev => match ev with EvConstruct _ true => true | _ => false end)
            tr).

(** Whatever its result, the computation takes a world to one related to
    it by [R]. *)
Definition respects (R : World -> World -> Prop) {A} (m : M A) : Prop :=
  forall w, R w (snd (m w)).

(** The client, once made, stays, and no second one is made. *)
Definition keeps_client (w w' : World) : Prop :=
  match ai w with
  | Some h => ai w' = Some h /\ handles_made (trace w') = handles_made (trace w)
  | None =>
      match ai w' with
      | None => handles_made (trace w') = handles_made (trace w)
      | Some _ => handles_made (trace w') = S (handles_made (trace w))
      end
  end.

(** The world after some more events. *)
Definition extend (w : World) (evs : list Event) : World :=
  {| ai := ai w; process_env := process_env w; localStorage := localStorage w;
     trace := trace w ++ evs |}.

(** ** The retry loop on the wire *)

(** What the wire sees of [n] failed attempts: [n] requests with a delay
    of one second between consecutive ones, and none after the last. *)
Fixpoint wire_pattern (request : Event) (n : nat) : list Event :=
  match n with
  | O => []
  | S k => request :: match k with
                      | O => []
                      | S _ => EvSleep 1000 :: wire_pattern request k
                      end
  end.

(** What the wire has seen when the last of [S n] attempts starts: [n]
    requests, each followed by a delay. *)
Fixpoint failed_rounds (request : Event) (n : nat) : list Event :=
  match n with
  | O => []
  | S k => request :: EvSleep 1000 :: failed_rounds request k
  end.

(** The world in which the next attempt starts after one that failed and
    left [remaining] attempts: the failure is on the console and a second
    has gone by. *)
Definition after_failure (remaining : nat) (w : World) : World :=
  extend w [EvConsole error (attempt_label remaining); EvSleep 1000].

(** ** Errors on exhaustion *)


(** The substrings the exhaustion branch looks for. *)
Definition has_marker (message : jsstring) : bool :=
  includes message (utf16 "Gemini API")
  || includes message (utf16 "استجابة فارغة")
  || includes message (utf16 "JSON").

(** The substrings by which [part_000] recognizes a credential failure. *)
Definition has_key_marker (message : jsstring) : bool :=
  includes message (utf16 "API key not valid")
  || includes message (utf16 "API_KEY_MISSING").

(** ** Defaults of the domain operations *)

(** What an operation returns for the empty string, where it returns at
    all. *)
Definition default_value (op : Operation) : option JSValue :=
  match op with
  | AnalyzeTextContent => Some analysis_default
  | CategorizeContent | CreateQuiz _ | ExtractKeywords
  | GenerateContentSuggestions => Some (JArray [])
  | TranslateToEnglish | TranslateToArabic => Some (JString translation_placeholder)
  | GenerateBookDescription => Some (JString bookDescription_placeholder)
  | GenerateVideoDescription => Some (JString videoDescription_placeholder)
  | ExtractBookTitle => Some (JString bookTitle_placeholder)
  | DesignArticleFromContent => Some (JString article_placeholder)
  | RateContent => Some (JString rating_placeholder)
  | SummarizeContent | AnalyzeSentiment | GenerateScriptFromInfo _ => None
  end.

(** ** Fenced responses *)

(** The text wrapped in a fenced block: the opening marker, a line break,
    the text, a line break, the closing marker. *)
Definition fenced (t : jsstring) : jsstring :=
  fence_open ++ 10%N :: t ++ 10%N :: fence_close.

(** Some suffix of [s] is the closing marker followed only by white
    space. *)
Fixpoint ends_with_closing_fence (s : jsstring) : bool :=
  closing_fence_here s ||
  match s with
  | [] => false
  | _ :: r => ends_with_closing_fence r
  end.

(** ** Quiz questions *)

(** What [createQuiz] accepts as a question: an object whose [question] is
    a string, whose [options] is an array of four elements, and whose
    [correctAnswerIndex] is a number. *)
Definition well_formed_question (q : JSValue) : Prop :=
  exists props question options idx,
    q = JObject props
    /\ lookup_prop (utf16 "question") props = JString question
    /\ lookup_prop (utf16 "options") props = JArray options
    /\ length options = 4%nat
    /\ lookup_prop (utf16 "correctAnswerIndex") props = JNumber idx.

(** An item on which reading a property does not throw. *)
Definition readable (q : JSValue) : Prop := q <> JNull /\ q <> JUndefined.

(** ** Whole ratings *)

(** The sign-carrying value of a fraction. *)
Definition signed (s : bool) (v : Z) : Z := if s then (- v)%Z else v.

(** How the binary64 value of an integer relates to the integer: exact
    below 2^53, and on the same side of 2^53 beyond. *)
Definition approximates (z v : Z) : Prop :=
  ((- 2 ^ 53 < z < 2 ^ 53 /\ v = z)
   \/ (2 ^ 53 <= z /\ 2 ^ 53 <= v)
   \/ (z <= - 2 ^ 53 /\ v <= - 2 ^ 53))%Z.

(** Neither NaN nor an infinity. *)
Definition finite_number (x : number) : Prop :=
  match x with
  | JZero _ | JDyadic _ _ _ => True
  | _ => False
  end.

(** The decoded object carries a whole rating [z] and a review. *)
Definition rated (props : list (jsstring * JSValue)) (z : Z) (review : jsstring)
  : Prop :=
  lookup_prop (utf16 "rating") props = JNumber (number_of_Z z)
  /\ lookup_prop (utf16 "review") props = JString review.

(** [max(1, min(5, z))] on integers. *)
Definition clamp (z : Z) : Z := Z.max 1 (Z.min 5 z).

(** [k] is the number [x] cut down to a whole number, towards zero; NaN
    counts as zero, and an infinity has no such part. *)
Definition truncation (x : number) (k : Z) : Prop :=
  match x with
  | JNaN | JZero _ => k = 0%Z
  | JInf _ => False
  | JDyadic _ _ _ =>
      let '(n, d) := fraction x in
      (Z.abs k * Zpos d <= Z.abs n < (Z.abs k + 1) * Zpos d /\ 0 <= k * n)%Z
  end.

(** A number within the range of ratings: from one to five. *)
Definition within_range (x : number) : Prop :=
  finite_number x
  /\ number_compare (number_of_Z 1) x <> Gt
  /\ number_compare (number_of_Z 5) x <> Lt.

(** ** The embedded prefix *)

(** How many leading code units of its input an operation embeds in the
    prompt, for those that cut the input. *)
Definition prefix_length (op : Operation) : option N :=
  match op with
  | CategorizeContent | GenerateContentSuggestions => Some 8000%N
  | GenerateBookDescription | ExtractBookTitle => Some 4000%N
  | AnalyzeTextContent | SummarizeContent | CreateQuiz _ | AnalyzeSentiment
  | ExtractKeywords | DesignArticleFromContent | RateContent => Some 100000%N
  | TranslateToEnglish | TranslateToArabic | GenerateVideoDescription
  | GenerateScriptFromInfo _ => None
  end.

(** The first [n] code units. *)
Definition prefix (n : N) (s : jsstring) : jsstring := firstn (N.to_nat n) s.

(** ** Concrete processes *)

(** A process whose [localStorage] holds a key and whose environment has
    none. *)
Definition stored_key : jsstring := utf16 "AIza-demo".

Definition stored_key_world : World :=
  initial_world EnvAbsent (Storage {[ gemini_api_key := stored_key ]}).

(** A process with no credential anywhere. *)
Definition no_key_world : World := initial_world EnvAbsent (Storage ∅).

(** A remote capability that answers every request with the same outcome;
    the constructor accepts every key. *)
Definition constant_remote (answer : Outcome) : Platform :=
  {| GoogleGenAI_accepts := fun _ _ => true;
     generateContent := fun _ _ _ => answer;
     generateContentStream := fun _ _ _ =>
       match answer with
       | Rejects e => StreamRejects e
       | Responds text => Streams [text] None
       end |}.

Definition fetch_failure : Thrown :=
  ErrorObject (utf16 "TypeError") (utf16 "Failed to fetch").

Definition unreachable_remote : Platform := constant_remote (Rejects fetch_failure).



Definition hello : jsstring := utf16 "hello".

(** How many requests a history holds. *)
Definition requests_sent (tr : list Event) : nat :=
  length (List.filter
            (fun ev => match ev with EvGenerateContent _ _ => true | _ => false end)
            tr).

(** A remote capability that fails the first three requests of a process
    and answers from the fourth on. *)
Definition flaky_remote : Platform :=
  {| GoogleGenAI_accepts := fun _ _ => true;
     generateContent := fun past _ _ =>
       if (requests_sent past <? 3)%nat then Rejects fetch_failure
       else Responds (Some hello);
     generateContentStream := fun _ _ _ => StreamRejects fetch_failure |}.

(** Some activity after the first success: a rating, a change of the stored
    credentials by the application, a translation. *)
Definition later_calls : list Call :=
  [ Invoke RateContent hello;
    Outside (EnvValue (utf16 "other-key")) (Storage ∅);
    Invoke TranslateToEnglish hello ].

(** A constructor that rejects the stored key (say, a malformed one). *)
Definition strict_constructor : Platform :=
  {| GoogleGenAI_accepts := fun _ _ => false;
     generateContent := fun _ _ _ => Rejects fetch_failure;
     generateContentStream := fun _ _ _ => StreamRejects fetch_failure |}.

(** The constructor calls in a trace. *)
Definition constructions (tr : list Event) : list Event :=
  List.filter (fun ev => match ev with EvConstruct _ _ => true | _ => false end) tr.

(** The text of an array of two strings. *)
Definition array_a_b : jsstring :=
  utf16 "[" ++ dq ++ utf16 "a" ++ dq ++ utf16 "," ++ dq ++ utf16 "b" ++ dq
  ++ utf16 "]".

(** A remote capability that answers every request with the given text. *)
Definition answering (text : jsstring) : Platform :=
  constant_remote (Responds (Some text)).

Definition quoted (s : string) : jsstring := dq ++ utf16 s ++ dq.

(** A quiz of one question whose answer index is 1.5. *)
Definition fractional_quiz_text : jsstring :=
  utf16 "[{" ++ quoted "question" ++ utf16 ":" ++ quoted "q" ++ utf16 ","
  ++ quoted "options" ++ utf16 ":[" ++ quoted "a" ++ utf16 "," ++ quoted "b"
  ++ utf16 "," ++ quoted "c" ++ utf16 "," ++ quoted "d" ++ utf16 "],"
  ++ quoted "correctAnswerIndex" ++ utf16 ":1.5}]".

Definition one_and_a_half : number := JDyadic false 3 (-1).

Definition fractional_quiz : JSValue :=
  JArray
    [ JObject
        [ (utf16 "question", JString (utf16 "q"));
          (utf16 "options",
           JArray [ JString (utf16 "a"); JString (utf16 "b");
                    JString (utf16 "c"); JString (utf16 "d") ]);
          (utf16 "correctAnswerIndex", JNumber one_and_a_half) ] ].

(** A rating object as the remote service sends it, in a fenced block. *)
Definition rating_text (rating : string) : jsstring :=
  fenced (utf16 "{" ++ quoted "rating" ++ utf16 ":" ++ utf16 rating ++ utf16 ","
          ++ quoted "review" ++ utf16 ":" ++ quoted "ok" ++ utf16 "}").

Definition two_and_a_half : number := JDyadic false 5 (-1).

(** Two texts of 4001 code units that differ in the last one only. *)
Definition long_text (last : N) : jsstring :=
  repeat_string [97%N] 4000 ++ [last].

(** Two texts of 100001 code units that differ in the last one only. *)
Definition longer_text (last : N) : jsstring :=
  repeat_string [97%N] (N.to_nat 100000) ++ [last].

(* ===================================================================== *)
(** * Vocabulary of the further properties *)
(* ===================================================================== *)

(** ** Credentials *)

(** The non-empty key that [localStorage] holds, if it can be read. *)
Definition stored_credential (w : World) : option jsstring :=
  match localStorage w with
  | Storage entries =>
      match entries !! gemini_api_key with
      | Some k => if is_empty k then None else Some k
      | None => None
      end
  | StorageUnavailable _ => None
  end.

(** The key a call without a cached client settles on:
    [geminiService.ts] prefers a non-empty [process.env.API_KEY],
    [part_000] only knows [localStorage]. *)
Definition resolved_key (f : SourceFile) (w : World) : option jsstring :=
  match f, process_env w with
  | GeminiService, EnvValue k => if is_empty k then stored_credential w else Some k
  | _, _ => stored_credential w
  end.

Definition is_construction (ev : Event) : bool :=
  match ev with EvConstruct _ _ => true | _ => false end.

(** The same process with another environment, or another store. *)
Definition with_env (env : ProcessEnv) (w : World) : World :=
  {| ai := ai w; process_env := env; localStorage := localStorage w;
     trace := trace w |}.

Definition with_store (store : LocalStorage) (w : World) : World :=
  {| ai := ai w; process_env := process_env w; localStorage := store;
     trace := trace w |}.

(** A computation that does not look at [process.env]: run with another
    environment, it does the same and leaves that environment in place. *)
Definition env_blind {A} (m : M A) : Prop :=
  forall env w, m (with_env env w) = (fst (m w), with_env env (snd (m w))).

(** The credential sources after an operation: the environment as it was,
    and [localStorage] as it was or, in [part_000], without the key. *)
Definition sources_kept (f : SourceFile) (w w' : World) : Prop :=
  process_env w' = process_env w
  /\ match f with
     | GeminiService => localStorage w' = localStorage w
     | Part000 =>
         localStorage w' = localStorage w
         \/ exists entries,
              localStorage w = Storage entries
              /\ localStorage w' = Storage (delete gemini_api_key entries)
     end.

(** ** The wire *)

(** What may go over the wire with the client [h]: requests made with
    [h] for the one model, and delays of one second. *)
Definition sent_by (h : Handle) (ev : Event) : Prop :=
  match ev with
  | EvGenerateContent h' req | EvGenerateContentStream h' req =>
      h' = h /\ model req = gemini_model
  | EvSleep ms => ms = 1000
  | _ => True
  end.

(** The history grows, the client stays, and whatever went over the wire
    went through the client that is cached afterwards; without one,
    nothing went over the wire. *)
Definition through_client (w w' : World) : Prop :=
  (forall h, ai w = Some h -> ai w' = Some h)
  /\ exists evs,
       trace w' = trace w ++ evs
       /\ match ai w' with
          | Some h => Forall (sent_by h) evs
          | None => quiet evs
          end.

(** ** Results and errors *)

(** An error fit for display: an Error whose message is the sentinel or
    carries one of the markers. *)
Definition curated (e : Thrown) : Prop :=
  exists name message,
    e = ErrorObject name message
    /\ has_marker message || jsstring_eqb message (utf16 "API_KEY_MISSING") = true.

Definition is_type_error (e : Thrown) : Prop :=
  exists message, e = ErrorObject (utf16 "TypeError") message.

(** A string with something in it besides white space. *)
Definition nonblank (v : JSValue) : Prop :=
  exists t, v = JString t /\ trim t <> [].

(** What a caller may rely on in the value an operation resolves to
    ([summarizeContent] resolves to nothing: it yields). *)
Definition well_formed_result (op : Operation) (v : JSValue) : Prop :=
  match op with
  | CategorizeContent | ExtractKeywords | GenerateContentSuggestions =>
      is_string_array v = true
  | AnalyzeTextContent =>
      exists analysis categories,
        v = JObject [ (utf16 "analysis", analysis);
                      (utf16 "categories", categories) ]
        /\ nonblank analysis /\ is_string_array categories = true
  | CreateQuiz _ =>
      exists items, v = JArray items /\ Forall well_formed_question items
  | AnalyzeSentiment =>
      exists props sentiment explanation,
        v = JObject props
        /\ lookup_prop (utf16 "sentiment") props = JString sentiment
        /\ lookup_prop (utf16 "explanation") props = JString explanation
  | SummarizeContent => False
  | TranslateToEnglish | TranslateToArabic | GenerateBookDescription
  | GenerateVideoDescription | ExtractBookTitle | GenerateScriptFromInfo _
  | DesignArticleFromContent | RateContent => nonblank v
  end.

(** The errors an operation may reject with. *)
Definition may_reject (op : Operation) (e : Thrown) : Prop :=
  match op with
  | CategorizeContent => False
  | RateContent => e = RatingFailed
  | CreateQuiz _ => curated e \/ e = MalformedQuiz \/ is_type_error e
  | AnalyzeSentiment =>
      curated e \/ e = NoSentimentContent \/ e = MalformedSentiment
  | ExtractKeywords => curated e \/ e = MalformedKeywords
  | GenerateContentSuggestions => curated e \/ e = MalformedSuggestions
  | _ => curated e
  end.

(** A number that [repeat] takes as a count: NaN, a zero, or positive and
    finite. *)
Definition countable (x : number) : Prop :=
  match x with
  | JNaN | JZero _ | JDyadic false _ _ => True
  | _ => False
  end.

(** ** More concrete processes *)

(** A process whose environment holds a key, and one whose [localStorage]
    holds another as well. *)
Definition env_key : jsstring := utf16 "AIza-env".

Definition env_key_world : World := initial_world (EnvValue env_key) (Storage ∅).

Definition both_keys_store : LocalStorage :=
  Storage {[ gemini_api_key := stored_key ]}.

(** A fenced array with a blank before the opening marker. *)
Definition indented_fence : jsstring := 32 :: fenced (utf16 "[1]").

(** A quiz whose only item is [null]. *)
Definition null_quiz_text : jsstring := utf16 "[null]".

(* ===================================================================== *)
(** * Properties *)
(* ===================================================================== *)

Arguments utf16 : simpl never.
Arguments substring : simpl never.
Arguments Number_toString : simpl never.
Arguments JSON_parse : simpl never.
Arguments analysisPrompt : simpl never.
Arguments categoriesPrompt : simpl never.
Arguments summaryPrompt : simpl never.
Arguments quizPrompt : simpl never.
Arguments sentimentPrompt : simpl never.
Arguments keywordsPrompt : simpl never.
Arguments translateToEnglishPrompt : simpl never.
Arguments translateToArabicPrompt : simpl never.
Arguments bookDescriptionPrompt : simpl never.
Arguments videoDescriptionPrompt : simpl never.
Arguments bookTitlePrompt : simpl never.
Arguments scriptPrompt : simpl never.
Arguments suggestionsPrompt : simpl never.
Arguments articlePrompt : simpl never.
Arguments ratingPrompt : simpl never.
Arguments ratingReport : simpl never.

(** ** The model of the platform on examples *)

Example Number_toString_examples :
  map Number_toString
    [ number_of_Z 7; number_of_Z (-3); JDyadic false 5 (-1);
      decimal_value false 1 (-1); decimal_value false 1 21;
      decimal_value false 1 (-7); decimal_value false 123456789012345678901 0;
      JZero true; JInf true ]
  = map utf16
      [ "7"%string; "-3"%string; "2.5"%string; "0.1"%string;
        "1e+21"%string; "1e-7"%string; "123456789012345680000"%string;
        "0"%string; "-Infinity"%string ].
Proof. vm_compute. reflexivity. Qed.

Example JSON_parse_examples :
  map JSON_parse
    (map utf16 [ " [1.5e0, -0, true, null, [], {}] "%string; "2.5"%string;
                 "1e400"%string; "01"%string; "[1,]"%string; "1```"%string;
                 EmptyString ])
  = [ Some (JArray [ JNumber (JDyadic false 3 (-1)); JNumber (JZero true);
                     JBool true; JNull; JArray []; JObject [] ]);
      Some (JNumber (JDyadic false 5 (-1))); Some (JNumber (JInf false));
      None; None; None; None ].
Proof. vm_compute. reflexivity. Qed.

Example strip_code_fences_examples :
  map strip_code_fences
    (map utf16 [ "```json  [1]  ```  "%string; "```[1]```"%string;
                 "[1]"%string; "```json```"%string ])
  = map utf16 [ "[1]  "%string; "```[1]"%string; "[1]"%string; EmptyString ].
Proof. vm_compute. reflexivity. Qed.

(** ** The parser never runs out of fuel *)

Section Fuel.

Local Open Scope nat_scope.

Lemma skip_ws_length s : length (skip_ws s) <= length s.
Proof.
  induction s as [|c s IH]; simpl; [lia|].
  destruct (is_json_ws c); simpl; lia.
Qed.

Lemma after_token_length c s r : after_token c s = Some r -> length r < length s.
Proof.
  unfold after_token. pose proof (skip_ws_length s) as H.
  destruct (skip_ws s) as [|d r']; [discriminate|].
  destruct (d =? c)%N; [|discriminate]. intros [= <-]. simpl in H. lia.
Qed.

Lemma strip_prefix_length p s r :
  strip_prefix p s = Some r -> length s = length p + length r.
Proof.
  revert s. induction p as [|a p IH]; intros s; simpl.
  - destruct s; intros [= <-]; reflexivity.
  - destruct s as [|b s]; [discriminate|].
    destruct (a =? b)%N; [|discriminate]. intros H. apply IH in H. simpl. lia.
Qed.

Lemma take_digits_length s :
  length s = length (fst (take_digits s)) + length (snd (take_digits s)).
Proof.
  induction s as [|c s IH]; simpl; [reflexivity|].
  destruct (is_digit c); [|reflexivity].
  destruct (take_digits s) as [ds rest]. simpl in *. lia.
Qed.

Lemma parse_string_body_length s :
  forall acc,
    match parse_string_body s acc with
    | Parsed _ r => length r < length s
    | SyntaxError => True
    | OutOfFuel => False
    end.
Proof.
  remember (length s) as n eqn:Hn. revert s Hn.
  induction n as [n IH] using lt_wf_ind. intros s -> acc.
  destruct s as [|c r]; cbn [parse_string_body]; [exact I|].
  destruct (c =? 34)%N; [simpl; lia|].
  destruct (c =? 92)%N.
  - destruct r as [|e r']; [exact I|].
    destruct (e =? 117)%N.
    + destruct r' as [|h1 [|h2 [|h3 [|h4 r'']]]]; try exact I.
      destruct (hex_value h1), (hex_value h2), (hex_value h3), (hex_value h4);
        try exact I.
      match goal with
      | |- context [parse_string_body r'' ?a] =>
          pose proof (IH (length r'') ltac:(simpl; lia) r'' eq_refl a) as H
      end.
      destruct (parse_string_body r'' _); simpl in *; try exact H; lia.
    + destruct (unescape e); [|exact I].
      match goal with
      | |- context [parse_string_body r' ?a] =>
          pose proof (IH (length r') ltac:(simpl; lia) r' eq_refl a) as H
      end.
      destruct (parse_string_body r' _); simpl in *; try exact H; lia.
  - destruct (c <? 32)%N; [exact I|].
    pose proof (IH (length r) ltac:(simpl; lia) r eq_refl (c :: acc)) as H.
    destruct (parse_string_body r _); simpl in *; try exact H; lia.
Qed.

Lemma parse_number_length s :
  match parse_number s with
  | Parsed _ r => length r < length s
  | SyntaxError => True
  | OutOfFuel => False
  end.
Proof.
  unfold parse_number.
  assert (length (snd (parse_sign s)) <= length s) as Hsign.
  { unfold parse_sign. destruct s as [|c r]; [simpl; lia|].
    destruct (c =? 45)%N; simpl; lia. }
  destruct (parse_sign s) as [negative s1]. cbn [snd] in Hsign.
  assert (match parse_int s1 with
          | Some (_, s2) => length s2 < length s1
          | None => True
          end) as Hint.
  { unfold parse_int. destruct s1 as [|c r]; [exact I|].
    destruct (c =? 48)%N; [simpl; lia|].
    destruct (is_digit c) eqn:Hd; [|exact I].
    pose proof (take_digits_length (c :: r)) as Hl.
    destruct (take_digits (c :: r)) as [ds rest] eqn:Ht. cbn [fst snd] in Hl.
    simpl in Ht. rewrite Hd in Ht. destruct (take_digits r) as [ds' rest'].
    injection Ht as <- <-. simpl in *. lia. }
  destruct (parse_int s1) as [[ids s2]|]; [|exact I].
  assert (match parse_frac s2 with
          | Some (_, s3) => length s3 <= length s2
          | None => True
          end) as Hfrac.
  { unfold parse_frac. destruct s2 as [|c r]; [simpl; lia|].
    destruct (c =? 46)%N; [|simpl; lia].
    pose proof (take_digits_length r) as Hl.
    destruct (take_digits r) as [[|d ds] rest]; [exact I|].
    cbn [fst snd] in Hl. simpl in *. lia. }
  destruct (parse_frac s2) as [[fds s3]|]; [|exact I].
  assert (match parse_exp s3 with
          | Some (_, s4) => length s4 <= length s3
          | None => True
          end) as Hexp.
  { unfold parse_exp. destruct s3 as [|c r]; [simpl; lia|].
    destruct ((c =? 101) || (c =? 69))%N; [|simpl; lia].
    assert (forall r1, length r1 <= length r ->
              match (match take_digits r1 with
                     | ([], _) => None
                     | (eds, r2) => Some (eds, r2)
                     end) with
              | Some (_, r2) => length r2 <= length (c :: r)
              | None => True
              end) as Hdig.
    { intros r1 Hr1. pose proof (take_digits_length r1) as Hl.
      destruct (take_digits r1) as [[|d ds] rest]; [exact I|].
      cbn [fst snd] in Hl. simpl in *. lia. }
    destruct r as [|d r'].
    - specialize (Hdig [] ltac:(simpl; lia)). simpl in *. exact I.
    - destruct (d =? 45)%N;
        [|destruct (d =? 43)%N];
        match goal with
        | |- context [take_digits ?r1] =>
            specialize (Hdig r1 ltac:(simpl; lia));
            destruct (take_digits r1) as [[|? ?] ?]; [exact I | exact Hdig]
        end. }
  destruct (parse_exp s3) as [[ex s4]|]; [|exact I].
  destruct (digits_value (ids ++ fds)); lia.
Qed.

Lemma parse_literal_length s :
  match parse_literal s with
  | Parsed _ r => length r < length s
  | SyntaxError => True
  | OutOfFuel => False
  end.
Proof.
  unfold parse_literal.
  destruct (strip_prefix (utf16 "true") s) eqn:Ht.
  { apply strip_prefix_length in Ht. rewrite Ht. simpl. lia. }
  destruct (strip_prefix (utf16 "false") s) eqn:Hf.
  { apply strip_prefix_length in Hf. rewrite Hf. simpl. lia. }
  destruct (strip_prefix (utf16 "null") s) eqn:Hn.
  { apply strip_prefix_length in Hn. rewrite Hn. simpl. lia. }
  pose proof (parse_number_length s) as H.
  destruct (parse_number s); exact H.
Qed.

(** What is left after a value, an element list or a member list is
    shorter than what was there. *)
Lemma parse_value_length fuel :
  (forall s, match parse_value fuel s with
             | Parsed _ r => length r < length s
             | _ => True
             end)
  /\ (forall s acc, match parse_elements fuel s acc with
                    | Parsed _ r => length r < length s
                    | _ => True
                    end)
  /\ (forall s acc, match parse_members fuel s acc with
                    | Parsed _ r => length r < length s
                    | _ => True
                    end).
Proof.
  induction fuel as [|f (IHv & IHe & IHm)]; [repeat split; intros; exact I|].
  split; [|split].
  - intros s. cbn [parse_value]. pose proof (skip_ws_length s) as Hs.
    destruct (skip_ws s) as [|c r]; [exact I|]. simpl in Hs.
    destruct (c =? 123)%N.
    { destruct (after_token 125 r) as [r'|] eqn:Ha.
      - apply after_token_length in Ha. lia.
      - specialize (IHm r []). destruct (parse_members f r []); try exact I. lia. }
    destruct (c =? 91)%N.
    { destruct (after_token 93 r) as [r'|] eqn:Ha.
      - apply after_token_length in Ha. lia.
      - specialize (IHe r []). destruct (parse_elements f r []); try exact I. lia. }
    destruct (c =? 34)%N.
    { pose proof (parse_string_body_length r []) as H.
      destruct (parse_string_body r []); try exact I. lia. }
    pose proof (parse_literal_length (c :: r)) as H.
    destruct (parse_literal (c :: r)); try exact I. simpl in H. lia.
  - intros s acc. cbn [parse_elements]. specialize (IHv s).
    destruct (parse_value f s) as [v r| |]; try exact I.
    destruct (after_token 44 r) as [r'|] eqn:Hc.
    { apply after_token_length in Hc. specialize (IHe r' (v :: acc)).
      destruct (parse_elements f r' (v :: acc)); try exact I. lia. }
    destruct (after_token 93 r) as [r'|] eqn:Hb; [|exact I].
    apply after_token_length in Hb. lia.
  - intros s acc. cbn [parse_members].
    destruct (after_token 34 s) as [r|] eqn:Hq; [|exact I].
    apply after_token_length in Hq.
    pose proof (parse_string_body_length r []) as Hk.
    destruct (parse_string_body r []) as [key r1| |]; try exact I.
    destruct (after_token 58 r1) as [r2|] eqn:Hcolon; [|exact I].
    apply after_token_length in Hcolon. specialize (IHv r2).
    destruct (parse_value f r2) as [v r3| |]; try exact I.
    destruct (after_token 44 r3) as [r4|] eqn:Hc.
    { apply after_token_length in Hc. specialize (IHm r4 ((key, v) :: acc)).
      destruct (parse_members f r4 ((key, v) :: acc)); try exact I. lia. }
    destruct (after_token 125 r3) as [r4|] eqn:Hb; [|exact I].
    apply after_token_length in Hb. lia.
Qed.

(** With twice the length of the text as fuel, the parser never runs out
    of it. *)
Lemma parse_value_fuel fuel :
  (forall s, 2 * length s < fuel -> parse_value fuel s <> OutOfFuel)
  /\ (forall s acc, 2 * length s + 1 < fuel ->
                    parse_elements fuel s acc <> OutOfFuel)
  /\ (forall s acc, 2 * length s + 1 < fuel ->
                    parse_members fuel s acc <> OutOfFuel).
Proof.
  induction fuel as [|f (IHv & IHe & IHm)]; [repeat split; intros; lia|].
  split; [|split].
  - intros s Hf. cbn [parse_value]. pose proof (skip_ws_length s) as Hs.
    destruct (skip_ws s) as [|c r]; [discriminate|]. simpl in Hs.
    destruct (c =? 123)%N.
    { destruct (after_token 125 r); [discriminate|]. apply IHm. lia. }
    destruct (c =? 91)%N.
    { destruct (after_token 93 r); [discriminate|]. apply IHe. lia. }
    destruct (c =? 34)%N.
    { pose proof (parse_string_body_length r []) as H.
      destruct (parse_string_body r []); try discriminate. contradiction. }
    pose proof (parse_literal_length (c :: r)) as H.
    destruct (parse_literal (c :: r)); try discriminate. contradiction.
  - intros s acc Hf. cbn [parse_elements].
    pose proof (IHv s ltac:(lia)) as Hv.
    pose proof (proj1 (parse_value_length f) s) as Hl.
    destruct (parse_value f s) as [v r| |]; try discriminate; [|congruence].
    destruct (after_token 44 r) as [r'|] eqn:Hc.
    { apply after_token_length in Hc. apply IHe. lia. }
    destruct (after_token 93 r); discriminate.
  - intros s acc Hf. cbn [parse_members].
    destruct (after_token 34 s) as [r|] eqn:Hq; [|discriminate].
    apply after_token_length in Hq.
    pose proof (parse_string_body_length r []) as Hk.
    destruct (parse_string_body r []) as [key r1| |]; try discriminate;
      [|contradiction].
    destruct (after_token 58 r1) as [r2|] eqn:Hcolon; [|discriminate].
    apply after_token_length in Hcolon.
    pose proof (IHv r2 ltac:(lia)) as Hv.
    pose proof (proj1 (parse_value_length f) r2) as Hl.
    destruct (parse_value f r2) as [v r3| |]; try discriminate; [|congruence].
    destruct (after_token 44 r3) as [r4|] eqn:Hc.
    { apply after_token_length in Hc. apply IHm. lia. }
    destruct (after_token 125 r3); discriminate.
Qed.

(** [JSON_parse] answers [None] only for a text that is not JSON. *)
Lemma JSON_parse_fuel text :
  parse_value (S (2 * length text)) text <> OutOfFuel.
Proof. apply parse_value_fuel. lia. Qed.

End Fuel.

(** ** Effects of a computation as a relation between worlds *)

Section Respects.

Context (R : World -> World -> Prop).
Hypothesis R_refl : forall w, R w w.
Hypothesis R_trans : forall a b c, R a b -> R b c -> R a c.

Lemma respects_ret {A} (a : A) : respects R (ret a).
Proof. intros w. apply R_refl. Qed.

Lemma respects_throw {A} e : respects R (@throw A e).
Proof. intros w. apply R_refl. Qed.

Lemma respects_lift {A} (r : result A) : respects R (lift r).
Proof. intros w. apply R_refl. Qed.

Lemma respects_bind {A B} (m : M A) (k : A -> M B) :
  respects R m -> (forall a, respects R (k a)) -> respects R (bind m k).
Proof.
  intros Hm Hk w. unfold bind. specialize (Hm w).
  destruct (m w) as [[a|e] w1]; simpl in *; [|assumption].
  eapply R_trans; [eassumption | apply Hk].
Qed.

Lemma respects_try_catch {A} (m : M A) (h : Thrown -> M A) :
  respects R m -> (forall e, respects R (h e)) -> respects R (try_catch m h).
Proof.
  intros Hm Hh w. unfold try_catch. specialize (Hm w).
  destruct (m w) as [[a|e] w1]; simpl in *; [assumption|].
  eapply R_trans; [eassumption | apply Hh].
Qed.

Lemma respects_get_ai : respects R get_ai.
Proof. intros w. apply R_refl. Qed.

Lemma respects_history : respects R history.
Proof. intros w. apply R_refl. Qed.

Lemma respects_get_process_env : respects R get_process_env.
Proof. intros w. apply R_refl. Qed.

End Respects.

Create HintDb effects.
#[local] Hint Resolve respects_ret respects_throw respects_lift respects_get_ai
  respects_history respects_get_process_env : effects.

Ltac respects_step :=
  match goal with
  | |- respects _ (bind _ _) =>
      apply respects_bind; [eauto with effects .. | | intros]
  | |- respects _ (try_catch _ _) =>
      apply respects_try_catch; [eauto with effects .. | | intros]
  | |- respects _ (if ?b then _ else _) => destruct b
  | |- respects _ (match ?x with _ => _ end) => destruct x
  | |- respects _ _ => solve [eauto with effects]
  end.

Ltac respects_all := repeat respects_step.

(** ** The cached client *)

Lemma keeps_client_refl w : keeps_client w w.
Proof. unfold keeps_client. destruct (ai w); auto. Qed.

Lemma keeps_client_trans a b c :
  keeps_client a b -> keeps_client b c -> keeps_client a c.
Proof.
  unfold keeps_client. destruct (ai a), (ai b), (ai c); intuition congruence.
Qed.

#[local] Hint Resolve keeps_client_refl keeps_client_trans : effects.

Lemma handles_made_app tr evs :
  handles_made (tr ++ evs) = (handles_made tr + handles_made evs)%nat.
Proof. unfold handles_made. now rewrite List.filter_app, length_app. Qed.

Lemma keeps_client_emit ev :
  (forall k, ev <> EvConstruct k true) -> respects keeps_client (emit ev).
Proof.
  intros Hev w. unfold keeps_client, emit; simpl.
  assert (handles_made (trace w ++ [ev]) = handles_made (trace w)) as ->.
  { rewrite handles_made_app.
    destruct ev as [ | | | k b | | | | ]; unfold handles_made at 2; simpl; try lia.
    destruct b; simpl; [now destruct (Hev k) | lia]. }
  destruct (ai w); auto.
Qed.

Lemma keeps_client_extend w evs :
  handles_made evs = 0%nat ->
  keeps_client w {| ai := ai w; process_env := process_env w;
                    localStorage := localStorage w; trace := trace w ++ evs |}.
Proof.
  intros H. unfold keeps_client; simpl. rewrite handles_made_app, H.
  destruct (ai w); auto.
Qed.

Lemma keeps_client_console lvl s : respects keeps_client (console lvl s).
Proof. apply keeps_client_emit; discriminate. Qed.

Lemma keeps_client_emit_request h req :
  respects keeps_client (emit (EvGenerateContent h req)).
Proof. apply keeps_client_emit; discriminate. Qed.

Lemma keeps_client_emit_sleep ms : respects keeps_client (emit (EvSleep ms)).
Proof. apply keeps_client_emit; discriminate. Qed.

Lemma keeps_client_emit_console lvl l :
  respects keeps_client (emit (EvConsole lvl l)).
Proof. apply keeps_client_emit; discriminate. Qed.

#[local] Hint Resolve keeps_client_console keeps_client_emit_request
  keeps_client_emit_sleep keeps_client_emit_console : effects.

Lemma extend_extend w a b : extend (extend w a) b = extend w (a ++ b).
Proof. unfold extend; simpl. now rewrite app_assoc. Qed.

Lemma extend_nil w : extend w [] = w.
Proof. destruct w. unfold extend; simpl. now rewrite app_nil_r. Qed.

Lemma emit_extend ev w : emit ev w = (Ok tt, extend w [ev]).
Proof. reflexivity. Qed.

Ltac unfold_getAiInstance :=
  unfold getAiInstance, getAiInstance_GeminiService, getAiInstance_Part000,
    read_process_env, construct_client, localStorage_getItem,
    localStorage_removeItem, falsy_key,
    bind, try_catch, get_ai, get_process_env, history, set_ai, console, emit,
    ret, throw.

Ltac split_matches :=
  repeat match goal with
         | |- context [match ?x with _ => _ end] =>
             lazymatch x with
             | context [match _ with _ => _ end] => fail
             | _ => destruct x eqn:?; simpl
             end
         end.

Section Client.

Variable P : Platform.

Lemma getAiInstance_cached f w h :
  ai w = Some h -> getAiInstance P f w = (Ok h, w).
Proof.
  intros Hai.
  destruct f; unfold getAiInstance, getAiInstance_GeminiService,
    getAiInstance_Part000, bind, get_ai; now rewrite Hai.
Qed.

(** Without a cached client, [getAiInstance] reads the sources and makes
    exactly one client when it succeeds, none when it throws; it sends
    nothing and never waits. *)
Lemma getAiInstance_fresh f w :
  ai w = None ->
  match getAiInstance P f w with
  | (Ok h, w') =>
      ai w' = Some h /\ process_env w' = process_env w /\
      localStorage w' = localStorage w /\
      exists evs, trace w' = trace w ++ evs /\ quiet evs /\ handles_made evs = 1%nat
  | (Throw e, w') =>
      ai w' = None /\ process_env w' = process_env w /\
      exists evs, trace w' = trace w ++ evs /\ quiet evs /\ handles_made evs = 0%nat
  end.
Proof.
  intros Hai. destruct w as [cached env store tr]; simpl in Hai; subst cached.
  destruct f; unfold_getAiInstance; simpl.
  all: split_matches.
  all: repeat split; try reflexivity.
  all: eexists; split; [rewrite <- ?app_assoc; reflexivity | split; reflexivity].
Qed.

Lemma getAiInstance_caches f w h w' :
  getAiInstance P f w = (Ok h, w') -> ai w' = Some h.
Proof.
  intros H. destruct (ai w) as [h0|] eqn:Hai.
  - rewrite (getAiInstance_cached f w h0 Hai) in H. congruence.
  - pose proof (getAiInstance_fresh f w Hai) as Hf. rewrite H in Hf. tauto.
Qed.

Lemma keeps_client_getAiInstance f : respects keeps_client (getAiInstance P f).
Proof.
  intros w. unfold keeps_client. destruct (ai w) as [h|] eqn:Hai.
  - rewrite (getAiInstance_cached f w h Hai). simpl. rewrite Hai. auto.
  - pose proof (getAiInstance_fresh f w Hai) as Hf.
    destruct (getAiInstance P f w) as [[h|e] w']; simpl.
    + destruct Hf as (-> & _ & _ & evs & -> & _ & Hn).
      rewrite handles_made_app. lia.
    + destruct Hf as (-> & _ & evs & -> & _ & Hn).
      rewrite handles_made_app. lia.
Qed.
#[local] Hint Resolve keeps_client_getAiInstance : effects.

Lemma keeps_client_decode t : respects keeps_client (decode_structured t).
Proof. unfold decode_structured. respects_all. Qed.
#[local] Hint Resolve keeps_client_decode : effects.

Lemma keeps_client_attempt h prompt cfg :
  respects keeps_client (attempt P h prompt cfg).
Proof. unfold attempt. respects_all. Qed.
#[local] Hint Resolve keeps_client_attempt : effects.

Lemma keeps_client_retry_loop f n h prompt cfg :
  respects keeps_client (retry_loop P f n h prompt cfg).
Proof. induction n as [|n IH]; simpl; respects_all. Qed.
#[local] Hint Resolve keeps_client_retry_loop : effects.

Lemma keeps_client_callGeminiWithRetry f prompt cfg :
  respects keeps_client (callGeminiWithRetry P f prompt cfg).
Proof. unfold callGeminiWithRetry. respects_all. Qed.
#[local] Hint Resolve keeps_client_callGeminiWithRetry : effects.

Lemma keeps_client_categorizeContent f content :
  respects keeps_client (categorizeContent P f content).
Proof. unfold categorizeContent. respects_all. Qed.
#[local] Hint Resolve keeps_client_categorizeContent : effects.

Lemma keeps_client_analyzeTextContent f content :
  respects keeps_client (analyzeTextContent P f content).
Proof.
  unfold analyzeTextContent. destruct (is_empty content); [respects_all|].
  intros w.
  pose proof (keeps_client_callGeminiWithRetry f (analysisPrompt content) no_config w) as H1.
  destruct (callGeminiWithRetry P f (analysisPrompt content) no_config w) as [a w1].
  pose proof (keeps_client_categorizeContent f content w1) as H2.
  destruct (categorizeContent P f content w1) as [c w2]. simpl in *.
  assert (keeps_client w w2) by eauto with effects.
  destruct a, c; assumption.
Qed.

Lemma keeps_client_summarizeContent f content w :
  keeps_client w (snd (summarizeContent P f content w)).
Proof.
  unfold summarizeContent.
  pose proof (keeps_client_getAiInstance f w) as H1.
  destruct (getAiInstance P f w) as [[h|e] w1]; simpl in *; [|assumption].
  destruct (is_empty content); [assumption|].
  destruct (generateContentStream P (trace w1) h _) as [e|chunks [e|]]; simpl;
    rewrite <- ?app_assoc;
    (eapply keeps_client_trans; [exact H1 | apply keeps_client_extend; reflexivity]).
Qed.

Lemma keeps_client_createQuiz f content n :
  respects keeps_client (createQuiz P f content n).
Proof. unfold createQuiz. respects_all. Qed.

Lemma keeps_client_analyzeSentiment f content :
  respects keeps_client (analyzeSentiment P f content).
Proof. unfold analyzeSentiment. respects_all. Qed.

Lemma keeps_client_extractKeywords f content :
  respects keeps_client (extractKeywords P f content).
Proof. unfold extractKeywords. respects_all. Qed.

Lemma keeps_client_translateToEnglish f content :
  respects keeps_client (translateToEnglish P f content).
Proof. unfold translateToEnglish. respects_all. Qed.

Lemma keeps_client_translateToArabic f content :
  respects keeps_client (translateToArabic P f content).
Proof. unfold translateToArabic. respects_all. Qed.

Lemma keeps_client_generateBookDescription f content :
  respects keeps_client (generateBookDescription P f content).
Proof. unfold generateBookDescription. respects_all. Qed.

Lemma keeps_client_generateVideoDescription f title :
  respects keeps_client (generateVideoDescription P f title).
Proof. unfold generateVideoDescription. respects_all. Qed.

Lemma keeps_client_extractBookTitle f content :
  respects keeps_client (extractBookTitle P f content).
Proof. unfold extractBookTitle. respects_all. Qed.

Lemma keeps_client_generateScriptFromInfo f title description :
  respects keeps_client (generateScriptFromInfo P f title description).
Proof. unfold generateScriptFromInfo. respects_all. Qed.

Lemma keeps_client_generateContentSuggestions f content :
  respects keeps_client (generateContentSuggestions P f content).
Proof. unfold generateContentSuggestions. respects_all. Qed.

Lemma keeps_client_designArticleFromContent f content :
  respects keeps_client (designArticleFromContent P f content).
Proof. unfold designArticleFromContent. respects_all. Qed.

Lemma keeps_client_rateContent f content :
  respects keeps_client (rateContent P f content).
Proof. unfold rateContent. respects_all. Qed.

Lemma snd_settle r : snd (settle r) = snd r.
Proof. now destruct r as [[v|e] w]. Qed.

Lemma keeps_client_invoke f op input w :
  keeps_client w (snd (invoke P f op input w)).
Proof.
  destruct op; cbn [invoke]; rewrite ?snd_settle.
  - exact (keeps_client_analyzeTextContent f input w).
  - exact (keeps_client_categorizeContent f input w).
  - pose proof (keeps_client_summarizeContent f input w) as H.
    now destruct (summarizeContent P f input w).
  - exact (keeps_client_createQuiz f input questionCount w).
  - exact (keeps_client_analyzeSentiment f input w).
  - exact (keeps_client_extractKeywords f input w).
  - exact (keeps_client_translateToEnglish f input w).
  - exact (keeps_client_translateToArabic f input w).
  - exact (keeps_client_generateBookDescription f input w).
  - exact (keeps_client_generateVideoDescription f input w).
  - exact (keeps_client_extractBookTitle f input w).
  - exact (keeps_client_generateScriptFromInfo f input description w).
  - exact (keeps_client_generateContentSuggestions f input w).
  - exact (keeps_client_designArticleFromContent f input w).
  - exact (keeps_client_rateContent f input w).
Qed.

Lemma keeps_client_exec f c w : keeps_client w (exec P f c w).
Proof.
  destruct c; cbn [exec].
  - apply keeps_client_invoke.
  - unfold keeps_client; cbn [ai trace]. destruct (ai w); auto.
Qed.

Lemma keeps_client_run f calls w : keeps_client w (run P f calls w).
Proof.
  revert w. induction calls as [|c calls IH]; intros w; simpl.
  - apply keeps_client_refl.
  - eapply keeps_client_trans; [apply keeps_client_exec | apply IH].
Qed.

(** C9: once [getAiInstance] has succeeded, then after any further calls
    into the module, and whatever happens to the credential sources in
    between, [getAiInstance] returns the identical handle and leaves the
    world as it was: it reads no credential source and constructs nothing;
    and no further client has been constructed in the meantime. *)
Theorem getAiInstance_memoized f w h w1 calls :
  getAiInstance P f w = (Ok h, w1) ->
  let w2 := run P f calls w1 in
  getAiInstance P f w2 = (Ok h, w2)
  /\ handles_made (trace w2) = handles_made (trace w1).
Proof.
  intros Hget w2.
  pose proof (getAiInstance_caches f w h w1 Hget) as Hai.
  pose proof (keeps_client_run f calls w1) as Hk.
  unfold keeps_client in Hk. rewrite Hai in Hk. destruct Hk as [Hai2 Hn].
  split; [apply getAiInstance_cached; exact Hai2 | exact Hn].
Qed.

(** From the start of a process, at most one client is ever constructed. *)
Lemma at_most_one_handle f env store calls :
  (handles_made (trace (run P f calls (initial_world env store))) <= 1)%nat.
Proof.
  pose proof (keeps_client_run f calls (initial_world env store)) as Hk.
  unfold keeps_client in Hk. simpl in Hk.
  destruct (ai (run P f calls (initial_world env store))); rewrite Hk;
    unfold handles_made; simpl; lia.
Qed.

(** ** Credential failures *)

Lemma InitializationFailed_not_missing : InitializationFailed <> CredentialMissing.
Proof. intros H. vm_compute in H. discriminate H. Qed.

(** When no credential resolves, nothing but reads and console output
    happens, and a later call meets the same fate for as long as the
    sources stay as they are. *)
Lemma getAiInstance_missing f w w1 :
  getAiInstance P f w = (Throw CredentialMissing, w1) ->
  (exists evs, w1 = extend w evs /\ quiet evs)
  /\ forall evs0, exists evs1,
       getAiInstance P f (extend w evs0)
       = (Throw CredentialMissing, extend w (evs0 ++ evs1))
       /\ quiet evs1.
Proof.
  destruct w as [cached env store tr]. revert w1.
  destruct f; unfold_getAiInstance; unfold extend, quiet; simpl; intros w1.
  all: split_matches.
  all: intros H;
    try discriminate H;
    try (exfalso; apply InitializationFailed_not_missing; congruence).
  all: injection H as <-.
  all: split;
    [ eexists; split; [rewrite <- ?app_assoc; reflexivity | reflexivity]
    | intros evs0; eexists; split;
      [ rewrite <- ?app_assoc; reflexivity | reflexivity ] ].
Qed.

(** [part_000] gives up a key the constructor rejects: the call throws the
    initialization error, the key is gone from [localStorage], and the next
    call finds no credential and constructs nothing. *)
Lemma part000_evicts_rejected_key w entries k :
  ai w = None ->
  localStorage w = Storage entries ->
  entries !! gemini_api_key = Some k ->
  is_empty k = false ->
  (forall past, GoogleGenAI_accepts P past k = false) ->
  exists w1,
    getAiInstance P Part000 w = (Throw InitializationFailed, w1)
    /\ localStorage w1 = Storage (delete gemini_api_key entries)
    /\ exists evs,
         getAiInstance P Part000 w1 = (Throw CredentialMissing, extend w1 evs)
         /\ handles_made evs = 0%nat
         /\ forall apiKey accepted, ~ In (EvConstruct apiKey accepted) evs.
Proof.
  intros Hai Hstore Hkey Hne Hrej.
  destruct w as [cached env store tr]; simpl in *; subst cached store.
  unfold_getAiInstance; unfold extend; simpl.
  rewrite Hkey, Hne, Hrej. simpl. eexists. split; [reflexivity|].
  simpl. split; [reflexivity|].
  rewrite lookup_delete_eq. eexists. split; [reflexivity|].
  split; [reflexivity|].
  intros apiKey accepted [H|[]]. discriminate H.
Qed.

End Client.

(** ** The retry loop *)


Section Retry.

Variable P : Platform.
Variable f : SourceFile.
Variable h : Handle.
Variable prompt : jsstring.
Variable cfg : Config.

Let request : Event :=
  EvGenerateContent h
    {| model := gemini_model; contents := prompt; config := Some cfg |}.

(** One attempt sends one request and, besides, only writes to the
    console. *)
Lemma attempt_extends w :
  exists evs, snd (attempt P h prompt cfg w) = extend w (request :: evs)
              /\ quiet evs.
Proof.
  unfold attempt, decode_structured, bind, history, emit, throw, ret, console,
    extend, quiet; simpl.
  split_matches;
    first [ exists []; split; reflexivity
          | eexists [_]; split; [rewrite <- app_assoc; reflexivity | reflexivity] ].
Qed.

(** One turn of the loop. *)
Lemma retry_loop_step n w :
  retry_loop P f (S n) h prompt cfg w
  = match attempt P h prompt cfg w with
    | (Ok v, w1) => (Ok v, w1)
    | (Throw e, w1) =>
        match n with
        | O => (Throw (on_exhaustion f e),
                extend w1 [EvConsole error (attempt_label n)])
        | S _ => retry_loop P f n h prompt cfg
                   (extend w1 [EvConsole error (attempt_label n); EvSleep 1000])
        end
    end.
Proof.
  cbn [retry_loop]. unfold try_catch.
  destruct (attempt P h prompt cfg w) as [[v|e] w1]; [reflexivity|].
  unfold bind at 1. rewrite emit_extend.
  destruct n as [|n]; cbn [Nat.eqb]; [reflexivity|].
  unfold bind at 1. now rewrite emit_extend, extend_extend.
Qed.

Lemma retry_loop_shape n w :
  exists evs,
    snd (retry_loop P f n h prompt cfg w) = extend w evs
    /\ match fst (retry_loop P f n h prompt cfg w) with
       | Throw _ => List.filter wire evs = wire_pattern request n
       | Ok _ => exists k, (k < n)%nat
                           /\ List.filter wire evs = wire_pattern request (S k)
       end.
Proof.
  revert w. induction n as [|n IH]; intros w.
  - exists []. split; [|reflexivity].
    destruct w; unfold extend; simpl. now rewrite app_nil_r.
  - rewrite retry_loop_step.
    destruct (attempt_extends w) as (evs1 & Hw1 & Hq1).
    destruct (attempt P h prompt cfg w) as [[v|e] w1]; cbn [snd] in Hw1; subst w1.
    + exists (request :: evs1). split; [reflexivity|].
      exists 0%nat. split; [lia|]. cbn [fst]. simpl. now rewrite Hq1.
    + destruct n as [|n].
      * rewrite extend_extend. eexists. split; [reflexivity|].
        cbn [fst]. simpl. rewrite List.filter_app, Hq1. reflexivity.
      * rewrite extend_extend.
        match goal with
        | |- context [retry_loop P f (S n) h prompt cfg ?w'] =>
            destruct (IH w') as (evs2 & Hw2 & Hshape)
        end.
        rewrite Hw2, extend_extend. eexists. split; [reflexivity|].
        assert (forall rest,
                  List.filter wire
                    (((request :: evs1)
                      ++ [EvConsole error (attempt_label (S n)); EvSleep 1000])
                     ++ rest)
                  = request :: EvSleep 1000 :: List.filter wire rest) as Hpre.
        { intros rest. simpl. rewrite !List.filter_app, Hq1. reflexivity. }
        destruct (fst (retry_loop P f (S n) h prompt cfg _)).
        -- destruct Hshape as (k & Hk & Hf). exists (S k). split; [lia|].
           rewrite Hpre, Hf. reflexivity.
        -- rewrite Hpre, Hshape. reflexivity.
Qed.

(** An exhausted loop of [S n] attempts: the last attempt runs after [n]
    failed rounds, the loop throws that attempt's error passed through
    [on_exhaustion], and nothing follows but the report on the console. *)
Lemma retry_loop_last n w e :
  fst (retry_loop P f (S n) h prompt cfg w) = Throw e ->
  exists before terminal,
    List.filter wire before = failed_rounds request n
    /\ fst (attempt P h prompt cfg (extend w before)) = Throw terminal
    /\ e = on_exhaustion f terminal
    /\ snd (retry_loop P f (S n) h prompt cfg w)
       = extend (snd (attempt P h prompt cfg (extend w before)))
           [EvConsole error (attempt_label 0)].
Proof.
  revert w. induction n as [|n IH]; intros w; rewrite retry_loop_step.
  - destruct (attempt P h prompt cfg w) as [[v|e1] w1] eqn:Ha; [discriminate|].
    intros [= <-]. exists [], e1. rewrite extend_nil, Ha. repeat split.
  - destruct (attempt_extends w) as (evs1 & Hw1 & Hq1).
    destruct (attempt P h prompt cfg w) as [[v|e1] w1]; [discriminate|].
    cbn [snd] in Hw1. subst w1. rewrite extend_extend. intros He.
    destruct (IH _ He) as (before & terminal & Hb & Ht & -> & Hs).
    rewrite extend_extend in Ht, Hs.
    eexists. exists terminal. split; [|split; [exact Ht | split; [reflexivity | exact Hs]]].
    simpl. rewrite !List.filter_app, Hq1, Hb. reflexivity.
Qed.

Lemma callGeminiWithRetry_with_handle w w1 :
  getAiInstance P f w = (Ok h, w1) ->
  callGeminiWithRetry P f prompt cfg w = retry_loop P f 3 h prompt cfg w1.
Proof. intros H. unfold callGeminiWithRetry, bind. now rewrite H. Qed.

(** With the handle, the first thing the wrapper does is to send the
    prompt. *)
Lemma callGeminiWithRetry_sends w w1 :
  getAiInstance P f w = (Ok h, w1) ->
  exists evs,
    snd (callGeminiWithRetry P f prompt cfg w) = extend w1 (request :: evs).
Proof.
  intros Hget. rewrite (callGeminiWithRetry_with_handle w w1 Hget).
  rewrite retry_loop_step.
  destruct (attempt_extends w1) as (evs1 & Hw & _).
  destruct (attempt P h prompt cfg w1) as [[v|e] w2]; cbn [snd] in Hw; subst w2.
  - eauto.
  - destruct (retry_loop_shape 2
                (extend (extend w1 (request :: evs1))
                   [EvConsole error (attempt_label 2); EvSleep 1000]))
      as (evs2 & -> & _).
    rewrite !extend_extend. eexists. reflexivity.
Qed.

(** Whenever the wrapper throws after it obtained the handle, it has sent
    exactly three requests, with a delay of one second after the first and
    after the second. *)
Lemma exhaustion_takes_three_requests w w1 e :
  getAiInstance P f w = (Ok h, w1) ->
  fst (callGeminiWithRetry P f prompt cfg w) = Throw e ->
  exists evs,
    snd (callGeminiWithRetry P f prompt cfg w) = extend w1 evs
    /\ List.filter wire evs
       = [request; EvSleep 1000; request; EvSleep 1000; request].
Proof.
  intros Hget Hthrow. rewrite (callGeminiWithRetry_with_handle w w1 Hget) in *.
  destruct (retry_loop_shape 3 w1) as (evs & Hw & Hshape).
  rewrite Hthrow in Hshape. exists evs. split; assumption.
Qed.

(** C1: when the handle is obtained and the attempts made fail, the
    wrapper throws after exactly three requests to the remote capability,
    waiting one second between consecutive attempts and not after the last.
    The attempts made are the first, in the world [getAiInstance] leaves;
    the second, in the world the first leaves once its failure is reported
    and a second has gone by; and the third, likewise after the second.
    Nothing is assumed of any other attempt.  What the wrapper throws is
    made of the error of the third. *)
Theorem three_attempts_then_exhaustion w w1 e1 e2 e3 :
  getAiInstance P f w = (Ok h, w1) ->
  let first := attempt P h prompt cfg w1 in
  let second := attempt P h prompt cfg (after_failure 2 (snd first)) in
  let third := attempt P h prompt cfg (after_failure 1 (snd second)) in
  fst first = Throw e1 ->
  fst second = Throw e2 ->
  fst third = Throw e3 ->
  fst (callGeminiWithRetry P f prompt cfg w) = Throw (on_exhaustion f e3)
  /\ exists evs,
       snd (callGeminiWithRetry P f prompt cfg w) = extend w1 evs
       /\ List.filter wire evs
          = [request; EvSleep 1000; request; EvSleep 1000; request].
Proof.
  intros Hget first second third H1 H2 H3.
  assert (fst (callGeminiWithRetry P f prompt cfg w)
          = Throw (on_exhaustion f e3)) as Hthrow.
  { rewrite (callGeminiWithRetry_with_handle w w1 Hget).
    subst first second third. unfold after_failure in *.
    rewrite retry_loop_step.
    destruct (attempt P h prompt cfg w1) as [[v1|e1'] wa]; [discriminate H1|].
    cbn [snd] in *. rewrite retry_loop_step.
    destruct (attempt P h prompt cfg (extend wa _)) as [[v2|e2'] wb];
      [discriminate H2|].
    cbn [snd] in *. rewrite retry_loop_step.
    destruct (attempt P h prompt cfg (extend wb _)) as [[v3|e3'] wc];
      [discriminate H3|].
    cbn [fst] in *. congruence. }
  split; [exact Hthrow|].
  exact (exhaustion_takes_three_requests w w1 _ Hget Hthrow).
Qed.


End Retry.

(** ** The domain operations on empty input and without a credential *)

Section Guards.

Variable P : Platform.
Variable f : SourceFile.

Lemma getAiInstance_trace w :
  exists evs, trace (snd (getAiInstance P f w)) = trace w ++ evs /\ quiet evs.
Proof.
  destruct (ai w) as [h|] eqn:Hai.
  - rewrite (getAiInstance_cached P f w h Hai). exists []. simpl.
    now rewrite app_nil_r.
  - pose proof (getAiInstance_fresh P f w Hai) as H.
    destruct (getAiInstance P f w) as [[h|e] w1]; simpl.
    + destruct H as (_ & _ & _ & evs & ? & ? & _). eauto.
    + destruct H as (_ & _ & evs & ? & ? & _). eauto.
Qed.

(** C4 (as amended): on the empty string, every operation that has a
    default returns it and leaves the world untouched; [analyzeSentiment]
    throws its no-content error instead; [summarizeContent] first obtains
    the handle, then yields its one placeholder fragment, and ends with
    the handle's error if there is none.  Except for
    [generateScriptFromInfo], which has no guard, none of them sends a
    request or waits. *)
Theorem empty_input op w :
  (forall v, default_value op = Some v ->
             invoke P f op [] w = (Resolved v, w))
  /\ (op = AnalyzeSentiment ->
      invoke P f op [] w = (Rejected NoSentimentContent, w))
  /\ (op = SummarizeContent ->
      (forall h w1, getAiInstance P f w = (Ok h, w1) ->
                    invoke P f op [] w = (Yielded [summary_placeholder] None, w1))
      /\ (forall e w1, getAiInstance P f w = (Throw e, w1) ->
                       invoke P f op [] w = (Yielded [] (Some e), w1)))
  /\ ((forall description, op <> GenerateScriptFromInfo description) ->
      exists evs, trace (snd (invoke P f op [] w)) = trace w ++ evs /\ quiet evs).
Proof.
  split; [|split; [|split]].
  - intros v Hv. destruct op; cbn [default_value] in Hv; try discriminate Hv;
      injection Hv as <-; reflexivity.
  - intros ->. reflexivity.
  - intros ->. split.
    + intros h w1 H. cbn [invoke]. unfold summarizeContent. now rewrite H.
    + intros e w1 H. cbn [invoke]. unfold summarizeContent. now rewrite H.
  - intros Hscript.
    destruct op;
      try (exists []; split; [now rewrite app_nil_r | reflexivity]).
    + cbn [invoke]. unfold summarizeContent.
      destruct (getAiInstance_trace w) as (evs & Htr & Hq).
      destruct (getAiInstance P f w) as [[h|e] w1]; simpl in *; eauto.
    + now destruct (Hscript description).
Qed.

Lemma callGeminiWithRetry_without_handle prompt cfg w e w1 :
  getAiInstance P f w = (Throw e, w1) ->
  callGeminiWithRetry P f prompt cfg w = (Throw e, w1).
Proof. intros H. unfold callGeminiWithRetry, bind. now rewrite H. Qed.

Lemma is_empty_false (s : jsstring) : s <> [] -> is_empty s = false.
Proof. now destruct s. Qed.

(** C5 (as amended): when obtaining the handle fails for want of a
    credential, no request is sent and nothing is retried, and the
    credential-missing error reaches the caller as it is, except from
    [categorizeContent], which returns the empty array, and from
    [rateContent], which throws its own rating error. *)
Theorem credential_missing_surfaces op input w w1 :
  input <> [] ->
  getAiInstance P f w = (Throw CredentialMissing, w1) ->
  fst (invoke P f op input w)
  = match op with
    | CategorizeContent => Resolved (JArray [])
    | RateContent => Rejected RatingFailed
    | SummarizeContent => Yielded [] (Some CredentialMissing)
    | _ => Rejected CredentialMissing
    end
  /\ exists evs, snd (invoke P f op input w) = extend w evs /\ quiet evs.
Proof.
  intros Hne Hget. apply is_empty_false in Hne.
  destruct (getAiInstance_missing P f w w1 Hget) as ((evs & -> & Hq) & Hagain).
  pose proof (fun prompt cfg =>
                callGeminiWithRetry_without_handle prompt cfg w _ _ Hget) as Hcall.
  assert (forall extra, quiet (evs ++ extra) <-> quiet extra) as Hqapp.
  { intros extra. unfold quiet in *. rewrite List.filter_app, Hq. reflexivity. }
  assert (forall (k : JSValue -> M JSValue) prompt cfg,
            fst (settle (bind (callGeminiWithRetry P f prompt cfg) k w))
            = Rejected CredentialMissing
            /\ exists evs',
                 snd (settle (bind (callGeminiWithRetry P f prompt cfg) k w))
                 = extend w evs' /\ quiet evs') as Hbind.
  { intros k prompt cfg. unfold bind. rewrite Hcall. cbn [settle fst snd]. eauto. }
  assert (forall (k : JSValue -> M JSValue) prompt cfg label (after : M JSValue) r,
            (forall w', after w' = (r, w')) ->
            settle (try_catch (bind (callGeminiWithRetry P f prompt cfg) k)
                      (fun _ => console error label ;;; after) w)
            = settle (r, extend w (evs ++ [EvConsole error (utf16 label)])))
    as Hcatch.
  { intros k prompt cfg label after r Hafter. unfold try_catch.
    assert (bind (callGeminiWithRetry P f prompt cfg) k w
            = (Throw CredentialMissing, extend w evs)) as ->
      by (unfold bind; now rewrite Hcall).
    unfold bind, console. rewrite emit_extend, extend_extend.
    now rewrite Hafter. }
  destruct op; cbn [invoke].
  - (* analyzeTextContent: the second call fails in the same way *)
    unfold analyzeTextContent. rewrite Hne, Hcall.
    unfold categorizeContent. rewrite Hne. unfold try_catch, bind.
    unfold callGeminiWithRetry, bind.
    destruct (Hagain evs) as (evs1 & Hget2 & Hq1).
    rewrite Hget2. unfold console. rewrite emit_extend.
    cbn [ret settle fst snd]. rewrite extend_extend.
    split; [reflexivity|]. eexists. split; [reflexivity|].
    unfold quiet in *. rewrite !List.filter_app, Hq, Hq1. reflexivity.
  - unfold categorizeContent. rewrite Hne.
    rewrite (Hcatch _ _ _ _ _ (Ok (JArray []))) by reflexivity.
    split; [reflexivity|]. eexists. split; [reflexivity|]. now apply Hqapp.
  - unfold summarizeContent. rewrite Hget. cbn [fst snd fragments ending].
    split; [reflexivity | eauto].
  - unfold createQuiz. rewrite Hne. apply Hbind.
  - unfold analyzeSentiment. rewrite Hne. apply Hbind.
  - unfold extractKeywords. rewrite Hne. apply Hbind.
  - unfold translateToEnglish. rewrite Hne, Hcall. cbn [settle fst snd]. eauto.
  - unfold translateToArabic. rewrite Hne, Hcall. cbn [settle fst snd]. eauto.
  - unfold generateBookDescription. rewrite Hne, Hcall. cbn [settle fst snd]. eauto.
  - unfold generateVideoDescription. rewrite Hne, Hcall. cbn [settle fst snd]. eauto.
  - unfold extractBookTitle. rewrite Hne, Hcall. cbn [settle fst snd]. eauto.
  - unfold generateScriptFromInfo. rewrite Hcall. cbn [settle fst snd]. eauto.
  - unfold generateContentSuggestions. rewrite Hne. apply Hbind.
  - unfold designArticleFromContent. rewrite Hne, Hcall. cbn [settle fst snd]. eauto.
  - unfold rateContent. rewrite Hne.
    rewrite (Hcatch _ _ _ _ _ (Throw RatingFailed)) by reflexivity.
    split; [reflexivity|]. eexists. split; [reflexivity|]. now apply Hqapp.
Qed.

End Guards.

(** ** Code fences *)

Lemma fence_close_units : fence_close = [96; 96; 96]%N.
Proof. reflexivity. Qed.

Lemma strip_prefix_app p s : strip_prefix p (p ++ s) = Some s.
Proof.
  induction p as [|a p IH]; simpl; [now destruct s|]. now rewrite N.eqb_refl.
Qed.

Lemma strip_closing_fence_cons c r :
  strip_closing_fence (c :: r)
  = if closing_fence_here (c :: r) then [] else c :: strip_closing_fence r.
Proof. reflexivity. Qed.

Lemma all_space_app a b : all_space (a ++ b) = all_space a && all_space b.
Proof. apply forallb_app. Qed.

(** Before a line break and the closing marker, no closing marker
    matches. *)
Lemma closing_fence_not_before x :
  closing_fence_here (x ++ 10%N :: fence_close) = false.
Proof.
  unfold closing_fence_here. rewrite fence_close_units.
  destruct x as [|a [|b [|c x]]]; cbn [app strip_prefix];
    repeat match goal with
           | |- context [if ?b then _ else _] => destruct b
           end; try reflexivity.
  rewrite all_space_app. apply andb_false_r.
Qed.

Lemma strip_closing_fence_fenced x :
  strip_closing_fence (x ++ 10%N :: fence_close) = x ++ [10%N].
Proof.
  induction x as [|a x IH].
  - reflexivity.
  - change ((a :: x) ++ 10%N :: fence_close)
      with (a :: (x ++ 10%N :: fence_close)).
    rewrite strip_closing_fence_cons.
    change (a :: (x ++ 10%N :: fence_close))
      with ((a :: x) ++ 10%N :: fence_close).
    now rewrite closing_fence_not_before, IH.
Qed.

Lemma trimStart_app a b :
  trimStart (a ++ b) = if all_space a then trimStart b else trimStart a ++ b.
Proof.
  induction a as [|c a IH]; simpl; [reflexivity|].
  destruct (is_space c); simpl; [exact IH | reflexivity].
Qed.

Lemma trimStart_all_space a : all_space a = true -> trimStart a = [].
Proof.
  induction a as [|c a IH]; simpl; [reflexivity|].
  destruct (is_space c); simpl; [exact IH | discriminate].
Qed.

Lemma trimStart_idempotent a : trimStart (trimStart a) = trimStart a.
Proof.
  induction a as [|c a IH]; simpl; [reflexivity|].
  destruct (is_space c) eqn:Hc; [exact IH | simpl; now rewrite Hc].
Qed.

Lemma all_space_trimStart a : all_space (trimStart a) = all_space a.
Proof.
  induction a as [|c a IH]; simpl; [reflexivity|].
  destruct (is_space c) eqn:Hc; simpl; [exact IH | now rewrite Hc].
Qed.

Lemma trimEnd_all_space a : all_space a = true -> trimEnd a = [].
Proof. destruct a as [|c a]; simpl; [reflexivity|]. now intros ->. Qed.

Lemma trimEnd_app_space x a :
  all_space a = true -> trimEnd (x ++ a) = trimEnd x.
Proof.
  intros Ha. induction x as [|c x IH].
  - simpl. now apply trimEnd_all_space.
  - change ((c :: x) ++ a) with (c :: (x ++ a)). cbn [trimEnd].
    change (c :: (x ++ a)) with ((c :: x) ++ a).
    rewrite all_space_app, Ha, andb_true_r, IH. reflexivity.
Qed.

(** Whatever the text, the cleaned form of its fenced version is the
    trimmed text. *)
Lemma cleanedJsonString_fenced t : cleanedJsonString (fenced t) = trim t.
Proof.
  unfold cleanedJsonString, strip_code_fences, fenced.
  rewrite strip_prefix_app.
  change (trimStart (10%N :: t ++ 10%N :: fence_close))
    with (trimStart (t ++ 10%N :: fence_close)).
  rewrite trimStart_app. unfold trim.
  destruct (all_space t) eqn:Ht.
  - rewrite (trimStart_all_space t Ht). reflexivity.
  - rewrite strip_closing_fence_fenced, trimStart_app, all_space_trimStart, Ht.
    rewrite trimStart_idempotent.
    now rewrite trimEnd_app_space.
Qed.

Lemma strip_closing_fence_none t :
  ends_with_closing_fence t = false -> strip_closing_fence t = t.
Proof.
  induction t as [|c t IH]; cbn [ends_with_closing_fence]; intros H;
    apply orb_false_elim in H as [Hhere Hrest].
  - unfold strip_closing_fence. now rewrite Hhere.
  - rewrite strip_closing_fence_cons, Hhere, IH; auto.
Qed.

Lemma cleanedJsonString_plain t :
  startsWith t fence_open = false ->
  ends_with_closing_fence t = false ->
  cleanedJsonString t = trim t.
Proof.
  intros Hopen Hclose. unfold cleanedJsonString, strip_code_fences.
  unfold startsWith in Hopen.
  destruct (strip_prefix fence_open t); [discriminate|].
  now rewrite strip_closing_fence_none.
Qed.

(** C6 (as amended): for every text that carries no fence of its own (it
    does not start with the opening marker and does not end with the
    closing marker followed by white space), decoding its fenced version
    gives what decoding the text itself gives: the same value, or the same
    error. *)
Theorem fenced_decodes_like_plain t w :
  startsWith t fence_open = false ->
  ends_with_closing_fence t = false ->
  decode_structured (fenced t) w = decode_structured t w.
Proof.
  intros Hopen Hclose. unfold decode_structured.
  now rewrite cleanedJsonString_fenced, cleanedJsonString_plain.
Qed.

(** ** The quiz check *)

Lemma quiz_item_ok_true q : quiz_item_ok q = Ok true <-> well_formed_question q.
Proof.
  unfold quiz_item_ok, well_formed_question, get_property. split.
  - destruct q as [| | | | | |props]; try discriminate.
    destruct (lookup_prop (utf16 "question") props) eqn:Hq; try discriminate.
    destruct (lookup_prop (utf16 "options") props) as [| | | | |options|] eqn:Ho;
      try discriminate.
    cbn [is_string is_array_of_4].
    destruct (Nat.eqb (length options) 4) eqn:Hlen; try discriminate.
    destruct (lookup_prop (utf16 "correctAnswerIndex") props) eqn:Hi;
      try discriminate.
    intros _. apply Nat.eqb_eq in Hlen. eauto 10.
  - intros (props & question & options & idx & -> & -> & -> & Hlen & ->).
    cbn [is_string is_array_of_4 is_number]. now rewrite Hlen.
Qed.

Lemma quiz_item_ok_readable q e : readable q -> quiz_item_ok q <> Throw e.
Proof.
  intros [Hnull Hundef]. unfold quiz_item_ok, get_property.
  destruct q as [| | | | | |props]; try congruence; try discriminate.
  destruct (is_string (lookup_prop (utf16 "question") props)); try discriminate.
  destruct (is_array_of_4 (lookup_prop (utf16 "options") props)); discriminate.
Qed.

Lemma quiz_item_ok_false q :
  readable q -> ~ well_formed_question q -> quiz_item_ok q = Ok false.
Proof.
  intros Hread Hbad.
  destruct (quiz_item_ok q) as [[|]|e] eqn:Hq.
  - now apply quiz_item_ok_true in Hq.
  - reflexivity.
  - now destruct (quiz_item_ok_readable q e Hread).
Qed.

Lemma every_quiz_true items :
  every quiz_item_ok items = Ok true <-> Forall well_formed_question items.
Proof.
  induction items as [|q items IH]; cbn [every].
  - split; [constructor | reflexivity].
  - destruct (quiz_item_ok q) as [[|]|e] eqn:Hq.
    + rewrite IH. apply quiz_item_ok_true in Hq. split.
      * now constructor.
      * intros H. now inversion H.
    + split; [discriminate|]. intros H. inversion H as [|? ? Hwf _]; subst.
      apply quiz_item_ok_true in Hwf. congruence.
    + split; [discriminate|]. intros H. inversion H as [|? ? Hwf _]; subst.
      apply quiz_item_ok_true in Hwf. congruence.
Qed.

Lemma every_quiz_false items :
  Forall readable items ->
  ~ Forall well_formed_question items ->
  every quiz_item_ok items = Ok false.
Proof.
  induction 1 as [|q items Hq _ IH]; intros Hbad; cbn [every].
  - destruct Hbad. constructor.
  - destruct (quiz_item_ok q) as [[|]|e] eqn:Hok.
    + apply IH. intros Hall. apply Hbad. constructor; [|exact Hall].
      now apply quiz_item_ok_true.
    + reflexivity.
    + now destruct (quiz_item_ok_readable q e Hq).
Qed.

Section Quiz.

Variable P : Platform.
Variable f : SourceFile.

(** C7 (as amended): with the decoded [result] at hand, [createQuiz]
    returns it exactly when it is an array in which every item is an
    object with a string [question], an [options] array of length four and
    a [correctAnswerIndex] that is a number, integer or not.  It throws
    the malformed-quiz error when [result] is no array, and when it is an
    array of readable items one of which fails that check.  *)
Theorem createQuiz_checks content questionCount w result w1 :
  content <> [] ->
  callGeminiWithRetry P f (quizPrompt content questionCount)
    (json_config quizSchema) w = (Ok result, w1) ->
  (forall v, fst (createQuiz P f content questionCount w) = Ok v <->
             v = result
             /\ exists items, result = JArray items
                              /\ Forall well_formed_question items)
  /\ ((forall items, result <> JArray items) ->
      fst (createQuiz P f content questionCount w) = Throw MalformedQuiz)
  /\ (forall items, result = JArray items ->
        Forall readable items ->
        ~ Forall well_formed_question items ->
        fst (createQuiz P f content questionCount w) = Throw MalformedQuiz).
Proof.
  intros Hne Hcall. apply is_empty_false in Hne.
  assert (createQuiz P f content questionCount w
          = match is_quiz result with
            | Ok true => (Ok result, w1)
            | Ok false =>
                (Throw MalformedQuiz,
                 extend w1 [EvConsole error
                              (utf16 "Invalid quiz format received from API:")])
            | Throw e => (Throw e, w1)
            end) as Heq.
  { unfold createQuiz. rewrite Hne. unfold bind at 1. rewrite Hcall.
    unfold bind, lift. destruct (is_quiz result) as [[|]|e]; reflexivity. }
  rewrite Heq. clear Heq. split; [|split].
  - intros v. split.
    + destruct result as [| | | | |items|]; cbn [is_quiz]; try discriminate.
      destruct (every quiz_item_ok items) as [[|]|e] eqn:Hev; try discriminate.
      intros [= <-]. split; [reflexivity|]. exists items. split; [reflexivity|].
      now apply every_quiz_true.
    + intros (-> & items & -> & Hall). cbn [is_quiz].
      apply every_quiz_true in Hall. now rewrite Hall.
  - intros Hnot. destruct result as [| | | | |items|]; try reflexivity.
    now destruct (Hnot items).
  - intros items -> Hread Hbad. cbn [is_quiz].
    now rewrite (every_quiz_false items Hread Hbad).
Qed.

End Quiz.

(** ** Numbers of integers *)

Section Integers.

Local Open Scope Z_scope.

Lemma odd_part_spec p :
  0 <= snd (odd_part p) /\ Zpos p = Zpos (fst (odd_part p)) * 2 ^ snd (odd_part p).
Proof.
  induction p as [p IH|p IH|]; cbn [odd_part]; try (simpl; lia).
  destruct (odd_part p) as [o k]. cbn [fst snd] in *. destruct IH as [Hk Hp].
  split; [lia|]. rewrite Z.pow_add_r by lia. rewrite Pos2Z.inj_xO, Hp. nia.
Qed.

Lemma round_half_even_1 n : round_half_even n 1 = n.
Proof.
  unfold round_half_even. rewrite Z.div_1_r, Z.mod_1_r. reflexivity.
Qed.

Lemma round_half_even_ge n d : 0 < d -> n / d <= round_half_even n d.
Proof.
  intros Hd. unfold round_half_even.
  destruct (2 * (n mod d) ?= d); [destruct (Z.even (n / d))| |]; lia.
Qed.

Lemma floor_log2_ratio_1 p : floor_log2_ratio p 1 = Z.log2 (Zpos p).
Proof.
  unfold floor_log2_ratio. change (Z.log2 1) with 0. rewrite Z.sub_0_r.
  pose proof (Z.log2_nonneg (Zpos p)) as Hnn.
  pose proof (Z.log2_spec (Zpos p) ltac:(lia)) as [Hlo _].
  destruct (0 <=? Z.log2 (Zpos p)) eqn:H0; [|lia].
  destruct (Zpos p <? 1 * 2 ^ Z.log2 (Zpos p)) eqn:Hlt; [lia | reflexivity].
Qed.

Lemma fraction_dyadic s m e :
  exists o e', dyadic s m e = JDyadic s o e'
    /\ let '(n, d) := fraction_of s o e' in
       if 0 <=? e then n = signed s (Zpos m * 2 ^ e) * Zpos d
       else n * 2 ^ (- e) = signed s (Zpos m) * Zpos d.
Proof.
  unfold dyadic. pose proof (odd_part_spec m) as [Hk Hm].
  destruct (odd_part m) as [o k]. cbn [fst snd] in *.
  exists o, (e + k). split; [reflexivity|].
  unfold fraction_of.
  assert ((if s then Z.neg o else Z.pos o) = signed s (Zpos o)) as -> by now destruct s.
  assert (forall a b, signed s a * b = signed s (a * b)) as Hsig
      by (intros; unfold signed; destruct s; lia).
  destruct (0 <=? e + k) eqn:Hek; destruct (0 <=? e) eqn:He.
  - rewrite Hm, !Hsig. f_equal. rewrite Z.pow_add_r by lia. lia.
  - rewrite Hm, !Hsig. f_equal.
    replace (2 ^ k) with (2 ^ (e + k) * 2 ^ (- e)).
    2:{ rewrite <- Z.pow_add_r by lia. f_equal. lia. }
    lia.
  - lia.
  - assert (0 < 2 ^ (- (e + k))) by (apply Z.pow_pos_nonneg; lia).
    rewrite Z2Pos.id by lia. rewrite Hm, !Hsig. f_equal.
    replace (2 ^ (- e)) with (2 ^ k * 2 ^ (- (e + k))).
    2:{ rewrite <- Z.pow_add_r by lia. f_equal. lia. }
    lia.
Qed.

Lemma signed_mul s a b : signed s a * b = signed s (a * b).
Proof. unfold signed; destruct s; lia. Qed.

Lemma round_ratio_int s p :
  (round_ratio s p 1 = JInf s /\ 2 ^ 53 <= Zpos p)
  \/ exists o e v,
       round_ratio s p 1 = JDyadic s o e
       /\ (let '(n, d) := fraction_of s o e in n = signed s v * Zpos d)
       /\ ((Zpos p < 2 ^ 53 /\ v = Zpos p) \/ (2 ^ 53 <= Zpos p /\ 2 ^ 53 <= v)).
Proof.
  unfold round_ratio. rewrite floor_log2_ratio_1.
  pose proof (Z.log2_nonneg (Zpos p)) as Hnn.
  pose proof (Z.log2_spec (Zpos p) ltac:(lia)) as [Hlo Hhi].
  set (L := Z.log2 (Zpos p)) in *.
  rewrite Z.max_l by lia.
  destruct (Z.lt_ge_cases (Zpos p) (2 ^ 53)) as [Hsmall | Hbig].
  - assert (L <= 52) as HL.
    { apply Z.log2_lt_pow2 in Hsmall; [fold L in Hsmall|]; lia. }
    right.
    assert (0 < 2 ^ (52 - L)) as Hpow by (apply Z.pow_pos_nonneg; lia).
    assert ((if 0 <=? L - 52
             then round_half_even (Zpos p) (1 * 2 ^ (L - 52))
             else round_half_even (Zpos p * 2 ^ (- (L - 52))) 1)
            = Zpos p * 2 ^ (52 - L)) as ->.
    { destruct (0 <=? L - 52) eqn:H0.
      - assert (L = 52) as -> by lia. simpl (52 - 52). simpl (2 ^ 0).
        change (1 * 1) with 1. rewrite round_half_even_1. lia.
      - rewrite round_half_even_1. do 2 f_equal. lia. }
    destruct (Zpos p * 2 ^ (52 - L)) as [|mp|mp] eqn:Hm; try lia.
    assert (Z.log2 (Zpos mp) = 52) as Hlog.
    { rewrite <- Hm, Z.log2_mul_pow2 by lia. fold L. lia. }
    rewrite Hlog.
    destruct (1024 <=? 52 + (L - 52)) eqn:Hinf; [lia|].
    destruct (fraction_dyadic s mp (L - 52)) as (o & e' & -> & Hfrac).
    exists o, e', (Zpos p). split; [reflexivity|]. split; [|left; lia].
    destruct (fraction_of s o e') as [n d].
    destruct (0 <=? L - 52) eqn:H0.
    + assert (L = 52) as HL52 by lia. rewrite HL52 in *.
      simpl (52 - 52) in *. simpl (2 ^ 0) in *. rewrite Hfrac. do 2 f_equal. lia.
    + rewrite <- Hm, signed_mul in Hfrac. unfold signed in *.
      replace (- (L - 52)) with (52 - L) in Hfrac by lia.
      destruct s; nia.
  - assert (53 <= L) as HL.
    { destruct (Z.lt_ge_cases L 53) as [Hlt|]; [|lia].
      assert (2 ^ (Z.succ L) <= 2 ^ 53) by (apply Z.pow_le_mono_r; lia). lia. }
    destruct (0 <=? L - 52) eqn:H0; [|lia].
    assert (0 < 2 ^ (L - 52)) as Hpow by (apply Z.pow_pos_nonneg; lia).
    assert (2 ^ 52 <= round_half_even (Zpos p) (1 * 2 ^ (L - 52))) as Hm.
    { etransitivity; [|apply round_half_even_ge; lia].
      apply Z.div_le_lower_bound; [lia|].
      replace (1 * 2 ^ (L - 52) * 2 ^ 52) with (2 ^ L); [lia|].
      rewrite Z.mul_1_l, <- Z.pow_add_r by lia. f_equal. lia. }
    destruct (round_half_even (Zpos p) (1 * 2 ^ (L - 52))) as [|mp|mp] eqn:Hr;
      try lia.
    destruct (1024 <=? Z.log2 (Zpos mp) + (L - 52)); [left; auto|].
    right.
    destruct (fraction_dyadic s mp (L - 52)) as (o & e' & -> & Hfrac).
    exists o, e', (Zpos mp * 2 ^ (L - 52)). split; [reflexivity|].
    rewrite H0 in Hfrac. split; [exact Hfrac|]. right. split; [lia|].
    assert (2 <= 2 ^ (L - 52)).
    { change 2 with (2 ^ 1) at 1. apply Z.pow_le_mono_r; lia. }
    change (2 ^ 53) with (2 ^ 52 * 2). nia.
Qed.

Lemma number_of_Z_view z :
  (number_of_Z z = JInf false /\ 2 ^ 53 <= z)
  \/ (number_of_Z z = JInf true /\ z <= - 2 ^ 53)
  \/ exists v, approximates z v
               /\ finite_number (number_of_Z z)
               /\ let '(n, d) := fraction (number_of_Z z) in n = v * Zpos d.
Proof.
  destruct z as [|p|p]; cbn [number_of_Z].
  - right; right. exists 0. split; [left; lia|]. split; [exact I|]. reflexivity.
  - destruct (round_ratio_int false p) as [[-> Hbig] | (o & e & v & -> & Hfrac & Hv)].
    + left. auto.
    + right; right. exists v. split; [|split; [exact I|exact Hfrac]].
      unfold approximates. destruct Hv as [[? ->]|[? ?]]; [left|right; left]; lia.
  - destruct (round_ratio_int true p) as [[-> Hbig] | (o & e & v & -> & Hfrac & Hv)].
    + right; left. split; [reflexivity|lia].
    + right; right. exists (- v). split; [|split; [exact I|exact Hfrac]].
      unfold approximates. destruct Hv as [[? ->]|[? ?]]; [left|right; right]; lia.
Qed.

Lemma number_compare_finite a b :
  finite_number a -> finite_number b ->
  number_compare a b
  = (fst (fraction a) * Zpos (snd (fraction b))
     ?= fst (fraction b) * Zpos (snd (fraction a))).
Proof.
  destruct a, b; try contradiction; intros _ _; unfold number_compare;
    destruct (fraction _) as [na da]; try destruct (fraction _) as [nb db];
    reflexivity.
Qed.

Lemma scale_compare a b (d1 d2 : positive) :
  (a * Zpos d1 * Zpos d2 ?= b * Zpos d2 * Zpos d1) = (a ?= b).
Proof.
  replace (a * Zpos d1 * Zpos d2) with (Zpos d2 * (Zpos d1 * a)) by ring.
  replace (b * Zpos d2 * Zpos d1) with (Zpos d2 * (Zpos d1 * b)) by ring.
  now rewrite !Zcompare_mult_compat.
Qed.

(** Comparing the numbers of two integers is comparing the integers, as
    long as one of them is exactly representable. *)
Lemma number_compare_of_Z a b :
  - 2 ^ 53 < a < 2 ^ 53 ->
  number_compare (number_of_Z a) (number_of_Z b) = (a ?= b).
Proof.
  intros Ha.
  destruct (number_of_Z_view a) as [[_ ?]|[[_ ?]|(va & Hva & Hfa & Hna)]]; try lia.
  assert (va = a) as -> by (destruct Hva as [[_ ?]|[?|?]]; lia).
  destruct (number_of_Z_view b) as [[-> Hb]|[[-> Hb]|(vb & Hvb & Hfb & Hnb)]].
  - destruct (number_of_Z a); try contradiction; cbn; symmetry;
      apply Z.compare_lt_iff; lia.
  - destruct (number_of_Z a); try contradiction; cbn; symmetry;
      apply Z.compare_gt_iff; lia.
  - rewrite number_compare_finite by assumption.
    destruct (fraction (number_of_Z a)) as [na da].
    destruct (fraction (number_of_Z b)) as [nb db]. cbn [fst snd]. subst na nb.
    rewrite scale_compare.
    destruct Hvb as [[_ ->]|[[? ?]|[? ?]]]; [reflexivity| |].
    + transitivity Lt; [|symmetry]; apply Z.compare_lt_iff; lia.
    + transitivity Gt; [|symmetry]; apply Z.compare_gt_iff; lia.
Qed.

Lemma number_of_Z_not_NaN z : number_of_Z z <> JNaN.
Proof.
  destruct (number_of_Z_view z) as [[-> _]|[[-> _]|(v & _ & Hf & _)]];
    try discriminate.
  intros H. rewrite H in Hf. exact Hf.
Qed.

Lemma number_of_Z_dyadic a :
  - 2 ^ 53 < a < 2 ^ 53 -> a <> 0 ->
  exists s m e, number_of_Z a = JDyadic s m e.
Proof.
  intros Ha Hnz. destruct a as [|p|p]; [lia| |]; cbn [number_of_Z].
  - destruct (round_ratio_int false p) as [[_ ?]|(o & e & v & -> & _)]; [lia|eauto].
  - destruct (round_ratio_int true p) as [[_ ?]|(o & e & v & -> & _)]; [lia|eauto].
Qed.

(** [Math.min] and [Math.max] of an exactly representable integer with any
    integer. *)
Lemma Math_min_of_Z a b :
  - 2 ^ 53 < a < 2 ^ 53 -> a <> 0 ->
  Math_min (number_of_Z a) (number_of_Z b) = number_of_Z (Z.min a b).
Proof.
  intros Ha Hnz. pose proof (number_compare_of_Z a b Ha) as Hc.
  pose proof (number_of_Z_not_NaN b) as HbN.
  destruct (number_of_Z_dyadic a Ha Hnz) as (s & m & e & Ea).
  unfold Math_min, Z.min. rewrite Hc, Ea.
  destruct (number_of_Z b) eqn:Eb; try congruence;
    destruct (a ?= b); congruence.
Qed.

Lemma Math_max_of_Z a b :
  - 2 ^ 53 < a < 2 ^ 53 -> a <> 0 ->
  Math_max (number_of_Z a) (number_of_Z b) = number_of_Z (Z.max a b).
Proof.
  intros Ha Hnz. pose proof (number_compare_of_Z a b Ha) as Hc.
  pose proof (number_of_Z_not_NaN b) as HbN.
  destruct (number_of_Z_dyadic a Ha Hnz) as (s & m & e & Ea).
  unfold Math_max, Z.max. rewrite Hc, Ea.
  destruct (number_of_Z b) eqn:Eb; try congruence;
    destruct (a ?= b) eqn:Hab; try congruence.
Qed.

Lemma clamp_rating_of_Z z :
  clamp_rating (number_of_Z z) = number_of_Z (Z.max 1 (Z.min 5 z)).
Proof.
  unfold clamp_rating.
  rewrite Math_min_of_Z by (try split; try discriminate; reflexivity).
  rewrite Math_max_of_Z by (try split; try discriminate; reflexivity).
  reflexivity.
Qed.

(** The marks for a whole rating between 1 and 5. *)
Lemma rating_marks k :
  1 <= k <= 5 ->
  String_repeat filled_mark (number_of_Z k)
  = Ok (repeat_string filled_mark (Z.to_nat k))
  /\ String_repeat empty_mark (number_sub (number_of_Z 5) (number_of_Z k))
     = Ok (repeat_string empty_mark (Z.to_nat (5 - k))).
Proof.
  intros Hk.
  assert (k = 1 \/ k = 2 \/ k = 3 \/ k = 4 \/ k = 5) as Hcases by lia.
  destruct Hcases as [-> | [-> | [-> | [-> | ->]]]]; split; reflexivity.
Qed.

End Integers.

(** ** Counts of marks *)

Section Counts.

Local Open Scope Z_scope.

Lemma round_half_even_le n d : 0 < d -> round_half_even n d <= n / d + 1.
Proof.
  intros Hd. unfold round_half_even.
  destruct (2 * (n mod d) ?= d); [destruct (Z.even (n / d))| |]; lia.
Qed.

Lemma floor_log2_ratio_le n d :
  floor_log2_ratio n d <= Z.log2 (Zpos n) - Z.log2 (Zpos d).
Proof.
  unfold floor_log2_ratio.
  destruct (0 <=? _);
    match goal with |- context [if ?b then _ else _] => destruct b end; lia.
Qed.

(** Rounding a ratio below eight gives zero or a finite number of the
    same sign. *)
Lemma round_ratio_small s n d :
  Zpos n < 8 * Zpos d ->
  round_ratio s n d = JZero s \/ exists o e, round_ratio s n d = JDyadic s o e.
Proof.
  intros Hlt. unfold round_ratio.
  pose proof (floor_log2_ratio_le n d) as Hl.
  assert (Z.log2 (Zpos n) <= 3 + Z.log2 (Zpos d)) as Hlog.
  { rewrite <- Z.log2_mul_pow2 by lia. apply Z.log2_le_mono. lia. }
  set (p := Z.max (floor_log2_ratio n d - 52) (-1074)).
  assert (p < 0) as Hp by (unfold p; lia).
  destruct (0 <=? p) eqn:Hp0; [lia|].
  set (m := round_half_even (Zpos n * 2 ^ (- p)) (Zpos d)).
  pose proof (round_half_even_le (Zpos n * 2 ^ (- p)) (Zpos d) ltac:(lia)) as Hm.
  fold m in Hm.
  destruct m as [|mp|mp] eqn:Em; [now left | | now left].
  assert (0 < 2 ^ (- p)) as Hpow by (apply Z.pow_pos_nonneg; lia).
  assert (Zpos n * 2 ^ (- p) / Zpos d < 8 * 2 ^ (- p)) as Hdiv.
  { apply Z.div_lt_upper_bound; [lia|]. nia. }
  assert (Z.log2 (Zpos mp) < 4 - p) as Hlg.
  { apply Z.log2_lt_pow2; [lia|].
    replace (4 - p) with (4 + - p) by lia. rewrite Z.pow_add_r by lia.
    change (2 ^ 4) with 16. lia. }
  destruct (1024 <=? Z.log2 (Zpos mp) + p) eqn:Hover; [lia|].
  right. unfold dyadic. destruct (odd_part mp) as [o k]. eauto.
Qed.

Lemma number_one : number_of_Z 1 = JDyadic false 1 0.
Proof. reflexivity. Qed.

Lemma number_five : number_of_Z 5 = JDyadic false 5 0.
Proof. reflexivity. Qed.

(** What clamping leaves: NaN, one, five, or the number itself when it
    lies strictly between. *)
Lemma clamp_rating_cases r :
  clamp_rating r = JNaN
  \/ clamp_rating r = number_of_Z 1
  \/ clamp_rating r = number_of_Z 5
  \/ exists m e,
       r = JDyadic false m e /\ clamp_rating r = r
       /\ number_compare (number_of_Z 1) r = Lt
       /\ number_compare (number_of_Z 5) r = Gt.
Proof.
  unfold clamp_rating. rewrite number_one, number_five.
  destruct r as [|s|s|s m e].
  - now left.
  - destruct s; cbn; auto.
  - cbn. auto.
  - cbn [Math_min].
    destruct (number_compare (JDyadic false 5 0) (JDyadic s m e)) eqn:H5;
      try (right; right; left; reflexivity).
    cbn [Math_max].
    destruct (number_compare (JDyadic false 1 0) (JDyadic s m e)) eqn:H1;
      try (right; left; reflexivity).
    right; right; right. exists m, e.
    destruct s; [|auto].
    exfalso. revert H1. unfold number_compare, fraction, fraction_of.
    change (0 <=? 0) with true. cbv iota. change (2 ^ 0) with 1.
    destruct (0 <=? e) eqn:He; cbn [fst snd]; intros H;
      rewrite Z.compare_lt_iff in H.
    + pose proof (Z.pow_nonneg 2 e ltac:(lia)) as Hpow.
      assert (Z.neg m * 2 ^ e <= 0) by nia. lia.
    + lia.
Qed.

Lemma repeat_countable s x :
  countable x -> exists text, String_repeat s x = Ok text.
Proof.
  intros Hx. unfold String_repeat.
  assert (exists q, ToIntegerOrInfinity x = Some q /\ 0 <= q) as (q & -> & Hq).
  { destruct x as [| |z|[|] m e]; try contradiction;
      cbn [ToIntegerOrInfinity]; try (exists 0; split; [reflexivity | lia]).
    unfold fraction_of. destruct (0 <=? e) eqn:He; eexists; (split; [reflexivity|]).
    - apply Z.quot_pos; [|lia].
      pose proof (Z.pow_nonneg 2 e ltac:(lia)). nia.
    - apply Z.quot_pos; lia. }
  destruct (Z.ltb_spec q 0); [lia | eauto].
Qed.

(** Five minus a number below five is zero or positive, and finite. *)
Lemma five_minus_countable m e :
  number_compare (number_of_Z 5) (JDyadic false m e) = Gt ->
  countable (number_sub (number_of_Z 5) (JDyadic false m e)).
Proof.
  rewrite number_five. intros Hgt.
  assert (if 0 <=? e then Zpos m * 2 ^ e < 5 else Zpos m < 5 * 2 ^ (- e)) as Hcmp.
  { revert Hgt. unfold number_compare, fraction, fraction_of.
    change (0 <=? 0) with true. cbv iota. change (2 ^ 0) with 1.
    destruct (0 <=? e) eqn:He; rewrite Z.compare_gt_iff; [lia|].
    assert (0 < 2 ^ (- e)) by (apply Z.pow_pos_nonneg; lia).
    rewrite Z2Pos.id by lia. lia. }
  unfold number_sub. cbv zeta.
  destruct (0 <=? e) eqn:He.
  - rewrite Z.min_l by lia. change (0 <=? 0) with true. cbv iota.
    change (0 - 0) with 0. change (2 ^ 0) with 1. rewrite Z.sub_0_r.
    change (Z.to_pos 1) with 1%positive.
    destruct (Z.pos 5 * 1 - Z.pos m * 2 ^ e) as [|p|p] eqn:Hv; [exact I| |lia].
    assert (Zpos (p * 1) < 8 * 1) as Hsmall by lia.
    destruct (round_ratio_small false _ 1 Hsmall) as [-> | (o & e' & ->)];
      exact I.
  - rewrite Z.min_r by lia. rewrite He. rewrite Z.sub_diag.
    change (2 ^ 0) with 1. rewrite Z.mul_1_r. rewrite Z.sub_0_l.
    assert (0 < 2 ^ (- e)) as Hpow by (apply Z.pow_pos_nonneg; lia).
    destruct (Z.pos 5 * 2 ^ (- e) - Z.pos m) as [|p|p] eqn:Hv;
      [exact I| |lia].
    assert (Zpos p < 8 * Zpos (Z.to_pos (2 ^ (- e)))) as Hsmall
        by (rewrite Z2Pos.id by lia; lia).
    destruct (round_ratio_small false _ _ Hsmall) as [-> | (o & e' & ->)];
      exact I.
Qed.

Lemma rating_report_total props r review :
  lookup_prop (utf16 "rating") props = JNumber r ->
  lookup_prop (utf16 "review") props = JString review ->
  exists stars,
    rating_report (JObject props)
    = Ok (Some (ratingReport stars (clamp_rating r) review)).
Proof.
  intros Hr Hv. unfold rating_report, get_property. cbn [truthy].
  rewrite Hr, Hv.
  assert (countable (clamp_rating r)
          /\ countable (number_sub (number_of_Z 5) (clamp_rating r)))
    as [Hc Hd].
  { destruct (clamp_rating_cases r)
      as [-> | [-> | [-> | (m & e & -> & -> & H1 & H5)]]].
    - split; exact I.
    - split; vm_compute; exact I.
    - split; vm_compute; exact I.
    - split; [exact I | now apply five_minus_countable]. }
  destruct (repeat_countable filled_mark _ Hc) as (filled & ->).
  destruct (repeat_countable empty_mark _ Hd) as (empty & ->).
  eauto.
Qed.

(** What [repeat] makes of a count that is NaN, zero, or positive and
    finite: as many copies as the count cut down to a whole number. *)
Lemma repeat_truncation s x :
  countable x ->
  exists k, 0 <= k /\ truncation x k
            /\ String_repeat s x = Ok (repeat_string s (Z.to_nat k)).
Proof.
  intros Hx. unfold String_repeat.
  destruct x as [| |z|[|] m e]; try contradiction;
    cbn [ToIntegerOrInfinity truncation fraction];
    try (exists 0; repeat split; lia).
  assert (exists n d, fraction_of false m e = (n, d) /\ 0 < n)
    as (n & d & Hnd & Hn).
  { unfold fraction_of. destruct (0 <=? e) eqn:He; do 2 eexists;
      (split; [reflexivity|]); [|lia].
    pose proof (Z.pow_pos_nonneg 2 e ltac:(lia) ltac:(lia)). nia. }
  rewrite Hnd. exists (Z.quot n (Zpos d)).
  rewrite Z.quot_div_nonneg by lia.
  pose proof (Z.div_pos n (Zpos d) ltac:(lia) ltac:(lia)) as Hq.
  pose proof (Z.mul_div_le n (Zpos d) ltac:(lia)) as Hlo.
  pose proof (Z.mul_succ_div_gt n (Zpos d) ltac:(lia)) as Hhi.
  split; [exact Hq|]. split.
  - rewrite !Z.abs_eq by lia. nia.
  - destruct (Z.ltb_spec (n / Zpos d) 0); [lia | reflexivity].
Qed.

(** The clamped rating is NaN when the rating is, and otherwise lies
    between one and five. *)
Lemma clamp_rating_range r :
  (r = JNaN /\ clamp_rating r = JNaN) \/ within_range (clamp_rating r).
Proof.
  destruct (clamp_rating_cases r)
    as [Hnan | [-> | [-> | (m & e & -> & -> & H1 & H5)]]].
  - left. split; [|exact Hnan]. revert Hnan. unfold clamp_rating.
    rewrite number_one, number_five.
    destruct r as [|s|s|s m e]; [reflexivity | | |].
    + destruct s; cbn; discriminate.
    + cbn. discriminate.
    + cbn [Math_min].
      destruct (number_compare (JDyadic false 5 0) (JDyadic s m e));
        cbn [Math_max];
        match goal with
        | |- context [number_compare ?a ?b] => destruct (number_compare a b)
        end; discriminate.
  - right. repeat split; vm_compute; discriminate.
  - right. repeat split; vm_compute; discriminate.
  - right. split; [exact I|]. rewrite H1, H5. split; discriminate.
Qed.

(** The report for any numeric rating: the marks are the clamped rating
    and what is missing to five, each cut down to a whole number. *)
Lemma rating_report_marks props r review :
  lookup_prop (utf16 "rating") props = JNumber r ->
  lookup_prop (utf16 "review") props = JString review ->
  exists filled empty,
    (0 <= filled /\ 0 <= empty)
    /\ truncation (clamp_rating r) filled
    /\ truncation (number_sub (number_of_Z 5) (clamp_rating r)) empty
    /\ rating_report (JObject props)
       = Ok (Some (ratingReport
                     (repeat_string filled_mark (Z.to_nat filled)
                      ++ repeat_string empty_mark (Z.to_nat empty))
                     (clamp_rating r) review)).
Proof.
  intros Hr Hv. unfold rating_report, get_property. cbn [truthy].
  rewrite Hr, Hv.
  assert (countable (clamp_rating r)
          /\ countable (number_sub (number_of_Z 5) (clamp_rating r)))
    as [Hc Hd].
  { destruct (clamp_rating_cases r)
      as [-> | [-> | [-> | (m & e & -> & -> & H1 & H5)]]].
    - split; exact I.
    - split; vm_compute; exact I.
    - split; vm_compute; exact I.
    - split; [exact I | now apply five_minus_countable]. }
  destruct (repeat_truncation filled_mark _ Hc) as (filled & Hf0 & Hf & ->).
  destruct (repeat_truncation empty_mark _ Hd) as (empty & He0 & He & ->).
  exists filled, empty. repeat split; assumption.
Qed.

End Counts.

(** ** The rating report *)

Lemma rating_report_whole props z review :
  rated props z review ->
  rating_report (JObject props)
  = Ok (Some (ratingReport
                (repeat_string filled_mark (Z.to_nat (clamp z))
                 ++ repeat_string empty_mark (Z.to_nat (5 - clamp z)))
                (number_of_Z (clamp z)) review)).
Proof.
  intros [Hrating Hreview]. unfold rating_report, get_property.
  cbn [truthy]. rewrite Hrating, Hreview, clamp_rating_of_Z. fold (clamp z).
  destruct (rating_marks (clamp z)) as [-> ->]; [unfold clamp; lia|].
  reflexivity.
Qed.

Section Rating.

Variable P : Platform.
Variable f : SourceFile.

(** C8 (as amended): whatever number the decoded rating [r] is, the
    report carries [c = Math.max(1, Math.min(5, r))], which is NaN when
    [r] is and otherwise lies between one and five.  The marks are [c]
    filled ones followed by [5 - c] empty ones, both counts cut down to
    whole numbers (towards zero, NaN counting as zero), [5 - c] being the
    binary64 difference.  When the rating is a whole number [z], these are
    [max(1, min(5, z))] filled marks and the marks missing to five,
    empty. *)
Theorem rateContent_rating_marks content w props r review w1 :
  content <> [] ->
  callGeminiWithRetry P f (ratingPrompt content) (json_config ratingSchema) w
  = (Ok (JObject props), w1) ->
  lookup_prop (utf16 "rating") props = JNumber r ->
  lookup_prop (utf16 "review") props = JString review ->
  ((r = JNaN /\ clamp_rating r = JNaN) \/ within_range (clamp_rating r))
  /\ (exists filled empty,
        (0 <= filled /\ 0 <= empty)%Z
        /\ truncation (clamp_rating r) filled
        /\ truncation (number_sub (number_of_Z 5) (clamp_rating r)) empty
        /\ rateContent P f content w
           = (Ok (JString
                    (ratingReport
                       (repeat_string filled_mark (Z.to_nat filled)
                        ++ repeat_string empty_mark (Z.to_nat empty))
                       (clamp_rating r) review)),
              w1))
  /\ (forall z, r = number_of_Z z ->
        rateContent P f content w
        = (Ok (JString
                 (ratingReport
                    (repeat_string filled_mark (Z.to_nat (clamp z))
                     ++ repeat_string empty_mark (Z.to_nat (5 - clamp z)))
                    (number_of_Z (clamp z)) review)),
           w1)).
Proof.
  intros Hne Hcall Hr Hv. apply is_empty_false in Hne.
  assert (forall report,
            rating_report (JObject props) = Ok (Some report) ->
            rateContent P f content w = (Ok (JString report), w1)) as Hrate.
  { intros report Hreport. unfold rateContent. rewrite Hne.
    unfold try_catch, bind at 1. rewrite Hcall. unfold bind, lift.
    now rewrite Hreport. }
  split; [apply clamp_rating_range|]. split.
  - destruct (rating_report_marks props r review Hr Hv)
      as (filled & empty & H0 & Hf & He & Hreport).
    exists filled, empty. repeat split; try tauto. now apply Hrate.
  - intros z ->. apply Hrate. apply rating_report_whole. now split.
Qed.

End Rating.

(** ** Only a prefix of the input is used *)

Lemma substring_prefix s n : substring s 0 n = prefix n s.
Proof.
  unfold substring, prefix. rewrite N.min_0_l, N.min_0_l, N.max_0_l, N.sub_0_r.
  change (skipn (N.to_nat 0) s) with s.
  destruct (N.le_ge_cases n (N.of_nat (length s))) as [Hle|Hge].
  - now rewrite N.min_l.
  - rewrite N.min_r, Nat2N.id by assumption.
    rewrite firstn_all. symmetry. apply firstn_all2. lia.
Qed.

Lemma prefix_is_empty n a b :
  (0 < n)%N -> prefix n a = prefix n b -> is_empty a = is_empty b.
Proof.
  unfold prefix. intros Hn. destruct (N.to_nat n) eqn:E; [lia|].
  destruct a, b; simpl; intros H; try reflexivity; discriminate H.
Qed.

Lemma prefix_shorter m n a b :
  (m <= n)%N -> prefix n a = prefix n b -> prefix m a = prefix m b.
Proof.
  unfold prefix. intros Hmn H.
  replace (N.to_nat m) with (Nat.min (N.to_nat m) (N.to_nat n)) by lia.
  rewrite <- !firstn_firstn. now rewrite H.
Qed.

Section Prefix.

Variable P : Platform.
Variable f : SourceFile.

(** C10 (as amended): each of the operations that cut their input uses
    only its first 8000, 4000 or 100000 code units: two inputs that agree
    on that prefix lead to the same requests, the same effects and the same
    result.  (The translations, the video description and the script do
    not cut their input; see [whole_input_decides] below.) *)
Theorem prefix_decides op n a b w :
  prefix_length op = Some n ->
  prefix n a = prefix n b ->
  invoke P f op a w = invoke P f op b w.
Proof.
  intros Hop Hpre.
  assert (0 < n)%N as Hpos
      by (destruct op; cbn [prefix_length] in Hop; try discriminate Hop;
          injection Hop as <-; reflexivity).
  pose proof (prefix_is_empty n a b Hpos Hpre) as Hempty.
  destruct op; cbn [prefix_length] in Hop; try discriminate Hop;
    injection Hop as <-; cbn [invoke].
  - (* analyzeTextContent: its own prompt and that of categorizeContent *)
    pose proof (prefix_shorter 8000 100000 a b ltac:(lia) Hpre) as Hpre'.
    unfold analyzeTextContent, categorizeContent, analysisPrompt,
      categoriesPrompt.
    now rewrite !substring_prefix, Hpre, Hpre', Hempty.
  - unfold categorizeContent, categoriesPrompt.
    now rewrite !substring_prefix, Hpre, Hempty.
  - unfold summarizeContent, summaryPrompt.
    now rewrite !substring_prefix, Hpre, Hempty.
  - unfold createQuiz, quizPrompt. now rewrite !substring_prefix, Hpre, Hempty.
  - unfold analyzeSentiment, sentimentPrompt.
    now rewrite !substring_prefix, Hpre, Hempty.
  - unfold extractKeywords, keywordsPrompt.
    now rewrite !substring_prefix, Hpre, Hempty.
  - unfold generateBookDescription, bookDescriptionPrompt.
    now rewrite !substring_prefix, Hpre, Hempty.
  - unfold extractBookTitle, bookTitlePrompt.
    now rewrite !substring_prefix, Hpre, Hempty.
  - unfold generateContentSuggestions, suggestionsPrompt.
    now rewrite !substring_prefix, Hpre, Hempty.
  - unfold designArticleFromContent, articlePrompt.
    now rewrite !substring_prefix, Hpre, Hempty.
  - unfold rateContent, ratingPrompt. now rewrite !substring_prefix, Hpre, Hempty.
Qed.

End Prefix.

(** The operations outside that list embed their whole input: the prompt
    determines the text. *)
Lemma translation_embeds_whole_input a b :
  translateToEnglishPrompt a = translateToEnglishPrompt b -> a = b.
Proof. unfold translateToEnglishPrompt. apply app_inv_head. Qed.

Lemma translateToArabicPrompt_inj a b :
  translateToArabicPrompt a = translateToArabicPrompt b -> a = b.
Proof. unfold translateToArabicPrompt. apply app_inv_head. Qed.

Lemma videoDescriptionPrompt_inj a b :
  videoDescriptionPrompt a = videoDescriptionPrompt b -> a = b.
Proof.
  unfold videoDescriptionPrompt. intros H.
  apply app_inv_head in H. apply app_inv_head in H.
  now apply app_inv_tail in H.
Qed.

Lemma scriptPrompt_inj description a b :
  scriptPrompt a description = scriptPrompt b description -> a = b.
Proof.
  unfold scriptPrompt. intros H.
  apply app_inv_head in H. apply app_inv_head in H.
  now apply app_inv_tail in H.
Qed.

(** So these operations tell apart any two inputs, wherever they differ:
    the requests they send are different. *)
Lemma whole_input_decides P f op a b w h w1 :
  prefix_length op = None ->
  a <> [] -> b <> [] ->
  getAiInstance P f w = (Ok h, w1) ->
  invoke P f op a w = invoke P f op b w -> a = b.
Proof.
  intros Hop Ha Hb Hget Heq.
  apply is_empty_false in Ha. apply is_empty_false in Hb.
  assert (forall pa pb cfg,
            snd (callGeminiWithRetry P f pa cfg w)
            = snd (callGeminiWithRetry P f pb cfg w) -> pa = pb) as Hsame.
  { intros pa pb cfg H.
    destruct (callGeminiWithRetry_sends P f h pa cfg w w1 Hget) as (ea & Hea).
    destruct (callGeminiWithRetry_sends P f h pb cfg w w1 Hget) as (eb & Heb).
    rewrite Hea, Heb in H. apply (f_equal trace) in H. cbn [extend trace] in H.
    apply app_inv_head in H. now injection H. }
  apply (f_equal snd) in Heq.
  destruct op; cbn [prefix_length] in Hop; try discriminate Hop;
    cbn [invoke] in Heq; rewrite !snd_settle in Heq.
  - unfold translateToEnglish in Heq. rewrite Ha, Hb in Heq.
    now apply translation_embeds_whole_input, (Hsame _ _ no_config).
  - unfold translateToArabic in Heq. rewrite Ha, Hb in Heq.
    now apply translateToArabicPrompt_inj, (Hsame _ _ no_config).
  - unfold generateVideoDescription in Heq. rewrite Ha, Hb in Heq.
    now apply videoDescriptionPrompt_inj, (Hsame _ _ no_config).
  - unfold generateScriptFromInfo in Heq.
    now apply (scriptPrompt_inj description), (Hsame _ _ no_config).
Qed.

Lemma length_repeat_string c n : length (repeat_string [c] n) = n.
Proof. induction n as [|n IH]; simpl; congruence. Qed.

Lemma prefix_app_exact n l r :
  N.to_nat n = length l -> prefix n (l ++ r) = l.
Proof.
  intros H. unfold prefix. rewrite H, firstn_app, Nat.sub_diag, firstn_all.
  simpl. apply app_nil_r.
Qed.

(* ===================================================================== *)
(** * Concrete scenarios *)
(* ===================================================================== *)

(** A service that fails the first three requests and would answer the
    fourth, called from a process that has a stored key. *)
Lemma three_attempts_witness :
  fst (callGeminiWithRetry flaky_remote GeminiService hello no_config
         stored_key_world)
  = Throw (on_exhaustion GeminiService fetch_failure)
  /\ exists evs,
       snd (callGeminiWithRetry flaky_remote GeminiService hello no_config
              stored_key_world)
       = extend (snd (getAiInstance flaky_remote GeminiService
                        stored_key_world)) evs
       /\ List.filter wire evs
          = [ EvGenerateContent (mkHandle 2 stored_key)
                (mkRequest gemini_model hello (Some no_config));
              EvSleep 1000;
              EvGenerateContent (mkHandle 2 stored_key)
                (mkRequest gemini_model hello (Some no_config));
              EvSleep 1000;
              EvGenerateContent (mkHandle 2 stored_key)
                (mkRequest gemini_model hello (Some no_config)) ].
Proof.
  apply (three_attempts_then_exhaustion flaky_remote GeminiService
           (mkHandle 2 stored_key) hello no_config stored_key_world
           (snd (getAiInstance flaky_remote GeminiService stored_key_world))
           fetch_failure fetch_failure fetch_failure).
  - vm_compute. reflexivity.
  - vm_compute. reflexivity.
  - vm_compute. reflexivity.
  - vm_compute. reflexivity.
Defined.

(** The same service answers the call that is made next: its fourth
    request succeeds. *)
Example flaky_remote_answers_the_fourth_request :
  fst (callGeminiWithRetry flaky_remote GeminiService hello no_config
         (snd (callGeminiWithRetry flaky_remote GeminiService hello no_config
                 stored_key_world)))
  = Ok (JString hello).
Proof. vm_compute. reflexivity. Qed.



(** A first success in [part_000], then some activity, then a further
    call. *)
Lemma getAiInstance_memoized_witness :
  getAiInstance unreachable_remote Part000
    (run unreachable_remote Part000 later_calls
       (snd (getAiInstance unreachable_remote Part000 stored_key_world)))
  = (Ok (mkHandle 1 stored_key),
     run unreachable_remote Part000 later_calls
       (snd (getAiInstance unreachable_remote Part000 stored_key_world)))
  /\ handles_made
       (trace (run unreachable_remote Part000 later_calls
                 (snd (getAiInstance unreachable_remote Part000 stored_key_world))))
     = handles_made
         (trace (snd (getAiInstance unreachable_remote Part000 stored_key_world))).
Proof.
  apply (getAiInstance_memoized unreachable_remote Part000 stored_key_world
           (mkHandle 1 stored_key)
           (snd (getAiInstance unreachable_remote Part000 stored_key_world))).
  vm_compute. reflexivity.
Defined.

(** C3, on [src/services/geminiService.ts]: a stored key that the
    constructor rejects makes [getAiInstance] throw the initialization
    error, but the key stays in [localStorage], and the next call tries the
    same key again.  [part_000] removes it, and its next call reports a
    missing credential without constructing anything. *)
Theorem geminiService_keeps_rejected_key :
  let first := getAiInstance strict_constructor GeminiService stored_key_world in
  let second := getAiInstance strict_constructor GeminiService (snd first) in
  let first' := getAiInstance strict_constructor Part000 stored_key_world in
  let second' := getAiInstance strict_constructor Part000 (snd first') in
  fst first = Throw InitializationFailed
  /\ localStorage (snd first) = Storage {[ gemini_api_key := stored_key ]}
  /\ fst second = Throw InitializationFailed
  /\ constructions (trace (snd second))
     = [EvConstruct stored_key false; EvConstruct stored_key false]
  /\ fst first' = Throw InitializationFailed
  /\ localStorage (snd first') = Storage ∅
  /\ fst second' = Throw CredentialMissing
  /\ constructions (trace (snd second')) = [EvConstruct stored_key false].
Proof. vm_compute. repeat split. Qed.

(** [rateContent] on the empty string returns its placeholder and does
    nothing. *)
Lemma empty_input_witness :
  invoke unreachable_remote GeminiService RateContent [] stored_key_world
  = (Resolved (JString rating_placeholder), stored_key_world).
Proof.
  exact (proj1 (empty_input unreachable_remote GeminiService RateContent
                  stored_key_world) _ eq_refl).
Defined.

(** C4, counterexample: on the empty string [analyzeSentiment] throws
    rather than returning a default, and [summarizeContent] yields nothing
    and throws when there is no credential. *)
Lemma empty_input_without_default :
  fst (invoke unreachable_remote GeminiService AnalyzeSentiment [] stored_key_world)
  = Rejected NoSentimentContent
  /\ fst (invoke unreachable_remote GeminiService SummarizeContent [] no_key_world)
     = Yielded [] (Some CredentialMissing).
Proof. split; vm_compute; reflexivity. Qed.

(** C5, counterexample: without a credential, [categorizeContent] returns
    the empty array and [rateContent] throws its own error; neither lets
    the credential-missing error through. *)
Lemma credential_missing_is_swallowed :
  fst (getAiInstance unreachable_remote Part000 no_key_world)
  = Throw CredentialMissing
  /\ fst (invoke unreachable_remote Part000 CategorizeContent hello no_key_world)
     = Resolved (JArray [])
  /\ fst (invoke unreachable_remote Part000 RateContent hello no_key_world)
     = Rejected RatingFailed
  /\ RatingFailed <> CredentialMissing.
Proof.
  repeat split; try (vm_compute; reflexivity).
  intros H. vm_compute in H. discriminate H.
Qed.

(** A translation in a process with no credential. *)
Lemma credential_missing_surfaces_witness :
  fst (invoke unreachable_remote Part000 TranslateToEnglish hello no_key_world)
  = Rejected CredentialMissing
  /\ exists evs,
       snd (invoke unreachable_remote Part000 TranslateToEnglish hello no_key_world)
       = extend no_key_world evs /\ quiet evs.
Proof.
  apply (credential_missing_surfaces unreachable_remote Part000
           TranslateToEnglish hello no_key_world
           (snd (getAiInstance unreachable_remote Part000 no_key_world))).
  - discriminate.
  - vm_compute. reflexivity.
Defined.

(** The example of the specification. *)
Lemma fenced_decodes_like_plain_witness :
  decode_structured (fenced array_a_b) no_key_world
  = decode_structured array_a_b no_key_world.
Proof.
  apply (fenced_decodes_like_plain array_a_b no_key_world); reflexivity.
Defined.

Example decode_array_a_b :
  fst (decode_structured (fenced array_a_b) no_key_world)
  = Ok (JArray [JString (utf16 "a"); JString (utf16 "b")]).
Proof. vm_compute. reflexivity. Qed.

(** C6, counterexample: the text [1```] decodes to the number 1, but its
    fenced version keeps the inner marker and fails to parse. *)
Lemma fenced_text_with_own_fence :
  fst (decode_structured (utf16 "1```") no_key_world)
  = Ok (JNumber (number_of_Z 1))
  /\ fst (decode_structured (fenced (utf16 "1```")) no_key_world)
     = Throw MalformedStructuredResponse.
Proof. split; vm_compute; reflexivity. Qed.

(** C7, counterexample: a decoded item whose answer index is 1.5, a number
    but no integer, is not rejected; [createQuiz] returns the array. *)
Lemma createQuiz_accepts_fractional_index :
  JSON_parse fractional_quiz_text = Some fractional_quiz
  /\ is_integer one_and_a_half = false
  /\ fst (createQuiz (answering fractional_quiz_text) GeminiService hello
            (number_of_Z 1) stored_key_world)
     = Ok fractional_quiz.
Proof. repeat split; vm_compute; reflexivity. Qed.

(** The quiz with the fractional index, as [createQuiz] treats it. *)
Lemma createQuiz_checks_witness :
  (forall v,
     fst (createQuiz (answering fractional_quiz_text) GeminiService hello
            (number_of_Z 1) stored_key_world) = Ok v <->
     v = fractional_quiz
     /\ exists items, fractional_quiz = JArray items
                      /\ Forall well_formed_question items)
  /\ ((forall items, fractional_quiz <> JArray items) ->
      fst (createQuiz (answering fractional_quiz_text) GeminiService hello
             (number_of_Z 1) stored_key_world) = Throw MalformedQuiz)
  /\ (forall items, fractional_quiz = JArray items ->
        Forall readable items ->
        ~ Forall well_formed_question items ->
        fst (createQuiz (answering fractional_quiz_text) GeminiService hello
               (number_of_Z 1) stored_key_world) = Throw MalformedQuiz).
Proof.
  apply (createQuiz_checks (answering fractional_quiz_text) GeminiService hello
           (number_of_Z 1) stored_key_world fractional_quiz
           (snd (callGeminiWithRetry (answering fractional_quiz_text)
                   GeminiService (quizPrompt hello (number_of_Z 1))
                   (json_config quizSchema) stored_key_world))).
  - discriminate.
  - vm_compute. reflexivity.
Defined.

(** C8, counterexample: a rating of 2.5 is within range and stays 2.5, and
    the report shows two filled and two empty marks: neither 2.5 marks nor
    five marks in all. *)
Lemma rateContent_fractional_rating :
  JSON_parse (utf16 "2.5") = Some (JNumber two_and_a_half)
  /\ clamp_rating two_and_a_half = two_and_a_half
  /\ is_integer two_and_a_half = false
  /\ fst (rateContent (answering (rating_text "2.5")) GeminiService hello
            stored_key_world)
     = Ok (JString (ratingReport (utf16 "★★☆☆") two_and_a_half (utf16 "ok"))).
Proof. repeat split; vm_compute; reflexivity. Qed.

(** The example of the specification: a raw rating of 7 gives five filled
    marks and no empty one. *)
Lemma rateContent_rating_marks_witness :
  ((number_of_Z 7 = JNaN /\ clamp_rating (number_of_Z 7) = JNaN)
   \/ within_range (clamp_rating (number_of_Z 7)))
  /\ (exists filled empty,
        (0 <= filled /\ 0 <= empty)%Z
        /\ truncation (clamp_rating (number_of_Z 7)) filled
        /\ truncation (number_sub (number_of_Z 5) (clamp_rating (number_of_Z 7)))
             empty
        /\ rateContent (answering (rating_text "7")) GeminiService hello
             stored_key_world
           = (Ok (JString
                    (ratingReport
                       (repeat_string filled_mark (Z.to_nat filled)
                        ++ repeat_string empty_mark (Z.to_nat empty))
                       (clamp_rating (number_of_Z 7)) (utf16 "ok"))),
              snd (callGeminiWithRetry (answering (rating_text "7"))
                     GeminiService (ratingPrompt hello)
                     (json_config ratingSchema) stored_key_world)))
  /\ (forall z, number_of_Z 7 = number_of_Z z ->
        rateContent (answering (rating_text "7")) GeminiService hello
          stored_key_world
        = (Ok (JString
                 (ratingReport
                    (repeat_string filled_mark (Z.to_nat (clamp z))
                     ++ repeat_string empty_mark (Z.to_nat (5 - clamp z)))
                    (number_of_Z (clamp z)) (utf16 "ok"))),
           snd (callGeminiWithRetry (answering (rating_text "7"))
                  GeminiService (ratingPrompt hello)
                  (json_config ratingSchema) stored_key_world))).
Proof.
  apply (rateContent_rating_marks (answering (rating_text "7")) GeminiService
           hello stored_key_world
           [ (utf16 "rating", JNumber (number_of_Z 7));
             (utf16 "review", JString (utf16 "ok")) ]
           (number_of_Z 7) (utf16 "ok")).
  - discriminate.
  - vm_compute. reflexivity.
  - vm_compute. reflexivity.
  - vm_compute. reflexivity.
Defined.

Example rating_of_seven :
  fst (rateContent (answering (rating_text "7")) GeminiService hello
         stored_key_world)
  = Ok (JString (ratingReport (utf16 "★★★★★") (number_of_Z 5) (utf16 "ok"))).
Proof. vm_compute. reflexivity. Qed.

(** C10, counterexample: two texts that agree on their first 100000 code
    units and differ in the next one; [translateToEnglish] embeds the whole
    text and sends a different request for each. *)
Lemma translation_sends_whole_input :
  prefix 100000 (longer_text 120) = prefix 100000 (longer_text 121)
  /\ invoke (answering hello) GeminiService TranslateToEnglish (longer_text 120)
       stored_key_world
     <> invoke (answering hello) GeminiService TranslateToEnglish (longer_text 121)
          stored_key_world.
Proof.
  assert (forall last, longer_text last <> []) as Hne.
  { intros last H. symmetry in H. exact (app_cons_not_nil _ _ _ H). }
  split.
  - unfold longer_text.
    rewrite !prefix_app_exact by (symmetry; apply length_repeat_string).
    reflexivity.
  - intros H.
    apply (whole_input_decides (answering hello) GeminiService TranslateToEnglish
             _ _ stored_key_world (mkHandle 2 stored_key)
             (snd (getAiInstance (answering hello) GeminiService stored_key_world))
             eq_refl (Hne _) (Hne _)) in H; [|vm_compute; reflexivity].
    unfold longer_text in H. apply app_inv_head in H. discriminate H.
Qed.

(** Two texts that agree on their first 4000 code units, given to
    [extractBookTitle]. *)
Lemma prefix_decides_witness :
  invoke (answering hello) Part000 ExtractBookTitle (long_text 120)
    stored_key_world
  = invoke (answering hello) Part000 ExtractBookTitle (long_text 121)
      stored_key_world.
Proof.
  apply (prefix_decides (answering hello) Part000 ExtractBookTitle 4000
           (long_text 120) (long_text 121) stored_key_world).
  - reflexivity.
  - vm_compute. reflexivity.
Defined.

(* ===================================================================== *)
(** * Further properties *)
(* ===================================================================== *)

(** ** Which key [getAiInstance] uses *)

Section Credentials.

Variable P : Platform.

(** X1: without a cached client, [getAiInstance] settles on one key:
    in [geminiService.ts] the non-empty [process.env.API_KEY], else the
    non-empty stored key; in [part_000] the stored key alone.  With no
    such key it throws the credential-missing error and constructs
    nothing.  With one it calls the constructor once, with that key, and
    either caches and returns the handle made from it or throws the
    initialization error and caches nothing. *)
Theorem getAiInstance_resolution f w :
  ai w = None ->
  exists evs,
    trace (snd (getAiInstance P f w)) = trace w ++ evs
    /\ match resolved_key f w with
       | None =>
           fst (getAiInstance P f w) = Throw CredentialMissing
           /\ List.filter is_construction evs = []
       | Some k =>
           exists accepted,
             List.filter is_construction evs = [EvConstruct k accepted]
             /\ if accepted
                then exists h, fst (getAiInstance P f w) = Ok h
                               /\ handle_apiKey h = k
                               /\ ai (snd (getAiInstance P f w)) = Some h
                else fst (getAiInstance P f w) = Throw InitializationFailed
                     /\ ai (snd (getAiInstance P f w)) = None
       end.
Proof.
  intros Hai. destruct w as [cached env store tr]; simpl in Hai; subst cached.
  destruct f; unfold resolved_key, stored_credential; unfold_getAiInstance; simpl.
  all: split_matches.
  all: eexists; (split; [rewrite <- ?app_assoc; reflexivity|]).
  all: simpl.
  all: try (split; reflexivity).
  all: try discriminate.
  all: try (eexists; split; [reflexivity|]; simpl; eauto).
Qed.

(** X2: in [geminiService.ts], when the environment holds a non-empty
    key, [localStorage] plays no part: whatever it holds, the call gives
    the same result, leaves the same trace, and leaves the store as it
    found it. *)
Theorem env_key_skips_localStorage w k store :
  ai w = None -> process_env w = EnvValue k -> k <> [] ->
  getAiInstance P GeminiService (with_store store w)
  = (fst (getAiInstance P GeminiService w),
     with_store store (snd (getAiInstance P GeminiService w))).
Proof.
  intros Hai Henv Hk. destruct k as [|c k]; [now destruct Hk|].
  destruct w as [cached env st tr]; simpl in *; subst cached env.
  unfold with_store; unfold_getAiInstance; simpl.
  destruct (GoogleGenAI_accepts P (tr ++ [EvReadEnv]) (c :: k)); reflexivity.
Qed.

Lemma getAiInstance_failure_kinds f w e w1 :
  getAiInstance P f w = (Throw e, w1) ->
  e = CredentialMissing \/ e = InitializationFailed.
Proof.
  destruct w as [cached env store tr]. revert w1.
  destruct f; unfold_getAiInstance; simpl; intros w1.
  all: split_matches.
  all: intros H; try discriminate H.
  all: injection H as <- _.
  all: lazymatch goal with
       | |- CredentialMissing = _ \/ _ => left
       | |- _ => right
       end; reflexivity.
Qed.

Lemma getAiInstance_throws_uncached f w e w1 :
  getAiInstance P f w = (Throw e, w1) -> ai w1 = None.
Proof.
  intros H. destruct (ai w) as [h|] eqn:Hai.
  - rewrite (getAiInstance_cached P f w h Hai) in H. discriminate H.
  - pose proof (getAiInstance_fresh P f w Hai) as Hf. rewrite H in Hf. tauto.
Qed.

(** X4: [getAiInstance] fails in two ways only, with the
    credential-missing error or with the initialization error; a failed
    call caches no client, leaves the environment alone, sends nothing and
    waits for nothing. *)
Theorem getAiInstance_failure f w e w1 :
  getAiInstance P f w = (Throw e, w1) ->
  (e = CredentialMissing \/ e = InitializationFailed)
  /\ ai w1 = None
  /\ process_env w1 = process_env w
  /\ exists evs, trace w1 = trace w ++ evs /\ quiet evs.
Proof.
  destruct w as [cached env store tr]. revert w1.
  destruct f; unfold_getAiInstance; unfold quiet; simpl; intros w1.
  all: split_matches.
  all: intros H; try discriminate H.
  all: injection H as <- <-.
  all: split;
    [ lazymatch goal with
      | |- CredentialMissing = _ \/ _ => left
      | |- _ => right
      end; reflexivity |].
  all: split; [reflexivity|]; split; [reflexivity|].
  all: eexists; split; [rewrite <- ?app_assoc; reflexivity | reflexivity].
Qed.

(** X5: a failure is not final.  Once the application has put a key in
    place that [getAiInstance] settles on and that the constructor
    accepts, the next call returns a handle made from that key and caches
    it. *)
Theorem getAiInstance_recovers f w e w1 env store k :
  getAiInstance P f w = (Throw e, w1) ->
  let w2 := exec P f (Outside env store) w1 in
  resolved_key f w2 = Some k ->
  (forall past, GoogleGenAI_accepts P past k = true) ->
  exists h, fst (getAiInstance P f w2) = Ok h /\ handle_apiKey h = k
            /\ ai (snd (getAiInstance P f w2)) = Some h.
Proof.
  intros Hfail w2 Hkey Hacc.
  apply getAiInstance_throws_uncached in Hfail.
  subst w2. cbn [exec] in *. rewrite Hfail in *.
  revert Hkey. generalize (trace w1). intros tr. clear Hfail w w1 e.
  unfold resolved_key, stored_credential. cbn [process_env localStorage].
  destruct f; unfold_getAiInstance; simpl.
  all: split_matches.
  all: intros Hk; simplify_eq.
  all: try (rewrite Hacc in *; simplify_eq).
  all: eexists; repeat split; reflexivity.
Qed.

End Credentials.

(** ** [part_000] does not look at the environment *)

Lemma env_blind_ret {A} (a : A) : env_blind (ret a).
Proof. intros env w. reflexivity. Qed.

Lemma env_blind_throw {A} e : env_blind (@throw A e).
Proof. intros env w. reflexivity. Qed.

Lemma env_blind_lift {A} (r : result A) : env_blind (lift r).
Proof. intros env w. reflexivity. Qed.

Lemma env_blind_bind {A B} (m : M A) (k : A -> M B) :
  env_blind m -> (forall a, env_blind (k a)) -> env_blind (bind m k).
Proof.
  intros Hm Hk env w. unfold bind. rewrite Hm.
  destruct (m w) as [[a|e] w1]; cbn [fst snd]; [apply Hk | reflexivity].
Qed.

Lemma env_blind_try_catch {A} (m : M A) (h : Thrown -> M A) :
  env_blind m -> (forall e, env_blind (h e)) -> env_blind (try_catch m h).
Proof.
  intros Hm Hh env w. unfold try_catch. rewrite Hm.
  destruct (m w) as [[a|e] w1]; cbn [fst snd]; [reflexivity | apply Hh].
Qed.

Lemma env_blind_emit ev : env_blind (emit ev).
Proof. intros env w. reflexivity. Qed.

Lemma env_blind_console lvl s : env_blind (console lvl s).
Proof. intros env w. reflexivity. Qed.

Lemma env_blind_get_ai : env_blind get_ai.
Proof. intros env w. reflexivity. Qed.

Lemma env_blind_set_ai h : env_blind (set_ai h).
Proof. intros env w. reflexivity. Qed.

Lemma env_blind_history : env_blind history.
Proof. intros env w. reflexivity. Qed.

Lemma env_blind_getItem key : env_blind (localStorage_getItem key).
Proof.
  intros env w. unfold localStorage_getItem, bind, emit. simpl.
  destruct (localStorage w); reflexivity.
Qed.

Lemma env_blind_removeItem key : env_blind (localStorage_removeItem key).
Proof.
  intros env w. unfold localStorage_removeItem, bind, emit. simpl.
  destruct (localStorage w); reflexivity.
Qed.

Create HintDb blind.
#[local] Hint Resolve env_blind_ret env_blind_throw env_blind_lift env_blind_emit
  env_blind_console env_blind_get_ai env_blind_set_ai env_blind_history
  env_blind_getItem env_blind_removeItem : blind.

Ltac blind_step :=
  match goal with
  | |- env_blind (bind _ _) =>
      apply env_blind_bind; [eauto with blind .. | | intros]
  | |- env_blind (try_catch _ _) =>
      apply env_blind_try_catch; [eauto with blind .. | | intros]
  | |- env_blind (if ?b then _ else _) => destruct b
  | |- env_blind (match ?x with _ => _ end) => destruct x
  | |- env_blind (let _ := _ in _) => cbv zeta
  | |- env_blind _ => solve [eauto with blind]
  end.

Ltac blind_all := repeat blind_step.

Section Part000.

Variable P : Platform.

Lemma env_blind_construct_client k on_failure :
  env_blind on_failure -> env_blind (construct_client P k on_failure).
Proof. intros H. unfold construct_client. blind_all. Qed.

Lemma env_blind_getAiInstance : env_blind (getAiInstance P Part000).
Proof.
  unfold getAiInstance, getAiInstance_Part000. blind_all.
  apply env_blind_construct_client. blind_all.
Qed.
#[local] Hint Resolve env_blind_getAiInstance : blind.

Lemma env_blind_decode t : env_blind (decode_structured t).
Proof. unfold decode_structured. blind_all. Qed.
#[local] Hint Resolve env_blind_decode : blind.

Lemma env_blind_attempt h prompt cfg : env_blind (attempt P h prompt cfg).
Proof. unfold attempt. blind_all. Qed.
#[local] Hint Resolve env_blind_attempt : blind.

Lemma env_blind_retry_loop f n h prompt cfg :
  env_blind (retry_loop P f n h prompt cfg).
Proof. induction n as [|n IH]; simpl; blind_all. Qed.
#[local] Hint Resolve env_blind_retry_loop : blind.

Lemma env_blind_callGeminiWithRetry prompt cfg :
  env_blind (callGeminiWithRetry P Part000 prompt cfg).
Proof. unfold callGeminiWithRetry. blind_all. Qed.
#[local] Hint Resolve env_blind_callGeminiWithRetry : blind.

Lemma env_blind_categorizeContent content :
  env_blind (categorizeContent P Part000 content).
Proof. unfold categorizeContent. blind_all. Qed.
#[local] Hint Resolve env_blind_categorizeContent : blind.

Lemma env_blind_analyzeTextContent content :
  env_blind (analyzeTextContent P Part000 content).
Proof.
  unfold analyzeTextContent. destruct (is_empty content); [blind_all|].
  intros env w. rewrite env_blind_callGeminiWithRetry.
  destruct (callGeminiWithRetry P Part000 (analysisPrompt content) no_config w)
    as [a w1]. cbn [fst snd].
  rewrite env_blind_categorizeContent.
  destruct (categorizeContent P Part000 content w1) as [c w2]. cbn [fst snd].
  destruct a, c; reflexivity.
Qed.

Lemma summarizeContent_env_blind content env w :
  summarizeContent P Part000 content (with_env env w)
  = (fst (summarizeContent P Part000 content w),
     with_env env (snd (summarizeContent P Part000 content w))).
Proof.
  unfold summarizeContent. rewrite env_blind_getAiInstance.
  destruct (getAiInstance P Part000 w) as [[h|e] w1]; cbn [fst snd];
    [|reflexivity].
  destruct (is_empty content); [reflexivity|].
  cbn [with_env trace].
  destruct (generateContentStream P (trace w1) h _) as [e|chunks [e|]];
    reflexivity.
Qed.

Lemma settle_env_blind (m : M JSValue) env w :
  env_blind m ->
  settle (m (with_env env w))
  = (fst (settle (m w)), with_env env (snd (settle (m w)))).
Proof.
  intros H. rewrite H. destruct (m w) as [[v|e] w1]; reflexivity.
Qed.

(** X3: [part_000] uses [localStorage] only: whatever the environment
    holds, every operation gives the same result, does the same, and
    leaves the environment in place. *)
Theorem part000_ignores_environment op input env w :
  invoke P Part000 op input (with_env env w)
  = (fst (invoke P Part000 op input w),
     with_env env (snd (invoke P Part000 op input w))).
Proof.
  destruct op; cbn [invoke].
  - apply settle_env_blind, env_blind_analyzeTextContent.
  - apply settle_env_blind, env_blind_categorizeContent.
  - rewrite summarizeContent_env_blind.
    destruct (summarizeContent P Part000 input w); reflexivity.
  - apply settle_env_blind. unfold createQuiz. blind_all.
  - apply settle_env_blind. unfold analyzeSentiment. blind_all.
  - apply settle_env_blind. unfold extractKeywords. blind_all.
  - apply settle_env_blind. unfold translateToEnglish. blind_all.
  - apply settle_env_blind. unfold translateToArabic. blind_all.
  - apply settle_env_blind. unfold generateBookDescription. blind_all.
  - apply settle_env_blind. unfold generateVideoDescription. blind_all.
  - apply settle_env_blind. unfold extractBookTitle. blind_all.
  - apply settle_env_blind. unfold generateScriptFromInfo. blind_all.
  - apply settle_env_blind. unfold generateContentSuggestions. blind_all.
  - apply settle_env_blind. unfold designArticleFromContent. blind_all.
  - apply settle_env_blind. unfold rateContent. blind_all.
Qed.

End Part000.

(** ** What [callGeminiWithRetry] returns and throws *)

Lemma curated_ConnectionExhausted : curated ConnectionExhausted.
Proof. do 2 eexists; split; [reflexivity | vm_compute; reflexivity]. Qed.

Lemma curated_CredentialMissing : curated CredentialMissing.
Proof. do 2 eexists; split; [reflexivity | vm_compute; reflexivity]. Qed.

Lemma curated_InitializationFailed : curated InitializationFailed.
Proof. do 2 eexists; split; [reflexivity | vm_compute; reflexivity]. Qed.

Lemma curated_StreamingFailed : curated StreamingFailed.
Proof. do 2 eexists; split; [reflexivity | vm_compute; reflexivity]. Qed.

Lemma on_exhaustion_curated f err : curated (on_exhaustion f err).
Proof.
  destruct err as [name message|v]; [|exact curated_ConnectionExhausted].
  destruct f; cbn [on_exhaustion].
  - fold (has_marker message).
    destruct (has_marker message
              || jsstring_eqb message (utf16 "API_KEY_MISSING")) eqn:Hm.
    + exists name, message. split; [reflexivity | exact Hm].
    + exact curated_ConnectionExhausted.
  - fold (has_key_marker message). fold (has_marker message).
    destruct (has_key_marker message); [exact curated_CredentialMissing|].
    destruct (has_marker message) eqn:Hm; [|exact curated_ConnectionExhausted].
    exists name, message. split; [reflexivity|]. now rewrite Hm.
Qed.

Lemma getAiInstance_curated P f w e :
  fst (getAiInstance P f w) = Throw e -> curated e.
Proof.
  intros H. destruct (getAiInstance P f w) as [r w1] eqn:Hg. cbn [fst] in H.
  subst r. apply getAiInstance_failure_kinds in Hg as [-> | ->];
    [exact curated_CredentialMissing | exact curated_InitializationFailed].
Qed.

Section Wrapper.

Variable P : Platform.
Variable f : SourceFile.
Variable prompt : jsstring.
Variable cfg : Config.

(** A successful attempt had a response with something in it, and returns
    that text as it is or, for a structured request, what it decodes
    to. *)
Lemma attempt_ok h w v :
  fst (attempt P h prompt cfg w) = Ok v ->
  exists t,
    generateContent P (trace w) h
      {| model := gemini_model; contents := prompt; config := Some cfg |}
    = Responds (Some t)
    /\ is_empty (trim t) = false
    /\ if wants_json cfg
       then JSON_parse (cleanedJsonString t) = Some v
       else v = JString t.
Proof.
  unfold attempt, bind, history, emit. cbn [fst snd trace].
  destruct (generateContent P (trace w) h _) as [e|[t|]]; try discriminate.
  destruct (is_empty t || is_empty (trim t)) eqn:Hblank; [discriminate|].
  apply orb_false_elim in Hblank as [_ Htrim].
  intros H. exists t. split; [reflexivity|]. split; [exact Htrim|].
  destruct (wants_json cfg).
  - unfold decode_structured in H.
    destruct (is_empty (cleanedJsonString t)); [discriminate H|].
    destruct (JSON_parse (cleanedJsonString t)); [|discriminate H].
    now injection H as ->.
  - now injection H as ->.
Qed.

(** The loop returns what its first successful attempt returns, and stops
    there: that attempt follows some failed rounds, and nothing follows
    it. *)
Lemma retry_loop_first_success h n w v :
  fst (retry_loop P f n h prompt cfg w) = Ok v ->
  exists k before,
    (k < n)%nat
    /\ List.filter wire before
       = failed_rounds
           (EvGenerateContent h
              {| model := gemini_model; contents := prompt; config := Some cfg |})
           k
    /\ attempt P h prompt cfg (extend w before)
       = (Ok v, snd (retry_loop P f n h prompt cfg w)).
Proof.
  revert w. induction n as [|n IH]; intros w; [discriminate|].
  rewrite retry_loop_step.
  destruct (attempt_extends P h prompt cfg w) as (evs1 & Hw1 & Hq1).
  destruct (attempt P h prompt cfg w) as [[v'|e] w1] eqn:Ha.
  - intros [= <-]. exists 0%nat, []. split; [lia|]. split; [reflexivity|].
    now rewrite extend_nil, Ha.
  - destruct n as [|n]; [discriminate|].
    cbn [snd] in Hw1. subst w1. rewrite extend_extend. intros H.
    destruct (IH _ H) as (k & before & Hk & Hf & Hv).
    rewrite extend_extend in Hv.
    exists (S k). eexists. split; [lia|]. split; [|exact Hv].
    cbn [failed_rounds]. simpl. rewrite !List.filter_app, Hq1, Hf. reflexivity.
Qed.

(** A successful attempt leaves nothing behind but its request. *)
Lemma attempt_ok_world h w v :
  fst (attempt P h prompt cfg w) = Ok v ->
  snd (attempt P h prompt cfg w)
  = extend w [EvGenerateContent h
                {| model := gemini_model; contents := prompt;
                   config := Some cfg |}].
Proof.
  unfold attempt, bind, history, emit. cbn [fst snd trace].
  destruct (generateContent P (trace w) h _) as [e|[t|]]; try discriminate.
  destruct (is_empty t || is_empty (trim t)); [discriminate|].
  destruct (wants_json cfg); [|reflexivity].
  unfold decode_structured.
  destruct (is_empty (cleanedJsonString t)); [discriminate|].
  destruct (JSON_parse (cleanedJsonString t)); [reflexivity | discriminate].
Qed.

(** X6: a value that the wrapper returns is the answer to the last request
    of the call.  The call ends with a request made through the client it
    obtained, which is the cached one, for this very prompt and
    configuration; to that request, after the history that led to it, the
    remote capability answered a text with something in it besides white
    space; and the value is that text as it was received, untrimmed, or,
    for a structured request, what its cleaned text decodes to. *)
Theorem callGeminiWithRetry_returns w v :
  fst (callGeminiWithRetry P f prompt cfg w) = Ok v ->
  exists h earlier t,
    let request :=
      {| model := gemini_model; contents := prompt; config := Some cfg |} in
    fst (getAiInstance P f w) = Ok h
    /\ ai (snd (callGeminiWithRetry P f prompt cfg w)) = Some h
    /\ trace (snd (callGeminiWithRetry P f prompt cfg w))
       = (trace w ++ earlier) ++ [EvGenerateContent h request]
    /\ generateContent P (trace w ++ earlier) h request = Responds (Some t)
    /\ trim t <> []
    /\ if wants_json cfg
       then JSON_parse (cleanedJsonString t) = Some v
       else v = JString t.
Proof.
  intros H.
  destruct (getAiInstance_trace P f w) as (evs0 & Htr & _).
  destruct (getAiInstance P f w) as [[h|e] w1] eqn:Hget;
    [|unfold callGeminiWithRetry, bind in H; rewrite Hget in H; discriminate H].
  cbn [snd] in Htr.
  pose proof (getAiInstance_caches P f w h w1 Hget) as Hai.
  rewrite (callGeminiWithRetry_with_handle P f h prompt cfg w w1 Hget) in *.
  destruct (retry_loop_first_success h 3 w1 v H) as (k & before & _ & _ & Hv).
  pose proof (f_equal fst Hv) as Hres. pose proof (f_equal snd Hv) as Hend.
  cbn [fst snd] in Hres, Hend.
  rewrite (attempt_ok_world h _ v Hres) in Hend.
  destruct (attempt_ok h _ v Hres) as (t & Hg & Ht & Hdec).
  cbn [extend trace] in Hg. rewrite Htr, <- app_assoc in Hg.
  exists h, (evs0 ++ before), t. cbv zeta. rewrite <- Hend.
  cbn [extend ai trace]. rewrite Htr, <- !app_assoc.
  repeat split; try assumption; try reflexivity.
  intros Hnil. rewrite Hnil in Ht. discriminate Ht.
Qed.


(** X8: whatever the wrapper throws is an Error object whose message is
    the credential sentinel or contains one of the three markers
    ("Gemini API", "استجابة فارغة", "JSON"): a failure of the transport,
    or a thrown value that is no Error, never reaches the caller as it
    is. *)
Theorem callGeminiWithRetry_errors_are_curated w e :
  fst (callGeminiWithRetry P f prompt cfg w) = Throw e -> curated e.
Proof.
  unfold callGeminiWithRetry, bind.
  pose proof (getAiInstance_curated P f w) as Hg.
  destruct (getAiInstance P f w) as [[h|e0] w1].
  - intros H. destruct (retry_loop_last P f h prompt cfg 2 w1 e H)
      as (_ & terminal & _ & _ & -> & _).
    apply on_exhaustion_curated.
  - intros [= <-]. now apply Hg.
Qed.

End Wrapper.

(** ** A marker that is not the opening marker *)

Lemma JSON_parse_backtick s : JSON_parse (96 :: s) = None.
Proof. unfold JSON_parse. vm_compute. reflexivity. Qed.

Lemma trimStart_strip_closing_fence text r :
  trimStart text = 96 :: r ->
  trimStart (strip_closing_fence text) = []
  \/ exists r', trimStart (strip_closing_fence text) = 96 :: r'.
Proof.
  induction text as [|c text IH]; [discriminate|].
  cbn [trimStart]. destruct (is_space c) eqn:Hc.
  - intros H. rewrite strip_closing_fence_cons.
    assert (closing_fence_here (c :: text) = false) as ->.
    { unfold closing_fence_here. rewrite fence_close_units. cbn [strip_prefix].
      destruct (96 =? c) eqn:E; [|reflexivity].
      apply N.eqb_eq in E. subst c. discriminate Hc. }
    cbn [trimStart]. rewrite Hc. now apply IH.
  - intros [= -> ->]. rewrite strip_closing_fence_cons.
    destruct (closing_fence_here (96 :: r)); [now left|].
    right. cbn [trimStart]. rewrite Hc. eauto.
Qed.

(** X9: the opening marker is recognized only at the very first
    character and only with its [json] tag.  A response whose first
    non-blank character is a backtick, but which does not start with the
    opening marker (a fence after a blank or a line break, a fence without
    the tag), never decodes: it is rejected as an empty or a malformed
    structured response. *)
Theorem unrecognized_fence_is_rejected text w :
  startsWith text fence_open = false ->
  (exists r, trimStart text = 96 :: r) ->
  fst (decode_structured text w) = Throw EmptyStructuredResponse
  \/ fst (decode_structured text w) = Throw MalformedStructuredResponse.
Proof.
  intros Hopen (r & Hr). unfold decode_structured, cleanedJsonString,
    strip_code_fences.
  unfold startsWith in Hopen.
  destruct (strip_prefix fence_open text); [discriminate|].
  unfold trim.
  destruct (trimStart_strip_closing_fence text r Hr) as [-> | (r' & ->)].
  - now left.
  - right. cbn [trimEnd all_space forallb].
    change (is_space 96) with false. cbn [andb is_empty].
    now rewrite JSON_parse_backtick.
Qed.

(** ** What the operations resolve to and reject with *)

Lemma trim_head c r : is_space c = false -> trim (c :: r) <> [].
Proof.
  intros Hc. unfold trim. cbn [trimStart]. rewrite Hc.
  cbn [trimEnd all_space forallb]. rewrite Hc. discriminate.
Qed.

Lemma nonblank_placeholders :
  nonblank (JString translation_placeholder)
  /\ nonblank (JString bookDescription_placeholder)
  /\ nonblank (JString videoDescription_placeholder)
  /\ nonblank (JString bookTitle_placeholder)
  /\ nonblank (JString article_placeholder)
  /\ nonblank (JString rating_placeholder)
  /\ nonblank (JString (utf16 "الملف فارغ أو لا يمكن قراءة المحتوى.")).
Proof.
  repeat split; eexists; (split; [reflexivity|]); vm_compute; discriminate.
Qed.

Lemma nonblank_ratingReport stars rating review :
  nonblank (JString (ratingReport stars rating review)).
Proof.
  eexists. split; [reflexivity|]. unfold ratingReport.
  assert (exists r, utf16 "### تقييم المحتوى

**التقييم:** " = 35 :: r) as (r & ->) by (eexists; vm_compute; reflexivity).
  apply trim_head. reflexivity.
Qed.

Lemma is_string_array_inv v :
  is_string_array v = true ->
  exists items, v = JArray items /\ forallb is_string items = true.
Proof. destruct v; try discriminate. eauto. Qed.

Lemma has_strings_true v a b :
  has_strings v a b = Ok true ->
  exists props x y, v = JObject props
    /\ lookup_prop (utf16 a) props = JString x
    /\ lookup_prop (utf16 b) props = JString y.
Proof.
  unfold has_strings, get_property.
  destruct v as [| |b0|n|s|items|props]; cbn [truthy]; try discriminate.
  - destruct b0; discriminate.
  - destruct n; discriminate.
  - destruct (negb (is_empty s)); discriminate.
  - destruct (lookup_prop (utf16 a) props) eqn:Ha; try discriminate.
    destruct (lookup_prop (utf16 b) props) eqn:Hb; try discriminate.
    eauto 10.
Qed.

(** The guard [result && ...] keeps the property reads from throwing. *)
Lemma has_strings_no_throw v a b e : has_strings v a b <> Throw e.
Proof.
  unfold has_strings, get_property.
  destruct v as [| |b0|n|s|items|props]; cbn [truthy]; try discriminate.
  - destruct b0; discriminate.
  - destruct n; discriminate.
  - destruct (negb (is_empty s)); discriminate.
  - destruct (is_string (lookup_prop (utf16 a) props)); discriminate.
Qed.

Lemma rating_report_nonblank v report :
  rating_report v = Ok (Some report) -> nonblank (JString report).
Proof.
  unfold rating_report.
  destruct (truthy v); [|discriminate].
  destruct (get_property v "rating") as [[| | |r| | |]|e]; try discriminate.
  destruct (get_property v "review") as [[| | | |review| |]|e]; try discriminate.
  destruct (String_repeat filled_mark (clamp_rating r)); [|discriminate].
  destruct (String_repeat empty_mark _); [|discriminate].
  intros [= <-]. apply nonblank_ratingReport.
Qed.

Lemma quiz_item_ok_throws q e : quiz_item_ok q = Throw e -> is_type_error e.
Proof.
  unfold quiz_item_ok, get_property.
  destruct q as [| | | | | |props]; try discriminate;
    try (intros [= <-]; eexists; reflexivity).
  destruct (is_string (lookup_prop (utf16 "question") props)); [|discriminate].
  destruct (is_array_of_4 (lookup_prop (utf16 "options") props)); discriminate.
Qed.

Lemma is_quiz_throws v e : is_quiz v = Throw e -> is_type_error e.
Proof.
  destruct v as [| | | | |items|]; try discriminate. cbn [is_quiz].
  induction items as [|q items IH]; cbn [every]; [discriminate|].
  destruct (quiz_item_ok q) as [[|]|e'] eqn:Hq; try discriminate; [exact IH|].
  intros [= <-]. now apply quiz_item_ok_throws in Hq.
Qed.

Lemma every_quiz_null good rest :
  Forall well_formed_question good ->
  every quiz_item_ok (good ++ JNull :: rest) = quiz_item_ok JNull.
Proof.
  induction 1 as [|q good Hq _ IH]; cbn [app every]; [reflexivity|].
  apply quiz_item_ok_true in Hq. now rewrite Hq.
Qed.

Lemma strip_prefix_app_l p a b r :
  strip_prefix p a = Some r -> strip_prefix p (a ++ b) = Some (r ++ b).
Proof.
  revert a. induction p as [|x p IH]; intros a; cbn [strip_prefix].
  - intros [= <-]. now destruct (a ++ b).
  - destruct a as [|y a]; [discriminate|]. cbn [app].
    destruct (x =? y); [apply IH | discriminate].
Qed.

Lemma includes_app_l a b needle :
  includes a needle = true -> includes (a ++ b) needle = true.
Proof.
  induction a as [|c a IH]; cbn [includes app].
  - unfold startsWith. destruct needle; [now destruct b|].
    simpl. discriminate.
  - intros H. apply orb_true_iff in H as [H|H]; apply orb_true_iff.
    + left. unfold startsWith in *.
      destruct (strip_prefix needle (c :: a)) as [r|] eqn:Hr; [|discriminate].
      change (c :: a ++ b) with ((c :: a) ++ b).
      now rewrite (strip_prefix_app_l _ _ b _ Hr).
    + right. auto.
Qed.

Lemma on_stream_failure_curated f err : curated (on_stream_failure f err).
Proof.
  destruct f, err as [name message|v]; cbn [on_stream_failure];
    try exact curated_StreamingFailed.
  - destruct (includes message (utf16 "Gemini API")
              || jsstring_eqb message (utf16 "API_KEY_MISSING")) eqn:Hm.
    + exists name, message. split; [reflexivity|].
      unfold has_marker. apply orb_true_iff in Hm as [-> | ->];
        [reflexivity | apply orb_true_r].
    + do 2 eexists. split; [reflexivity|]. unfold has_marker.
      rewrite includes_app_l by (vm_compute; reflexivity). reflexivity.
  - destruct (includes message (utf16 "API key not valid"));
      [exact curated_CredentialMissing | exact curated_StreamingFailed].
Qed.

Lemma chunk_texts_nonempty chunks :
  Forall (fun s => s <> []) (chunk_texts chunks).
Proof.
  unfold chunk_texts. induction chunks as [|[t|] chunks IH]; cbn [omap].
  - constructor.
  - destruct t as [|c t]; cbn [is_empty]; [exact IH|].
    constructor; [discriminate | exact IH].
  - exact IH.
Qed.

Lemma settle_resolved (r : result JSValue * World) v :
  fst (settle r) = Resolved v -> fst r = Ok v.
Proof. destruct r as [[v'|e] w]; simpl; congruence. Qed.

Lemma settle_rejected (r : result JSValue * World) e :
  fst (settle r) = Rejected e -> fst r = Throw e.
Proof. destruct r as [[v'|e'] w]; simpl; congruence. Qed.

Section Results.

Variable P : Platform.
Variable f : SourceFile.

(** Without a configuration the wrapper returns text. *)
Lemma callGeminiWithRetry_text prompt w v :
  fst (callGeminiWithRetry P f prompt no_config w) = Ok v -> nonblank v.
Proof.
  unfold callGeminiWithRetry, bind.
  destruct (getAiInstance P f w) as [[h|e] w1]; [|discriminate].
  intros H.
  destruct (retry_loop_first_success P f prompt no_config h 3 w1 v H)
    as (k & before & _ & _ & Hv).
  apply (f_equal fst) in Hv. cbn [fst] in Hv.
  destruct (attempt_ok P prompt no_config h _ v Hv) as (t & _ & Ht & Hres).
  change (wants_json no_config) with false in Hres. cbv iota in Hres.
  subst v. exists t. split; [reflexivity|].
  intros Hnil. rewrite Hnil in Ht. discriminate Ht.
Qed.

Lemma callGeminiWithRetry_curated prompt cfg w e :
  fst (callGeminiWithRetry P f prompt cfg w) = Throw e -> curated e.
Proof.
  unfold callGeminiWithRetry, bind.
  pose proof (getAiInstance_curated P f w) as Hg.
  destruct (getAiInstance P f w) as [[h|e0] w1].
  - intros H. destruct (retry_loop_last P f h prompt cfg 2 w1 e H)
      as (_ & terminal & _ & _ & -> & _).
    apply on_exhaustion_curated.
  - intros [= <-]. now apply Hg.
Qed.

(** [categorizeContent] always resolves, to an array of strings. *)
Lemma categorizeContent_resolves content w :
  exists items,
    fst (categorizeContent P f content w) = Ok (JArray items)
    /\ forallb is_string items = true.
Proof.
  unfold categorizeContent. destruct (is_empty content); [now exists []|].
  unfold try_catch, bind at 1.
  destruct (callGeminiWithRetry P f (categoriesPrompt content)
              (json_config categoriesSchema) w) as [[v|e] w1].
  - destruct (is_string_array v) eqn:Hv.
    + apply is_string_array_inv in Hv as (items & -> & Hitems). now exists items.
    + now exists [].
  - now exists [].
Qed.

(** X10: whatever the remote capability answers, a value an operation
    resolves to has the shape its callers expect: an array of strings
    (categories, keywords, suggestions), an array of well-formed questions
    (quiz), an object with a string [sentiment] and a string [explanation],
    an object with a non-blank [analysis] and string [categories], or a
    string with something in it besides white space (every other
    operation, on empty input as well). *)
Theorem resolved_values_are_well_formed op input w v :
  fst (invoke P f op input w) = Resolved v -> well_formed_result op v.
Proof.
  pose proof nonblank_placeholders as (Htr & Hbd & Hvd & Hbt & Har & Hra & Han).
  destruct op; cbn [invoke well_formed_result]; intros H;
    try apply settle_resolved in H.
  - (* analyzeTextContent *)
    unfold analyzeTextContent in H. destruct (is_empty input).
    + injection H as <-. eexists _, _. split; [reflexivity|]. now split.
    + pose proof (callGeminiWithRetry_text (analysisPrompt input) w) as Ha.
      destruct (callGeminiWithRetry P f (analysisPrompt input) no_config w)
        as [a w1].
      destruct (categorizeContent_resolves input w1) as (items & Hc & Hi).
      destruct (categorizeContent P f input w1) as [c w2]. cbn [fst] in *.
      subst c. destruct a as [a|e]; [|discriminate H].
      injection H as <-. eexists _, _. split; [reflexivity|]. split; auto.
  - (* categorizeContent *)
    destruct (categorizeContent_resolves input w) as (items & Hc & Hi).
    rewrite Hc in H. now injection H as <-.
  - (* summarizeContent *)
    destruct (summarizeContent P f input w). discriminate H.
  - (* createQuiz *)
    unfold createQuiz in H. destruct (is_empty input).
    { injection H as <-. exists []. split; [reflexivity | constructor]. }
    unfold bind at 1 in H.
    destruct (callGeminiWithRetry P f _ _ w) as [[r|e] w1]; [|discriminate H].
    unfold bind, lift in H.
    destruct (is_quiz r) as [[|]|e] eqn:Hq; try discriminate H.
    injection H as <-. destruct r as [| | | | |items|]; try discriminate Hq.
    exists items. split; [reflexivity|]. now apply every_quiz_true.
  - (* analyzeSentiment *)
    unfold analyzeSentiment in H. destruct (is_empty input); [discriminate H|].
    unfold bind at 1 in H.
    destruct (callGeminiWithRetry P f _ _ w) as [[r|e] w1]; [|discriminate H].
    unfold bind, lift in H.
    destruct (has_strings r "sentiment" "explanation") as [[|]|e] eqn:Hs;
      try discriminate H.
    injection H as <-. now apply has_strings_true.
  - (* extractKeywords *)
    unfold extractKeywords in H. destruct (is_empty input).
    { now injection H as <-. }
    unfold bind at 1 in H.
    destruct (callGeminiWithRetry P f _ _ w) as [[r|e] w1]; [|discriminate H].
    destruct (is_string_array r) eqn:Hr; [|discriminate H].
    now injection H as <-.
  - unfold translateToEnglish in H. destruct (is_empty input).
    + now injection H as <-.
    + now apply callGeminiWithRetry_text in H.
  - unfold translateToArabic in H. destruct (is_empty input).
    + now injection H as <-.
    + now apply callGeminiWithRetry_text in H.
  - unfold generateBookDescription in H. destruct (is_empty input).
    + now injection H as <-.
    + now apply callGeminiWithRetry_text in H.
  - unfold generateVideoDescription in H. destruct (is_empty input).
    + now injection H as <-.
    + now apply callGeminiWithRetry_text in H.
  - unfold extractBookTitle in H. destruct (is_empty input).
    + now injection H as <-.
    + now apply callGeminiWithRetry_text in H.
  - unfold generateScriptFromInfo in H.
    now apply callGeminiWithRetry_text in H.
  - (* generateContentSuggestions *)
    unfold generateContentSuggestions in H. destruct (is_empty input).
    { now injection H as <-. }
    unfold bind at 1 in H.
    destruct (callGeminiWithRetry P f _ _ w) as [[r|e] w1]; [|discriminate H].
    destruct (is_string_array r) eqn:Hr; [|discriminate H].
    now injection H as <-.
  - unfold designArticleFromContent in H. destruct (is_empty input).
    + now injection H as <-.
    + now apply callGeminiWithRetry_text in H.
  - (* rateContent *)
    unfold rateContent in H. destruct (is_empty input).
    { now injection H as <-. }
    unfold try_catch, bind at 1 in H.
    destruct (callGeminiWithRetry P f _ _ w) as [[r|e] w1]; [|discriminate H].
    unfold bind, lift in H.
    destruct (rating_report r) as [[report|]|e] eqn:Hr; try discriminate H.
    injection H as <-. now apply rating_report_nonblank in Hr.
Qed.

(** X11: the errors an operation can reject with are few.
    [categorizeContent] never rejects; [rateContent] rejects with its own
    rating error only; the text operations and [analyzeTextContent] reject
    only with what the wrapper throws, an Error with a curated message;
    the structured operations add their own malformed-result error
    ([analyzeSentiment] its no-content error as well), and [createQuiz] a
    TypeError.  A summary stream that ends in an error ends in an Error
    with a curated message. *)
Theorem rejections_are_foreseen op input w :
  (forall e, fst (invoke P f op input w) = Rejected e -> may_reject op e)
  /\ (forall fragments e,
        fst (invoke P f op input w) = Yielded fragments (Some e) -> curated e).
Proof.
  pose proof callGeminiWithRetry_curated as Hc.
  split.
  - intros e H.
    destruct op; cbn [invoke may_reject] in *;
      try apply settle_rejected in H.
    + (* analyzeTextContent *)
      unfold analyzeTextContent in H. destruct (is_empty input); [discriminate H|].
      pose proof (Hc (analysisPrompt input) no_config w) as Ha.
      destruct (callGeminiWithRetry P f (analysisPrompt input) no_config w)
        as [a w1].
      destruct (categorizeContent_resolves input w1) as (items & Hi & _).
      destruct (categorizeContent P f input w1) as [c w2]. cbn [fst] in *.
      subst c. destruct a as [a|e']; [discriminate H|].
      injection H as <-. now apply Ha.
    + destruct (categorizeContent_resolves input w) as (items & Hi & _).
      rewrite Hi in H. discriminate H.
    + destruct (summarizeContent P f input w). discriminate H.
    + (* createQuiz *)
      unfold createQuiz in H. destruct (is_empty input); [discriminate H|].
      unfold bind at 1 in H.
      pose proof (Hc (quizPrompt input questionCount) (json_config quizSchema) w)
        as Ha.
      destruct (callGeminiWithRetry P f _ _ w) as [[r|e'] w1].
      * unfold bind, lift in H.
        destruct (is_quiz r) as [[|]|e'] eqn:Hq; try discriminate H.
        -- unfold console, emit, throw in H. injection H as <-.
           right. left. reflexivity.
        -- injection H as <-. right. right. now apply is_quiz_throws in Hq.
      * injection H as <-. left. now apply Ha.
    + (* analyzeSentiment *)
      unfold analyzeSentiment in H. destruct (is_empty input).
      { injection H as <-. right. left. reflexivity. }
      unfold bind at 1 in H.
      pose proof (Hc (sentimentPrompt input) (json_config sentimentSchema) w)
        as Ha.
      destruct (callGeminiWithRetry P f _ _ w) as [[r|e'] w1].
      * unfold bind, lift in H.
        destruct (has_strings r "sentiment" "explanation") as [[|]|e'] eqn:Hs;
          try discriminate H.
        -- unfold console, emit, throw in H. injection H as <-.
           right. right. reflexivity.
        -- now destruct (has_strings_no_throw r "sentiment" "explanation" e').
      * injection H as <-. left. now apply Ha.
    + (* extractKeywords *)
      unfold extractKeywords in H. destruct (is_empty input); [discriminate H|].
      unfold bind at 1 in H.
      pose proof (Hc (keywordsPrompt input) (json_config keywordsSchema) w) as Ha.
      destruct (callGeminiWithRetry P f _ _ w) as [[r|e'] w1].
      * destruct (is_string_array r); [discriminate H|].
        unfold bind, console, emit, throw in H. injection H as <-.
        right. reflexivity.
      * injection H as <-. left. now apply Ha.
    + unfold translateToEnglish in H. destruct (is_empty input);
        [discriminate H | now apply Hc in H].
    + unfold translateToArabic in H. destruct (is_empty input);
        [discriminate H | now apply Hc in H].
    + unfold generateBookDescription in H. destruct (is_empty input);
        [discriminate H | now apply Hc in H].
    + unfold generateVideoDescription in H. destruct (is_empty input);
        [discriminate H | now apply Hc in H].
    + unfold extractBookTitle in H. destruct (is_empty input);
        [discriminate H | now apply Hc in H].
    + unfold generateScriptFromInfo in H. now apply Hc in H.
    + (* generateContentSuggestions *)
      unfold generateContentSuggestions in H.
      destruct (is_empty input); [discriminate H|].
      unfold bind at 1 in H.
      pose proof (Hc (suggestionsPrompt input) (json_config suggestionsSchema) w)
        as Ha.
      destruct (callGeminiWithRetry P f _ _ w) as [[r|e'] w1].
      * destruct (is_string_array r); [discriminate H|].
        unfold bind, console, emit, throw in H. injection H as <-.
        right. reflexivity.
      * injection H as <-. left. now apply Ha.
    + unfold designArticleFromContent in H. destruct (is_empty input);
        [discriminate H | now apply Hc in H].
    + (* rateContent *)
      unfold rateContent in H. destruct (is_empty input); [discriminate H|].
      unfold try_catch in H.
      match type of H with
      | context [match ?m w with _ => _ end] => destruct (m w) as [[r|e'] w1]
      end; [discriminate H|].
      unfold bind, console, emit, throw in H. now injection H as <-.
  - intros fragments e H.
    destruct op; cbn [invoke] in H;
      try (match type of H with
           | fst (settle ?r) = _ => destruct r as [[?|?] ?]; discriminate H
           end).
    unfold summarizeContent in H.
    pose proof (getAiInstance_curated P f w) as Hg.
    destruct (getAiInstance P f w) as [[h|e'] w1]; cbn [fst] in *.
    + destruct (is_empty input); [discriminate H|].
      destruct (generateContentStream P (trace w1) h _) as [e'|chunks [e'|]];
        cbn in H; try discriminate H;
        injection H as _ <-; apply on_stream_failure_curated.
    + cbn in H. injection H as _ <-. now apply Hg.
Qed.

(** X12: a [null] among the decoded items, after well-formed ones, makes
    [createQuiz] reject with the TypeError of reading a property of
    [null], not with its malformed-quiz error, and without its report on
    the console. *)
Theorem createQuiz_null_item content questionCount w w1 good rest :
  content <> [] ->
  callGeminiWithRetry P f (quizPrompt content questionCount)
    (json_config quizSchema) w = (Ok (JArray (good ++ JNull :: rest)), w1) ->
  Forall well_formed_question good ->
  exists message,
    createQuiz P f content questionCount w
    = (Throw (ErrorObject (utf16 "TypeError") message), w1).
Proof.
  intros Hne Hcall Hgood. apply is_empty_false in Hne.
  unfold createQuiz. rewrite Hne. unfold bind at 1. rewrite Hcall.
  unfold bind, lift. cbn [is_quiz]. rewrite (every_quiz_null good rest Hgood).
  eexists. reflexivity.
Qed.

(** X14: [summarizeContent] never yields an empty fragment: chunks
    without text are skipped, and the placeholder for empty input is not
    empty. *)
Theorem summarizeContent_yields_text content w :
  Forall (fun s => s <> [])
    (fragments (fst (summarizeContent P f content w))).
Proof.
  unfold summarizeContent.
  destruct (getAiInstance P f w) as [[h|e] w1]; [|constructor].
  destruct (is_empty content).
  - constructor; [|constructor]. vm_compute. discriminate.
  - destruct (generateContentStream P (trace w1) h _) as [e|chunks [e|]];
      cbn [fst fragments]; try constructor; apply chunk_texts_nonempty.
Qed.

(** X15: [summarizeContent] does not retry.  With a client and a
    non-empty input it sends exactly one streaming request, with the
    summary prompt and no configuration, whether the stream then succeeds
    or fails; otherwise it sends nothing; it never waits. *)
Theorem summarizeContent_single_request content w :
  exists evs,
    trace (snd (summarizeContent P f content w)) = trace w ++ evs
    /\ List.filter wire evs
       = match fst (getAiInstance P f w) with
         | Ok h =>
             if is_empty content then []
             else [EvGenerateContentStream h
                     {| model := gemini_model;
                        contents := summaryPrompt content;
                        config := None |}]
         | Throw _ => []
         end.
Proof.
  unfold summarizeContent.
  destruct (getAiInstance_trace P f w) as (evs0 & Htr & Hq).
  destruct (getAiInstance P f w) as [[h|e] w1]; cbn [fst snd] in *;
    [|now exists evs0].
  destruct (is_empty content); [now exists evs0|].
  unfold quiet in Hq.
  destruct (generateContentStream P (trace w1) h _) as [e|chunks [e|]];
    cbn [snd]; unfold console, emit; cbn [snd trace];
    eexists; (split; [rewrite Htr, <- ?app_assoc; reflexivity|]);
    rewrite List.filter_app, Hq; reflexivity.
Qed.

End Results.

(** ** Any number is a rating *)

Section AnyRating.

Variable P : Platform.
Variable f : SourceFile.

(** X16: the clamp keeps [repeat] from ever throwing.  Whatever number
    the decoded rating is (fractional, negative, beyond five, infinite or
    NaN), if the review is a string then [rateContent] resolves, with a
    report that carries the clamped rating and the review. *)
Theorem rateContent_accepts_any_rating content w props r review w1 :
  content <> [] ->
  callGeminiWithRetry P f (ratingPrompt content) (json_config ratingSchema) w
  = (Ok (JObject props), w1) ->
  lookup_prop (utf16 "rating") props = JNumber r ->
  lookup_prop (utf16 "review") props = JString review ->
  exists stars,
    rateContent P f content w
    = (Ok (JString (ratingReport stars (clamp_rating r) review)), w1).
Proof.
  intros Hne Hcall Hr Hv. apply is_empty_false in Hne.
  unfold rateContent. rewrite Hne. unfold try_catch, bind at 1.
  rewrite Hcall. unfold bind, lift.
  destruct (rating_report_total props r review Hr Hv) as (stars & ->).
  now exists stars.
Qed.

End AnyRating.

(** ** What every operation leaves alone *)

Section Invariant.

Variable P : Platform.
Variable f : SourceFile.
Context (R : World -> World -> Prop).
Hypothesis R_refl : forall w, R w w.
Hypothesis R_trans : forall a b c, R a b -> R b c -> R a c.
Hypothesis R_getAiInstance : forall w, R w (snd (getAiInstance P f w)).
Hypothesis R_console : forall lvl label w, R w (extend w [EvConsole lvl label]).
Hypothesis R_sleep :
  forall h w, ai w = Some h -> R w (extend w [EvSleep 1000]).
Hypothesis R_request :
  forall h req w, ai w = Some h -> model req = gemini_model ->
                  R w (extend w [EvGenerateContent h req]).
Hypothesis R_stream :
  forall h req w, ai w = Some h -> model req = gemini_model ->
                  R w (extend w [EvGenerateContentStream h req]).

Lemma invariant_console lvl s : respects R (console lvl s).
Proof. intros w. apply R_console. Qed.

Lemma invariant_emit_console lvl l : respects R (emit (EvConsole lvl l)).
Proof. intros w. apply R_console. Qed.

#[local] Hint Resolve invariant_console invariant_emit_console : effects.

Lemma invariant_decode t : respects R (decode_structured t).
Proof. unfold decode_structured. respects_all. Qed.

Lemma client_after_attempt h prompt cfg w :
  ai w = Some h -> ai (snd (attempt P h prompt cfg w)) = Some h.
Proof.
  intros Hai. pose proof (keeps_client_attempt P h prompt cfg w) as Hk.
  unfold keeps_client in Hk. rewrite Hai in Hk. tauto.
Qed.

Lemma invariant_attempt h prompt cfg w :
  ai w = Some h -> R w (snd (attempt P h prompt cfg w)).
Proof.
  intros Hai. unfold attempt, bind at 1, history. cbn [fst snd].
  unfold bind at 1. rewrite emit_extend.
  assert (R w (extend w [EvGenerateContent h
                           {| model := gemini_model; contents := prompt;
                              config := Some cfg |}])) as Hr
      by (apply R_request; [exact Hai | reflexivity]).
  destruct (generateContent P (trace w) h _) as [e|[t|]]; try exact Hr.
  destruct (is_empty t || is_empty (trim t)); [exact Hr|].
  destruct (wants_json cfg); [|exact Hr].
  eapply R_trans; [exact Hr | apply invariant_decode].
Qed.

Lemma invariant_retry_loop n h prompt cfg w :
  ai w = Some h -> R w (snd (retry_loop P f n h prompt cfg w)).
Proof.
  revert w. induction n as [|n IH]; intros w Hai; [apply R_refl|].
  rewrite retry_loop_step.
  pose proof (invariant_attempt h prompt cfg w Hai) as Ha.
  pose proof (client_after_attempt h prompt cfg w Hai) as Hai1.
  destruct (attempt P h prompt cfg w) as [[v|e] w1]; cbn [snd] in *;
    [exact Ha|].
  destruct n as [|n]; cbn [snd].
  - eapply R_trans; [exact Ha | apply R_console].
  - eapply R_trans; [exact Ha|].
    eapply R_trans; [|apply IH; exact Hai1].
    replace (extend w1 [EvConsole error (attempt_label (S n)); EvSleep 1000])
      with (extend (extend w1 [EvConsole error (attempt_label (S n))])
              [EvSleep 1000]) by (now rewrite extend_extend).
    eapply R_trans; [apply R_console | apply (R_sleep h); exact Hai1].
Qed.

Lemma invariant_callGeminiWithRetry prompt cfg :
  respects R (callGeminiWithRetry P f prompt cfg).
Proof.
  intros w. unfold callGeminiWithRetry, bind.
  pose proof (R_getAiInstance w) as Hg.
  pose proof (getAiInstance_caches P f w) as Hc.
  destruct (getAiInstance P f w) as [[h|e] w1]; cbn [snd] in *; [|exact Hg].
  eapply R_trans; [exact Hg | apply invariant_retry_loop; eauto].
Qed.

#[local] Hint Resolve invariant_callGeminiWithRetry : effects.

Lemma invariant_categorizeContent content :
  respects R (categorizeContent P f content).
Proof. unfold categorizeContent. respects_all. Qed.

Lemma invariant_analyzeTextContent content :
  respects R (analyzeTextContent P f content).
Proof.
  unfold analyzeTextContent. destruct (is_empty content); [respects_all|].
  intros w.
  pose proof (invariant_callGeminiWithRetry (analysisPrompt content) no_config w)
    as H1.
  destruct (callGeminiWithRetry P f (analysisPrompt content) no_config w)
    as [a w1].
  pose proof (invariant_categorizeContent content w1) as H2.
  destruct (categorizeContent P f content w1) as [c w2]. cbn [snd] in *.
  assert (R w w2) by eauto.
  destruct a, c; assumption.
Qed.

Lemma invariant_summarizeContent content w :
  R w (snd (summarizeContent P f content w)).
Proof.
  unfold summarizeContent.
  pose proof (R_getAiInstance w) as Hg.
  pose proof (getAiInstance_caches P f w) as Hc.
  destruct (getAiInstance P f w) as [[h|e] w1]; cbn [snd] in *; [|exact Hg].
  specialize (Hc h w1 eq_refl).
  destruct (is_empty content); [exact Hg|].
  rewrite emit_extend.
  assert (R w (extend w1 [EvGenerateContentStream h
                            {| model := gemini_model;
                               contents := summaryPrompt content;
                               config := None |}])) as Hs
      by (eapply R_trans; [exact Hg | now apply R_stream]).
  destruct (generateContentStream P (trace w1) h _) as [e|chunks [e|]];
    cbn [snd]; try exact Hs;
    unfold console; rewrite emit_extend; cbn [snd];
    (eapply R_trans; [exact Hs | apply R_console]).
Qed.

(** Whatever relation the handle's creation, the console, the delay and
    the requests of the cached client respect, every operation
    respects. *)
Lemma invariant_invoke op input w : R w (snd (invoke P f op input w)).
Proof.
  destruct op; cbn [invoke]; rewrite ?snd_settle.
  - apply invariant_analyzeTextContent.
  - apply invariant_categorizeContent.
  - pose proof (invariant_summarizeContent input w) as H.
    now destruct (summarizeContent P f input w).
  - revert w. change (respects R (createQuiz P f input questionCount)).
    unfold createQuiz. respects_all.
  - revert w. change (respects R (analyzeSentiment P f input)).
    unfold analyzeSentiment. respects_all.
  - revert w. change (respects R (extractKeywords P f input)).
    unfold extractKeywords. respects_all.
  - revert w. change (respects R (translateToEnglish P f input)).
    unfold translateToEnglish. respects_all.
  - revert w. change (respects R (translateToArabic P f input)).
    unfold translateToArabic. respects_all.
  - revert w. change (respects R (generateBookDescription P f input)).
    unfold generateBookDescription. respects_all.
  - revert w. change (respects R (generateVideoDescription P f input)).
    unfold generateVideoDescription. respects_all.
  - revert w. change (respects R (extractBookTitle P f input)).
    unfold extractBookTitle. respects_all.
  - revert w. change (respects R (generateScriptFromInfo P f input description)).
    unfold generateScriptFromInfo. respects_all.
  - revert w. change (respects R (generateContentSuggestions P f input)).
    unfold generateContentSuggestions. respects_all.
  - revert w. change (respects R (designArticleFromContent P f input)).
    unfold designArticleFromContent. respects_all.
  - revert w. change (respects R (rateContent P f input)).
    unfold rateContent. respects_all.
Qed.

End Invariant.

Lemma sources_kept_refl f w : sources_kept f w w.
Proof. split; [reflexivity|]. destruct f; auto. Qed.

Lemma sources_kept_trans f a b c :
  sources_kept f a b -> sources_kept f b c -> sources_kept f a c.
Proof.
  intros [He1 Hs1] [He2 Hs2]. split; [congruence|].
  destruct f; [congruence|].
  destruct Hs1 as [Hs1|(e1 & Ha & Hb)], Hs2 as [Hs2|(e2 & Hb' & Hc)].
  - left. congruence.
  - right. exists e2. split; congruence.
  - right. exists e1. split; congruence.
  - right. exists e1. split; [exact Ha|].
    rewrite Hb in Hb'. injection Hb' as <-. rewrite Hc.
    f_equal. apply delete_delete_eq.
Qed.

Lemma sources_kept_extend f w evs : sources_kept f w (extend w evs).
Proof. split; [reflexivity|]. destruct f; auto. Qed.

Lemma quiet_sent_by h evs : quiet evs -> Forall (sent_by h) evs.
Proof.
  unfold quiet. induction evs as [|ev evs IH]; [constructor|].
  cbn [List.filter]. destruct ev; cbn [wire]; try discriminate;
    intros H; (constructor; [exact I | exact (IH H)]).
Qed.

Lemma through_client_refl w : through_client w w.
Proof.
  split; [auto|]. exists []. split; [now rewrite app_nil_r|].
  destruct (ai w); [constructor | reflexivity].
Qed.

Lemma through_client_trans a b c :
  through_client a b -> through_client b c -> through_client a c.
Proof.
  intros [Hk1 (evs1 & Ht1 & Hs1)] [Hk2 (evs2 & Ht2 & Hs2)].
  split; [auto|]. exists (evs1 ++ evs2).
  split; [now rewrite Ht2, Ht1, app_assoc|].
  destruct (ai c) as [h|] eqn:Hc.
  - apply Forall_app. split; [|exact Hs2].
    destruct (ai b) as [h'|] eqn:Hb.
    + injection (Hk2 h' eq_refl) as ->. exact Hs1.
    + now apply quiet_sent_by.
  - destruct (ai b) as [h'|] eqn:Hb.
    + discriminate (Hk2 h' eq_refl).
    + unfold quiet in *. now rewrite List.filter_app, Hs1, Hs2.
Qed.

Section Kept.

Variable P : Platform.

Lemma sources_kept_getAiInstance f w :
  sources_kept f w (snd (getAiInstance P f w)).
Proof.
  destruct w as [cached env store tr].
  destruct f; unfold sources_kept; unfold_getAiInstance; simpl.
  all: split_matches.
  all: split; [reflexivity|]; try reflexivity; try (left; reflexivity).
  all: right; eexists; split; reflexivity.
Qed.

Lemma through_client_getAiInstance f w :
  through_client w (snd (getAiInstance P f w)).
Proof.
  destruct (ai w) as [h|] eqn:Hai.
  - rewrite (getAiInstance_cached P f w h Hai). apply through_client_refl.
  - pose proof (getAiInstance_fresh P f w Hai) as H.
    split; [intros h Hh; congruence|].
    destruct (getAiInstance P f w) as [[h|e] w1]; cbn [snd].
    + destruct H as (-> & _ & _ & evs & Ht & Hq & _).
      exists evs. split; [exact Ht | now apply quiet_sent_by].
    + destruct H as (-> & _ & evs & Ht & Hq & _). eauto.
Qed.

(** X17: no operation writes to the credential sources, with one
    exception.  The environment is left as it was; [geminiService.ts]
    leaves [localStorage] as it was; [part_000] leaves it as it was or
    removes [gemini_api_key] from it, and does nothing else to it. *)
Theorem credential_sources_are_kept f op input w :
  sources_kept f w (snd (invoke P f op input w)).
Proof.
  apply invariant_invoke.
  - apply sources_kept_refl.
  - apply sources_kept_trans.
  - apply sources_kept_getAiInstance.
  - intros. apply sources_kept_extend.
  - intros. apply sources_kept_extend.
  - intros. apply sources_kept_extend.
  - intros. apply sources_kept_extend.
Qed.

Lemma through_client_invoke f op input w :
  through_client w (snd (invoke P f op input w)).
Proof.
  apply invariant_invoke.
  - apply through_client_refl.
  - apply through_client_trans.
  - apply through_client_getAiInstance.
  - intros lvl label w0. split; [auto|]. exists [EvConsole lvl label].
    split; [reflexivity|]. cbn [extend ai].
    destruct (ai w0); [repeat constructor | reflexivity].
  - intros h w0 Hai. split; [auto|]. exists [EvSleep 1000].
    split; [reflexivity|]. cbn [extend ai]. rewrite Hai.
    repeat constructor.
  - intros h req w0 Hai Hm. split; [auto|]. eexists.
    split; [reflexivity|]. cbn [extend ai]. rewrite Hai.
    repeat constructor. exact Hm.
  - intros h req w0 Hai Hm. split; [auto|]. eexists.
    split; [reflexivity|]. cbn [extend ai]. rewrite Hai.
    repeat constructor. exact Hm.
Qed.

Lemma through_client_run f calls w : through_client w (run P f calls w).
Proof.
  revert w. induction calls as [|c calls IH]; intros w; cbn [run fold_left].
  - apply through_client_refl.
  - eapply through_client_trans; [|apply IH].
    destruct c as [op input|env store]; cbn [exec].
    + apply through_client_invoke.
    + split; [auto|]. exists []. cbn [ai trace].
      split; [now rewrite app_nil_r|].
      destruct (ai w); [constructor | reflexivity].
Qed.

(** X18: throughout the life of a process, whatever is called and
    whatever the application does to the credential sources in between,
    every request goes out through the one cached client and names the
    model [gemini-2.5-flash], and every delay is of one second; as long as
    no client exists, nothing is sent and nothing is waited for. *)
Theorem requests_go_through_the_client f env store calls :
  let w := run P f calls (initial_world env store) in
  match ai w with
  | Some h => Forall (sent_by h) (trace w)
  | None => quiet (trace w)
  end.
Proof.
  intros w.
  destruct (through_client_run f calls (initial_world env store))
    as [_ (evs & Ht & Hs)].
  fold w in Ht, Hs. cbn [initial_world trace app] in Ht. now rewrite Ht.
Qed.

End Kept.

(** ** The further properties on concrete processes *)

(** A process with a stored key and no key in the environment. *)
Lemma getAiInstance_resolution_witness :
  exists evs,
    trace (snd (getAiInstance unreachable_remote GeminiService stored_key_world))
    = trace stored_key_world ++ evs
    /\ match resolved_key GeminiService stored_key_world with
       | None =>
           fst (getAiInstance unreachable_remote GeminiService stored_key_world)
           = Throw CredentialMissing
           /\ List.filter is_construction evs = []
       | Some k =>
           exists accepted,
             List.filter is_construction evs = [EvConstruct k accepted]
             /\ if accepted
                then exists h,
                       fst (getAiInstance unreachable_remote GeminiService
                              stored_key_world) = Ok h
                       /\ handle_apiKey h = k
                       /\ ai (snd (getAiInstance unreachable_remote GeminiService
                                     stored_key_world)) = Some h
                else fst (getAiInstance unreachable_remote GeminiService
                            stored_key_world) = Throw InitializationFailed
                     /\ ai (snd (getAiInstance unreachable_remote GeminiService
                                   stored_key_world)) = None
       end.
Proof.
  apply (getAiInstance_resolution unreachable_remote GeminiService
           stored_key_world).
  reflexivity.
Defined.

(** A key in the environment, and the same process with a stored key
    besides. *)
Lemma env_key_skips_localStorage_witness :
  getAiInstance unreachable_remote GeminiService
    (with_store both_keys_store env_key_world)
  = (fst (getAiInstance unreachable_remote GeminiService env_key_world),
     with_store both_keys_store
       (snd (getAiInstance unreachable_remote GeminiService env_key_world))).
Proof.
  apply (env_key_skips_localStorage unreachable_remote env_key_world env_key
           both_keys_store).
  - reflexivity.
  - reflexivity.
  - vm_compute. discriminate.
Defined.

(** No key anywhere. *)
Lemma getAiInstance_failure_witness :
  (CredentialMissing = CredentialMissing
   \/ CredentialMissing = InitializationFailed)
  /\ ai (snd (getAiInstance unreachable_remote Part000 no_key_world)) = None
  /\ process_env (snd (getAiInstance unreachable_remote Part000 no_key_world))
     = process_env no_key_world
  /\ exists evs,
       trace (snd (getAiInstance unreachable_remote Part000 no_key_world))
       = trace no_key_world ++ evs
       /\ quiet evs.
Proof.
  apply (getAiInstance_failure unreachable_remote Part000 no_key_world
           CredentialMissing
           (snd (getAiInstance unreachable_remote Part000 no_key_world))).
  vm_compute. reflexivity.
Defined.

(** No key at first; then the application stores one. *)
Lemma getAiInstance_recovers_witness :
  exists h,
    fst (getAiInstance unreachable_remote Part000
           (exec unreachable_remote Part000 (Outside EnvAbsent both_keys_store)
              (snd (getAiInstance unreachable_remote Part000 no_key_world))))
    = Ok h
    /\ handle_apiKey h = stored_key
    /\ ai (snd (getAiInstance unreachable_remote Part000
                  (exec unreachable_remote Part000
                     (Outside EnvAbsent both_keys_store)
                     (snd (getAiInstance unreachable_remote Part000
                             no_key_world)))))
       = Some h.
Proof.
  apply (getAiInstance_recovers unreachable_remote Part000 no_key_world
           CredentialMissing
           (snd (getAiInstance unreachable_remote Part000 no_key_world))
           EnvAbsent both_keys_store stored_key).
  - vm_compute. reflexivity.
  - vm_compute. reflexivity.
  - intros past. reflexivity.
Defined.

(** A remote capability that answers [hello]. *)
Lemma callGeminiWithRetry_returns_witness :
  exists h earlier t,
    let request :=
      {| model := gemini_model; contents := hello; config := Some no_config |} in
    fst (getAiInstance (answering hello) GeminiService stored_key_world) = Ok h
    /\ ai (snd (callGeminiWithRetry (answering hello) GeminiService hello
                  no_config stored_key_world)) = Some h
    /\ trace (snd (callGeminiWithRetry (answering hello) GeminiService hello
                     no_config stored_key_world))
       = (trace stored_key_world ++ earlier) ++ [EvGenerateContent h request]
    /\ generateContent (answering hello) (trace stored_key_world ++ earlier) h
         request
       = Responds (Some t)
    /\ trim t <> []
    /\ if wants_json no_config
       then JSON_parse (cleanedJsonString t) = Some (JString hello)
       else JString hello = JString t.
Proof.
  apply (callGeminiWithRetry_returns (answering hello) GeminiService hello
           no_config stored_key_world (JString hello)).
  vm_compute. reflexivity.
Defined.


(** An unreachable service: the transport's error is replaced. *)
Lemma callGeminiWithRetry_errors_are_curated_witness :
  curated ConnectionExhausted.
Proof.
  apply (callGeminiWithRetry_errors_are_curated unreachable_remote GeminiService
           hello no_config stored_key_world ConnectionExhausted).
  vm_compute. reflexivity.
Defined.

(** A fenced array after a blank. *)
Lemma unrecognized_fence_is_rejected_witness :
  fst (decode_structured indented_fence no_key_world)
  = Throw EmptyStructuredResponse
  \/ fst (decode_structured indented_fence no_key_world)
     = Throw MalformedStructuredResponse.
Proof.
  apply (unrecognized_fence_is_rejected indented_fence no_key_world).
  - vm_compute. reflexivity.
  - exists (tl (fenced (utf16 "[1]"))). vm_compute. reflexivity.
Defined.

Example indented_fence_is_malformed :
  fst (decode_structured indented_fence no_key_world)
  = Throw MalformedStructuredResponse
  /\ fst (decode_structured (fenced (utf16 "[1]")) no_key_world)
     = Ok (JArray [JNumber (number_of_Z 1)]).
Proof. split; vm_compute; reflexivity. Qed.

(** A translation that succeeds. *)
Lemma resolved_values_are_well_formed_witness :
  well_formed_result TranslateToEnglish (JString hello).
Proof.
  apply (resolved_values_are_well_formed (answering hello) GeminiService
           TranslateToEnglish hello stored_key_world (JString hello)).
  vm_compute. reflexivity.
Defined.

(** The remote capability answers [[null]]. *)
Lemma createQuiz_null_item_witness :
  exists message,
    createQuiz (answering null_quiz_text) GeminiService hello (number_of_Z 1)
      stored_key_world
    = (Throw (ErrorObject (utf16 "TypeError") message),
       snd (callGeminiWithRetry (answering null_quiz_text) GeminiService
              (quizPrompt hello (number_of_Z 1)) (json_config quizSchema)
              stored_key_world)).
Proof.
  apply (createQuiz_null_item (answering null_quiz_text) GeminiService hello
           (number_of_Z 1) stored_key_world
           (snd (callGeminiWithRetry (answering null_quiz_text) GeminiService
                   (quizPrompt hello (number_of_Z 1)) (json_config quizSchema)
                   stored_key_world))
           [] []).
  - discriminate.
  - vm_compute. reflexivity.
  - constructor.
Defined.

(** A rating of 2.5. *)
Lemma rateContent_accepts_any_rating_witness :
  exists stars,
    rateContent (answering (rating_text "2.5")) GeminiService hello
      stored_key_world
    = (Ok (JString (ratingReport stars (clamp_rating two_and_a_half)
                      (utf16 "ok"))),
       snd (callGeminiWithRetry (answering (rating_text "2.5")) GeminiService
              (ratingPrompt hello) (json_config ratingSchema) stored_key_world)).
Proof.
  apply (rateContent_accepts_any_rating (answering (rating_text "2.5"))
           GeminiService hello stored_key_world
           [ (utf16 "rating", JNumber two_and_a_half);
             (utf16 "review", JString (utf16 "ok")) ]
           two_and_a_half (utf16 "ok")).
  - discriminate.
  - vm_compute. reflexivity.
  - vm_compute. reflexivity.
  - vm_compute. reflexivity.
Defined.
